(** * The Katappa compiler (katappa_compiler.py): a shallow embedding

    The compiler is one class, [Compiler], whose four stages run in order
    over shared mutable fields.  The embedding keeps that shape: the object
    is a record, every method is a computation in a small state-and-exception
    monad over that record, and Python exceptions are values of [exn].  The
    generator's [while] loop keeps its cursor [i] and indexes the block as
    the source does, so that running past the end of a block is the
    [IndexError] it is in Python; the analysis loop, which only moves
    forward, runs on the rows from the cursor on.

    Source characters are code points below 256 ([ascii]).  The console
    progress output of the stages and the interpreter's recursion limit are
    not modelled. *)

From Stdlib Require Import String Ascii List Arith ZArith Bool Lia DecimalString.
From Stdlib Require Import Sorted DecimalNat Permutation.
Import ListNotations.

Set Implicit Arguments.

Local Open Scope string_scope.
Local Open Scope list_scope.

(** f-string concatenation *)
Infix "^^" := String.append (at level 60, right associativity).

(* ====================================================================== *)
(** ** 0. Common data structures and error classes *)
(* ====================================================================== *)

(** Exceptions the program can end with.  [CompilationError] is the one
    class the source declares; the others are the Python built-ins that
    list indexing, dict lookup and tuple unpacking raise. *)
Inductive exn : Type :=
| CompilationError (message : string) (line : nat)
| IndexError
| KeyError (key : string)
| ValueError.

(** Outcome of running a method: a value, an exception, or the recursion
    budget of the embedding used up (shown below never to happen). *)
Inductive result (A : Type) : Type :=
| Ok (a : A)
| Raise (e : exn)
| OutOfFuel.
Arguments Ok {A} a.
Arguments Raise {A} e.
Arguments OutOfFuel {A}.

(** The [category] strings the source assigns. *)
Inductive Category : Type :=
| Variable_ | NumericLiteral | StringLiteral
| Type_ | Mutability | Control | Io | Operator | Delimiter.

Definition Category_eqb (a b : Category) : bool :=
  match a, b with
  | Variable_, Variable_ | NumericLiteral, NumericLiteral
  | StringLiteral, StringLiteral | Type_, Type_ | Mutability, Mutability
  | Control, Control | Io, Io | Operator, Operator
  | Delimiter, Delimiter => true
  | _, _ => false
  end.

(** class PstRow *)
Record PstRow : Type := mkPstRow {
  lexeme : string;
  category : Category;
  line : nat;
  mem_location : option string
}.

(** [PstRow.__init__]: [mem_location] starts as [None]. *)
Definition PstRow_init (lexeme : string) (category : Category) (line : nat) : PstRow :=
  mkPstRow lexeme category line None.

Definition set_mem_location (r : PstRow) (m : option string) : PstRow :=
  mkPstRow (lexeme r) (category r) (line r) m.

(** Characters that cannot be written inside a string literal here. *)
Definition nl_char : ascii := ascii_of_nat 10.
Definition dq_char : ascii := ascii_of_nat 34.
Definition nl : string := String nl_char EmptyString.
Definition dq : string := String dq_char EmptyString.

(** [str(n)] for a non-negative int *)
Definition str_of_nat (n : nat) : string := NilZero.string_of_uint (Nat.to_uint n).

(** How an f-string renders a [mem_location]: the text, or [None]. *)
Definition fmt_loc (m : option string) : string :=
  match m with
  | Some s => s
  | None => "None"
  end.

(** Python's insertion-ordered dict with string keys. *)
Section Dict.
Variable V : Type.

Definition dict : Type := list (string * V).

Fixpoint dict_get (k : string) (d : dict) : option V :=
  match d with
  | [] => None
  | (k', v) :: d' => if String.eqb k k' then Some v else dict_get k d'
  end.

Definition dict_mem (k : string) (d : dict) : bool :=
  match dict_get k d with
  | Some _ => true
  | None => false
  end.

(** [d[k] = v]: an existing key keeps its place, a new one goes last. *)
Fixpoint dict_set (k : string) (v : V) (d : dict) : dict :=
  match d with
  | [] => [(k, v)]
  | (k', v') :: d' =>
      if String.eqb k k' then (k', v) :: d' else (k', v') :: dict_set k v d'
  end.
End Dict.

(* ====================================================================== *)
(** ** 1. Language definition *)
(* ====================================================================== *)

(** [LanguageSpec.KEYWORDS] *)
Definition KEYWORDS : dict Category :=
  [ ("num", Type_); ("let", Mutability); ("fix", Mutability);
    ("when", Control); ("other", Control); ("loop", Control); ("stop", Control);
    ("print", Io);
    (":", Delimiter); ("=", Operator); ("+", Operator); ("-", Operator);
    ("*", Operator); ("/", Operator); ("==", Operator); ("!=", Operator);
    (">", Operator); ("<", Operator); (">=", Operator); ("<=", Operator);
    ("{", Delimiter); ("}", Delimiter); (";", Delimiter) ].

(* ====================================================================== *)
(** ** 2. The Compiler class *)
(* ====================================================================== *)

Record Compiler : Type := mkCompiler {
  source_code : string;
  tokens : list (string * nat);
  pst : list PstRow;
  symbol_table : dict PstRow;
  string_literals : dict string;
  stack_size : nat;
  label_count : nat;
  loop_end_stack : list string
}.

(** [Compiler.__init__] *)
Definition __init__ (source_code : string) : Compiler :=
  mkCompiler source_code [] [] [] [] 0 0 [].

Definition set_tokens (v : list (string * nat)) (c : Compiler) : Compiler :=
  mkCompiler (source_code c) v (pst c) (symbol_table c) (string_literals c)
             (stack_size c) (label_count c) (loop_end_stack c).
Definition set_pst (v : list PstRow) (c : Compiler) : Compiler :=
  mkCompiler (source_code c) (tokens c) v (symbol_table c) (string_literals c)
             (stack_size c) (label_count c) (loop_end_stack c).
Definition set_symbol_table (v : dict PstRow) (c : Compiler) : Compiler :=
  mkCompiler (source_code c) (tokens c) (pst c) v (string_literals c)
             (stack_size c) (label_count c) (loop_end_stack c).
Definition set_string_literals (v : dict string) (c : Compiler) : Compiler :=
  mkCompiler (source_code c) (tokens c) (pst c) (symbol_table c) v
             (stack_size c) (label_count c) (loop_end_stack c).
Definition set_stack_size (v : nat) (c : Compiler) : Compiler :=
  mkCompiler (source_code c) (tokens c) (pst c) (symbol_table c) (string_literals c)
             v (label_count c) (loop_end_stack c).
Definition set_label_count (v : nat) (c : Compiler) : Compiler :=
  mkCompiler (source_code c) (tokens c) (pst c) (symbol_table c) (string_literals c)
             (stack_size c) v (loop_end_stack c).
Definition set_loop_end_stack (v : list string) (c : Compiler) : Compiler :=
  mkCompiler (source_code c) (tokens c) (pst c) (symbol_table c) (string_literals c)
             (stack_size c) (label_count c) v.

(** *** The method monad: state [self] plus exceptions *)

Definition M (A : Type) : Type := Compiler -> result (A * Compiler).

Definition ret {A} (a : A) : M A := fun self => Ok (a, self).

Definition bind {A B} (m : M A) (k : A -> M B) : M B :=
  fun self =>
    match m self with
    | Ok (a, self') => k a self'
    | Raise e => Raise e
    | OutOfFuel => OutOfFuel
    end.

Definition raise {A} (e : exn) : M A := fun _ => Raise e.
Definition out_of_fuel {A} : M A := fun _ => OutOfFuel.
Definition get {A} (field : Compiler -> A) : M A := fun self => Ok (field self, self).
Definition modify (f : Compiler -> Compiler) : M unit := fun self => Ok (tt, f self).

Notation "x <- m ;; k" := (bind m (fun x => k))
  (at level 100, m at next level, right associativity).
Notation "m ;;; k" := (bind m (fun _ => k))
  (at level 100, right associativity).

(** [l[i]] for a non-negative index *)
Definition getitem {A} (l : list A) (i : nat) : M A :=
  match nth_error l i with
  | Some a => ret a
  | None => raise IndexError
  end.

(** [l[a:b]] for non-negative bounds *)
Definition slice {A} (l : list A) (a b : nat) : list A := firstn (b - a) (skipn a l).

(** [_get_unique_label] *)
Definition _get_unique_label (prefix : string) : M string :=
  modify (fun self => set_label_count (label_count self + 1) self) ;;;
  n <- get label_count ;;
  ret (".L_" ^^ prefix ^^ "_" ^^ str_of_nat n).

(* ---------------------------------------------------------------------- *)
(** *** Stage 1: tokenization *)
(* ---------------------------------------------------------------------- *)

Definition in_range (lo hi : nat) (c : ascii) : bool :=
  let n := nat_of_ascii c in Nat.leb lo n && Nat.leb n hi.

(** [\d] *)
Definition re_digit (c : ascii) : bool := in_range 48 57 c.
(** [[a-zA-Z]] *)
Definition re_alpha (c : ascii) : bool := in_range 65 90 c || in_range 97 122 c.
(** [[a-zA-Z0-9_]] *)
Definition re_word (c : ascii) : bool := re_alpha c || re_digit c || Ascii.eqb c "_".
(** [\s] on code points below 256 *)
Definition re_space (c : ascii) : bool :=
  in_range 9 13 c || in_range 28 32 c
  || Nat.eqb (nat_of_ascii c) 133 || Nat.eqb (nat_of_ascii c) 160.

(** The longest prefix of [s] whose characters satisfy [p], and the rest. *)
Fixpoint span (p : ascii -> bool) (s : string) : string * string :=
  match s with
  | String c s' =>
      if p c then let (a, b) := span p s' in (String c a, b)
      else (EmptyString, s)
  | EmptyString => (EmptyString, EmptyString)
  end.

(** [p+] *)
Definition re_plus (p : ascii -> bool) (s : string) : option (string * string) :=
  match span p s with
  | (EmptyString, _) => None
  | (a, b) => Some (a, b)
  end.

Inductive Group : Type :=
| GStringLiteral | GVariable | GNumericLiteral | GKeyword | GOperator
| GDelimiter | GWhitespace | GComment | GMismatch.

(** The alternatives of [token_spec], each matched at the head of [s]:
    the matched text and what follows it. *)
Definition re_StringLiteral (s : string) : option (string * string) :=
  match s with
  | String c s' =>
      if Ascii.eqb c dq_char then
        match span (fun x => negb (Ascii.eqb x dq_char)) s' with
        | (body, String _ r) => Some (dq ^^ body ^^ dq, r)
        | (_, EmptyString) => None
        end
      else None
  | EmptyString => None
  end.

Definition re_Variable (s : string) : option (string * string) :=
  match s with
  | String c s' =>
      if Ascii.eqb c "." then
        match re_plus re_word s' with
        | Some (a, r) => Some (String c a, r)
        | None => None
        end
      else None
  | EmptyString => None
  end.

Definition re_NumericLiteral (s : string) : option (string * string) :=
  match s with
  | String c s' =>
      if Ascii.eqb c "-" then
        match re_plus re_digit s' with
        | Some (a, r) => Some (String c a, r)
        | None => None
        end
      else re_plus re_digit s
  | EmptyString => None
  end.

Definition re_Keyword (s : string) : option (string * string) := re_plus re_alpha s.

Definition one_of (chars : string) (c : ascii) : bool :=
  existsb (Ascii.eqb c) (list_ascii_of_string chars).

Definition re_Operator (s : string) : option (string * string) :=
  match s with
  | String a (String b r) =>
      if one_of "=!><" a && Ascii.eqb b "="
      then Some (String a (String b EmptyString), r)
      else if one_of "=+-*/><" a then Some (String a EmptyString, String b r)
      else None
  | String a EmptyString =>
      if one_of "=+-*/><" a then Some (String a EmptyString, EmptyString) else None
  | EmptyString => None
  end.

Definition re_Delimiter (s : string) : option (string * string) :=
  match s with
  | String a r => if one_of ":{};" a then Some (String a EmptyString, r) else None
  | EmptyString => None
  end.

Definition re_Whitespace (s : string) : option (string * string) := re_plus re_space s.

Definition re_Comment (s : string) : option (string * string) :=
  match s with
  | String a (String b r) =>
      if Ascii.eqb a "#" && Ascii.eqb b "#" then
        let (body, r') := span (fun x => negb (Ascii.eqb x nl_char)) r in
        Some (String a (String b body), r')
      else None
  | _ => None
  end.

Definition re_Mismatch (s : string) : option (string * string) :=
  match s with
  | String a r => if Ascii.eqb a nl_char then None else Some (String a EmptyString, r)
  | EmptyString => None
  end.

Definition token_spec : list (Group * (string -> option (string * string))) :=
  [ (GStringLiteral, re_StringLiteral); (GVariable, re_Variable);
    (GNumericLiteral, re_NumericLiteral); (GKeyword, re_Keyword);
    (GOperator, re_Operator); (GDelimiter, re_Delimiter);
    (GWhitespace, re_Whitespace); (GComment, re_Comment); (GMismatch, re_Mismatch) ].

(** One match of [tok_regex]: the first alternative that succeeds, as
    [(lastgroup, group(), rest of the text)]. *)
Fixpoint first_match (alts : list (Group * (string -> option (string * string))))
         (s : string) : option (Group * string * string) :=
  match alts with
  | [] => None
  | (g, re) :: alts' =>
      match re s with
      | Some (value, rest) => Some (g, value, rest)
      | None => first_match alts' s
      end
  end.

(** [value.count('\n')] *)
Fixpoint count_nl (value : string) : nat :=
  match value with
  | String c s => (if Ascii.eqb c nl_char then 1 else 0) + count_nl s
  | EmptyString => 0
  end.

(** The [for mo in re.finditer(...)] loop, returning the tokens it appends. *)
Fixpoint tokenize_loop (fuel : nat) (s : string) (line_num : nat)
  : result (list (string * nat)) :=
  match fuel with
  | 0 => OutOfFuel
  | S fuel' =>
      match first_match token_spec s with
      | None => Ok []
      | Some (kind, value, rest) =>
          match kind with
          | GWhitespace | GComment => tokenize_loop fuel' rest (line_num + count_nl value)
          | GMismatch =>
              Raise (CompilationError ("Unexpected character: '" ^^ value ^^ "'") line_num)
          | _ =>
              match tokenize_loop fuel' rest (line_num + count_nl value) with
              | Ok toks => Ok ((value, line_num) :: toks)
              | Raise e => Raise e
              | OutOfFuel => OutOfFuel
              end
          end
      end
  end.

Definition lift {A} (r : result A) : M A :=
  fun self =>
    match r with
    | Ok a => Ok (a, self)
    | Raise e => Raise e
    | OutOfFuel => OutOfFuel
    end.

Definition _tokenize : M unit :=
  src <- get source_code ;;
  toks <- lift (tokenize_loop (S (String.length src)) src 1) ;;
  modify (fun self => set_tokens (tokens self ++ toks) self).

Definition _stage1_tokenize : M unit := _tokenize.

(* ---------------------------------------------------------------------- *)
(** *** Stage 2: categorization *)
(* ---------------------------------------------------------------------- *)

(** One character of [str.isdigit()] on code points below 256: the decimal
    digits and the three superscript digits. *)
Definition isdigit_char (c : ascii) : bool :=
  re_digit c
  || Nat.eqb (nat_of_ascii c) 178 || Nat.eqb (nat_of_ascii c) 179
  || Nat.eqb (nat_of_ascii c) 185.

Fixpoint all_chars (p : ascii -> bool) (s : string) : bool :=
  match s with
  | String c s' => p c && all_chars p s'
  | EmptyString => true
  end.

(** [s.isdigit()]: non-empty and every character a digit *)
Definition isdigit (s : string) : bool :=
  match s with
  | EmptyString => false
  | _ => all_chars isdigit_char s
  end.

(** [s.startswith(c)] for a one-character [c] *)
Definition startswith (s : string) (c : ascii) : bool :=
  match s with
  | String c' _ => Ascii.eqb c' c
  | EmptyString => false
  end.

(** [s[1:]] *)
Definition tail (s : string) : string :=
  match s with
  | String _ s' => s'
  | EmptyString => EmptyString
  end.

Definition categorize_one (lexeme : string) (line : nat) : result PstRow :=
  if startswith lexeme "." then Ok (PstRow_init lexeme Variable_ line)
  else if isdigit lexeme || (startswith lexeme "-" && isdigit (tail lexeme))
       then Ok (PstRow_init lexeme NumericLiteral line)
  else if startswith lexeme dq_char then Ok (PstRow_init lexeme StringLiteral line)
  else match dict_get lexeme KEYWORDS with
       | Some category => Ok (PstRow_init lexeme category line)
       | None => Raise (CompilationError ("Unknown symbol '" ^^ lexeme ^^ "'") line)
       end.

(** The [for lexeme, line in self.tokens] loop, returning the rows it appends. *)
Fixpoint categorize_loop (toks : list (string * nat)) : result (list PstRow) :=
  match toks with
  | [] => Ok []
  | (lexeme, line) :: toks' =>
      match categorize_one lexeme line with
      | Ok row =>
          match categorize_loop toks' with
          | Ok rows => Ok (row :: rows)
          | Raise e => Raise e
          | OutOfFuel => OutOfFuel
          end
      | Raise e => Raise e
      | OutOfFuel => OutOfFuel
      end
  end.

Definition _stage2_categorize : M unit :=
  toks <- get tokens ;;
  rows <- lift (categorize_loop toks) ;;
  modify (fun self => set_pst (pst self ++ rows) self).

(* ---------------------------------------------------------------------- *)
(** *** Stage 3: analysis *)
(* ---------------------------------------------------------------------- *)

(** The [while i < len(self.pst)] loop.  [rows] is [self.pst[i:]]; the
    result is the same rows after the in-place updates of [mem_location].
    A declaration consumes five rows ([i += 4] and then [i += 1]). *)
Fixpoint analyze_loop (rows : list PstRow) : M (list PstRow) :=
  match rows with
  | [] => ret []
  | row :: rest =>
      match category row with
      | Mutability =>
          match rest with
          | var :: colon :: type_kw :: semi :: rest' =>
              if negb (Category_eqb (category var) Variable_
                       && String.eqb (lexeme colon) ":"
                       && Category_eqb (category type_kw) Type_
                       && String.eqb (lexeme semi) ";")
              then raise (CompilationError "Invalid variable declaration." (line row))
              else
                table <- get symbol_table ;;
                if dict_mem (lexeme var) table
                then raise (CompilationError
                              ("Variable '" ^^ lexeme var ^^ "' already declared.") (line var))
                else
                  modify (fun self => set_stack_size (stack_size self + 8) self) ;;;
                  size <- get stack_size ;;
                  let var' := set_mem_location var
                                (Some ("-" ^^ str_of_nat size ^^ "(%rbp)")) in
                  modify (fun self =>
                            set_symbol_table (dict_set (lexeme var) var' (symbol_table self)) self) ;;;
                  rest'' <- analyze_loop rest' ;;
                  ret (row :: var' :: colon :: type_kw :: semi :: rest'')
          | _ => raise (CompilationError "Incomplete variable declaration." (line row))
          end
      | StringLiteral =>
          literals <- get string_literals ;;
          (if negb (dict_mem (lexeme row) literals)
           then label <- _get_unique_label "STR" ;;
                modify (fun self =>
                          set_string_literals
                            (dict_set (lexeme row) label (string_literals self)) self)
           else ret tt) ;;;
          rest' <- analyze_loop rest ;;
          ret (row :: rest')
      | Variable_ =>
          table <- get symbol_table ;;
          match dict_get (lexeme row) table with
          | None => raise (CompilationError
                             ("Use of undeclared variable '" ^^ lexeme row ^^ "'") (line row))
          | Some decl =>
              rest' <- analyze_loop rest ;;
              ret (set_mem_location row (mem_location decl) :: rest')
          end
      | _ =>
          rest' <- analyze_loop rest ;;
          ret (row :: rest')
      end
  end.

(** [if self.stack_size % 16 != 0: self.stack_size += 16 - (self.stack_size % 16)] *)
Definition align16 (size : nat) : nat :=
  if negb (Nat.eqb (size mod 16) 0) then size + (16 - size mod 16) else size.

Definition _stage3_analyze : M unit :=
  rows <- get pst ;;
  rows' <- analyze_loop rows ;;
  modify (set_pst rows') ;;;
  modify (fun self => set_stack_size (align16 (stack_size self)) self).

(* ---------------------------------------------------------------------- *)
(** *** Stage 4: code generation *)
(* ---------------------------------------------------------------------- *)

(** [i < len(block) and p(block[i])] *)
Definition test_at (block_pst : list PstRow) (i : nat) (p : PstRow -> bool) : bool :=
  Nat.ltb i (length block_pst)
  && match nth_error block_pst i with
     | Some r => p r
     | None => false
     end.

(** The brace-matching loop
    [while brace_count > 0: ... i += 1], run on [rest = block_pst[i:]];
    [None] when [i >= len(block_pst)] is reached with the count still
    positive. *)
Fixpoint scan_block (rest : list PstRow) (i brace_count : nat) {struct rest} : option nat :=
  match brace_count with
  | 0 => Some i
  | S _ =>
      match rest with
      | [] => None
      | r :: rest' =>
          let brace_count' :=
            if String.eqb (lexeme r) "{" then brace_count + 1
            else if String.eqb (lexeme r) "}" then brace_count - 1
            else brace_count in
          scan_block rest' (i + 1) brace_count'
      end
  end.

(** The three copies of the block-boundary loop in the source, which differ
    only in the name of the slice: the final value of [i]. *)
Definition find_block_end (block_pst : list PstRow) (block_start : nat) : M nat :=
  match scan_block (skipn block_start block_pst) block_start 1 with
  | Some i => ret i
  | None =>
      r <- getitem block_pst (block_start - 1) ;;
      raise (CompilationError "Unmatched '{' bracket." (line r))
  end.

Definition op_map : dict string :=
  [ ("+", "addq"); ("-", "subq"); ("*", "imulq") ].

Definition jump_map : dict string :=
  [ ("==", "jne"); ("!=", "je"); (">", "jle"); ("<", "jge"); (">=", "jl"); ("<=", "jg") ].

(** [d[k]] *)
Definition dict_lookup {V} (d : dict V) (k : string) : M V :=
  match dict_get k d with
  | Some v => ret v
  | None => raise (KeyError k)
  end.

(** [self.loop_end_stack.pop()] *)
Definition pop_loop_end : M unit :=
  stack <- get loop_end_stack ;;
  match stack with
  | [] => raise IndexError
  | _ => modify (set_loop_end_stack (removelast stack))
  end.

Section GenerateBody.
(** The recursive uses of [_generate_assembly_for_block]: [self_call b 0]
    is the call on a sub-block, [self_call block_pst i'] is the rest of the
    [while] loop after [continue] with the cursor at [i'].  Each returns the
    lines appended to [asm] from there on. *)
Variable self_call : list PstRow -> nat -> M (list string).
Variable block_pst : list PstRow.
Variable i : nat.

(** source lines 173-203 *)
Definition gen_assignment (row : PstRow) : M (list string) :=
  val <- getitem block_pst (i + 2) ;;
  let head := nl ^^ "    # Katappa: " ^^ lexeme row ^^ " = ..." in
  if Category_eqb (category val) NumericLiteral then
    rest <- self_call block_pst (i + 3) ;;
    ret (head
           :: ("    movq    $" ^^ lexeme val ^^ ", " ^^ fmt_loc (mem_location row))
           :: rest)
  else if Category_eqb (category val) Variable_
          && test_at block_pst (i + 3) (fun r => Category_eqb (category r) Operator)
  then
    op <- getitem block_pst (i + 3) ;;
    operand2 <- getitem block_pst (i + 4) ;;
    let load1 := "    movq    " ^^ fmt_loc (mem_location val) ^^ ", %rax" in
    load2 <- (if Category_eqb (category operand2) Variable_ then
                ret (["    movq    " ^^ fmt_loc (mem_location operand2) ^^ ", %rbx"],
                     "%rbx")
              else if Category_eqb (category operand2) NumericLiteral then
                ret ([], "$" ^^ lexeme operand2)
              else raise (CompilationError
                            "Invalid right-hand side in arithmetic expression." (line op))) ;;
    let reg_or_imm := snd load2 in
    let arith :=
      match dict_get (lexeme op) op_map with
      | Some mnemonic => ["    " ^^ mnemonic ^^ "   " ^^ reg_or_imm ^^ ", %rax"]
      | None =>
          if String.eqb (lexeme op) "/" then
            (if Category_eqb (category operand2) NumericLiteral
             then ["    movq $" ^^ lexeme operand2 ^^ ", %rbx"] else [])
            ++ ["    cqto"; "    idivq   %rbx"]
          else []
      end in
    rest <- self_call block_pst (i + 5) ;;
    ret (head :: load1 :: fst load2 ++ arith
           ++ ["    movq    %rax, " ^^ fmt_loc (mem_location row)] ++ rest)
  else raise (CompilationError "Invalid assignment expression." (line row)).

(** source lines 206-221 *)
Definition gen_print : M (list string) :=
  val <- getitem block_pst (i + 1) ;;
  let head := nl ^^ "    # Katappa: print " ^^ lexeme val ^^ ";" in
  args <- (if Category_eqb (category val) Variable_ then
             ret ["    leaq    .LC_NUM_FMT(%rip), %rcx";
                  "    movq    " ^^ fmt_loc (mem_location val) ^^ ", %rdx"]
           else if Category_eqb (category val) StringLiteral then
             literals <- get string_literals ;;
             label <- dict_lookup literals (lexeme val) ;;
             ret ["    leaq    " ^^ label ^^ "(%rip), %rcx"]
           else ret []) ;;
  rest <- self_call block_pst (i + 2) ;;
  ret (head :: args
         ++ ["    subq    $32, %rsp"; "    movq    $0, %rax";
             "    call    printf"; "    addq    $32, %rsp"]
         ++ rest).

(** source lines 224-238: the two labels, the comparison and the branch;
    returns the four lines with [else_label] and [end_label] *)
Definition gen_when_head : M (list string * string * string) :=
  else_label <- _get_unique_label "ELSE" ;;
  end_label <- _get_unique_label "END_WHEN" ;;
  var1 <- getitem block_pst (i + 1) ;;
  op <- getitem block_pst (i + 2) ;;
  operand2 <- getitem block_pst (i + 3) ;;
  let head := nl ^^ "    # Katappa: when " ^^ lexeme var1 ^^ " " ^^ lexeme op ^^ " "
                 ^^ lexeme operand2 ^^ " {...}" in
  let load := "    movq    " ^^ fmt_loc (mem_location var1) ^^ ", %rax" in
  cmp <- (if Category_eqb (category operand2) Variable_ then
            ret ("    cmpq    " ^^ fmt_loc (mem_location operand2) ^^ ", %rax")
          else if Category_eqb (category operand2) NumericLiteral then
            ret ("    cmpq    $" ^^ lexeme operand2 ^^ ", %rax")
          else raise (CompilationError
                        "Invalid right-hand side in when condition." (line op))) ;;
  jump <- dict_lookup jump_map (lexeme op) ;;
  ret ([head; load; cmp; "    " ^^ jump ^^ " " ^^ else_label], else_label, end_label).

(** source lines 240-268: the [when] block, the optional [other] block *)
Definition gen_when_blocks (else_label end_label : string) : M (list string) :=
  let block_start := i + 5 in
  i1 <- find_block_end block_pst block_start ;;
  let when_block := slice block_pst block_start (i1 - 1) in
  body <- self_call when_block 0 ;;
  let middle := ["    jmp " ^^ end_label; else_label ^^ ":"] in
  if test_at block_pst i1 (fun r => String.eqb (lexeme r) "other") then
    let block_start := i1 + 2 in
    i2 <- find_block_end block_pst block_start ;;
    let other_block := slice block_pst block_start (i2 - 1) in
    other <- self_call other_block 0 ;;
    rest <- self_call block_pst i2 ;;
    ret (body ++ middle ++ other ++ [end_label ^^ ":"] ++ rest)
  else
    rest <- self_call block_pst i1 ;;
    ret (body ++ middle ++ [end_label ^^ ":"] ++ rest).

Definition gen_when : M (list string) :=
  h <- gen_when_head ;;
  let '(lines, else_label, end_label) := h in
  tl <- gen_when_blocks else_label end_label ;;
  ret (lines ++ tl).

(** source lines 271-289 *)
Definition gen_loop : M (list string) :=
  start_label <- _get_unique_label "LOOP_START" ;;
  end_label <- _get_unique_label "LOOP_END" ;;
  modify (fun self => set_loop_end_stack (loop_end_stack self ++ [end_label]) self) ;;;
  let block_start := i + 2 in
  i1 <- find_block_end block_pst block_start ;;
  let loop_block := slice block_pst block_start (i1 - 1) in
  body <- self_call loop_block 0 ;;
  pop_loop_end ;;;
  rest <- self_call block_pst i1 ;;
  ret ([nl ^^ start_label ^^ ":"] ++ body
         ++ ["    jmp " ^^ start_label; end_label ^^ ":"] ++ rest).

(** source lines 292-295 *)
Definition gen_stop (row : PstRow) : M (list string) :=
  stack <- get loop_end_stack ;;
  match stack with
  | [] => raise (CompilationError "'stop' can only be used inside a loop." (line row))
  | _ =>
      rest <- self_call block_pst (i + 2) ;;
      ret (("    jmp " ^^ last stack EmptyString) :: rest)
  end.

(** One turn of [while i < len(block_pst)], from the loop test to the
    [continue] (or the final [return asm]). *)
Definition generate_body : M (list string) :=
  if negb (Nat.ltb i (length block_pst)) then ret []
  else
    row <- getitem block_pst i ;;
    if Category_eqb (category row) Mutability then self_call block_pst (i + 5)
    else if Category_eqb (category row) Variable_
            && test_at block_pst (i + 1) (fun r => String.eqb (lexeme r) "=")
    then gen_assignment row
    else if String.eqb (lexeme row) "print" then gen_print
    else if String.eqb (lexeme row) "when" then gen_when
    else if String.eqb (lexeme row) "loop" then gen_loop
    else if String.eqb (lexeme row) "stop" then gen_stop row
    else self_call block_pst (i + 1).
End GenerateBody.

(** [_generate_assembly_for_block] with the cursor [i] explicit; [fuel]
    bounds the depth of recursive calls and loop turns together. *)
Fixpoint generate_from (fuel : nat) (block_pst : list PstRow) (i : nat) : M (list string) :=
  match fuel with
  | 0 => out_of_fuel
  | S fuel' => generate_body (generate_from fuel') block_pst i
  end.

(** The [while] loop of [_generate_assembly_for_block block_pst] with the
    cursor at [i]; the budget is one more than the rows left, which is
    enough ([generate_eq], [generate_total] below). *)
Definition generate (block_pst : list PstRow) (i : nat) : M (list string) :=
  generate_from (S (length block_pst - i)) block_pst i.

Definition _generate_assembly_for_block (block_pst : list PstRow) : M (list string) :=
  generate block_pst 0.

Definition NUM_FMT : string := ".LC_NUM_FMT: .string " ^^ dq ^^ "%lld\n" ^^ dq.

Definition data_section (literals : dict string) : list string :=
  (match literals with
   | [] => []
   | _ => ".section .rodata"
            :: map (fun item => snd item ^^ ": .string " ^^ fst item) literals
   end) ++ [NUM_FMT].

Definition main_prologue (stack_size : nat) : list string :=
  [ ".section .text"; ".globl main"; nl ^^ "main:"; "    pushq   %rbp";
    "    movq    %rsp, %rbp";
    if Nat.ltb 0 stack_size
    then "    subq    $" ^^ str_of_nat stack_size ^^ ", %rsp" else EmptyString ].

Definition main_epilogue : list string :=
  [ nl ^^ "    movq    $0, %rax"; "    leave"; "    ret" ].

Definition _generate_toplevel_assembly : M string :=
  literals <- get string_literals ;;
  let data_section := data_section literals in
  rows <- get pst ;;
  text_section <- _generate_assembly_for_block rows ;;
  size <- get stack_size ;;
  let full_assembly :=
    String.concat nl (data_section ++ main_prologue size ++ text_section ++ main_epilogue) in
  ret (full_assembly ^^ nl).

(** [Compiler.compile] *)
Definition compile : M string :=
  _stage1_tokenize ;;;
  _stage2_categorize ;;;
  _stage3_analyze ;;;
  _generate_toplevel_assembly.

(** [Compiler(source_code).compile()]: the returned text, or the exception. *)
Definition run_compile (source_code : string) : result string :=
  match compile (__init__ source_code) with
  | Ok (text, _) => Ok text
  | Raise e => Raise e
  | OutOfFuel => OutOfFuel
  end.

Unset Implicit Arguments.

(* ====================================================================== *)
(** ** 3. Reasoning about methods *)
(* ====================================================================== *)

Lemma Category_eqb_eq a b : Category_eqb a b = true <-> a = b.
Proof. destruct a, b; simpl; split; intro H; try reflexivity; discriminate H. Qed.

Lemma Category_eqb_refl a : Category_eqb a a = true.
Proof. destruct a; reflexivity. Qed.

(** [sat m self Q E]: run from [self], the method [m] returns a value and a
    state satisfying [Q], or raises an exception satisfying [E]. *)
Definition sat {A} (m : M A) (self : Compiler)
           (Q : A -> Compiler -> Prop) (E : exn -> Prop) : Prop :=
  match m self with
  | Ok (a, self') => Q a self'
  | Raise e => E e
  | OutOfFuel => False
  end.

Section SatRules.
Context {A B : Type}.
Variable self : Compiler.
Variable E : exn -> Prop.

Lemma sat_ret (a : A) (Q : A -> Compiler -> Prop) : Q a self -> sat (ret a) self Q E.
Proof. intro H; exact H. Qed.

Lemma sat_raise (e : exn) (Q : A -> Compiler -> Prop) : E e -> sat (raise e) self Q E.
Proof. intro H; exact H. Qed.

Lemma sat_bind (m : M A) (k : A -> M B) (Q : B -> Compiler -> Prop) :
  sat m self (fun a self' => sat (k a) self' Q E) E -> sat (bind m k) self Q E.
Proof.
  unfold sat, bind. destruct (m self) as [[a self']| e |]; auto.
Qed.

Lemma sat_get (field : Compiler -> A) (Q : A -> Compiler -> Prop) :
  Q (field self) self -> sat (get field) self Q E.
Proof. intro H; exact H. Qed.

Lemma sat_modify (f : Compiler -> Compiler) (Q : unit -> Compiler -> Prop) :
  Q tt (f self) -> sat (modify f) self Q E.
Proof. intro H; exact H. Qed.

Lemma sat_getitem (l : list A) (i : nat) (Q : A -> Compiler -> Prop) :
  (forall a, nth_error l i = Some a -> Q a self) ->
  E IndexError ->
  sat (getitem l i) self Q E.
Proof.
  intros HQ HE. unfold sat, getitem.
  destruct (nth_error l i); [apply HQ; reflexivity | exact HE].
Qed.

Lemma sat_dict_lookup (d : dict A) (k : string) (Q : A -> Compiler -> Prop) :
  (forall v, dict_get k d = Some v -> Q v self) ->
  (dict_get k d = None -> E (KeyError k)) ->
  sat (dict_lookup d k) self Q E.
Proof.
  intros HQ HE. unfold sat, dict_lookup.
  destruct (dict_get k d); [apply HQ; reflexivity | apply HE; reflexivity].
Qed.

Lemma sat_weaken (m : M A) (Q Q' : A -> Compiler -> Prop) (E' : exn -> Prop) :
  sat m self Q' E' ->
  (forall a self', Q' a self' -> Q a self') ->
  (forall e, E' e -> E e) ->
  sat m self Q E.
Proof.
  unfold sat. destruct (m self) as [[a self']| e |]; auto.
Qed.
End SatRules.

Lemma sat_get_unique_label self prefix (Q : string -> Compiler -> Prop) E :
  Q (".L_" ^^ prefix ^^ "_" ^^ str_of_nat (label_count self + 1))
    (set_label_count (label_count self + 1) self) ->
  sat (_get_unique_label prefix) self Q E.
Proof. intro H; exact H. Qed.

(** Two runs agree when their first parts agree and their continuations
    agree on what the first part returns. *)
Lemma bind_ext {A B} (m1 m2 : M A) (k1 k2 : A -> M B) self :
  m1 self = m2 self ->
  (forall a self', m2 self = Ok (a, self') -> k1 a self' = k2 a self') ->
  bind m1 k1 self = bind m2 k2 self.
Proof.
  intros Hm Hk. unfold bind. rewrite Hm.
  destruct (m2 self) as [[a self']| e |]; auto.
Qed.


(* ---------------------------------------------------------------------- *)
(** *** Block boundaries and slices *)
(* ---------------------------------------------------------------------- *)

Lemma scan_block_0 rest i : scan_block rest i 0 = Some i.
Proof. destruct rest; reflexivity. Qed.

Lemma scan_block_bounds rest : forall i brace_count j,
  scan_block rest i brace_count = Some j ->
  0 < brace_count ->
  i < j /\ j <= i + length rest.
Proof.
  induction rest as [|r rest IH]; intros i bc j H Hbc.
  - destruct bc; [lia | discriminate H].
  - destruct bc as [|n]; [lia|].
    cbn [scan_block] in H.
    destruct (String.eqb (lexeme r) "{").
    + apply IH in H; [|lia]. cbn [length]. lia.
    + destruct (String.eqb (lexeme r) "}").
      * replace (S n - 1) with n in H by lia.
        destruct n as [|n].
        -- rewrite scan_block_0 in H. inversion H; subst. cbn [length]. lia.
        -- apply IH in H; [|lia]. cbn [length]. lia.
      * apply IH in H; [|lia]. cbn [length]. lia.
Qed.

Lemma scan_block_skipn_bounds block_pst block_start j :
  scan_block (skipn block_start block_pst) block_start 1 = Some j ->
  block_start < j /\ j <= length block_pst.
Proof.
  intro H. apply scan_block_bounds in H; [|lia].
  rewrite length_skipn in H. lia.
Qed.

Lemma sat_find_block_end block_pst block_start self (Q : nat -> Compiler -> Prop) E :
  (forall j, scan_block (skipn block_start block_pst) block_start 1 = Some j ->
             block_start < j <= length block_pst -> Q j self) ->
  E IndexError ->
  (forall r, nth_error block_pst (block_start - 1) = Some r ->
             E (CompilationError "Unmatched '{' bracket." (line r))) ->
  sat (find_block_end block_pst block_start) self Q E.
Proof.
  intros HQ HI HU. unfold find_block_end.
  destruct (scan_block (skipn block_start block_pst) block_start 1) as [j|] eqn:Hs.
  - apply sat_ret. apply HQ; [reflexivity|]. apply scan_block_skipn_bounds in Hs. lia.
  - apply sat_bind. apply sat_getitem; [|exact HI].
    intros r Hr. apply sat_raise. apply HU; exact Hr.
Qed.

Lemma find_block_end_Ok block_pst block_start self j self' :
  find_block_end block_pst block_start self = Ok (j, self') ->
  scan_block (skipn block_start block_pst) block_start 1 = Some j
  /\ block_start < j <= length block_pst /\ self' = self.
Proof.
  unfold find_block_end.
  destruct (scan_block (skipn block_start block_pst) block_start 1) as [j'|] eqn:Hs.
  - intro H. inversion H; subst. apply scan_block_skipn_bounds in Hs. auto.
  - unfold bind, getitem.
    destruct (nth_error block_pst (block_start - 1)); discriminate.
Qed.

Lemma length_slice {A} (l : list A) a b : length (slice l a b) <= b - a.
Proof. unfold slice. rewrite length_firstn. lia. Qed.

Lemma In_slice {A} (l : list A) a b x : In x (slice l a b) -> In x l.
Proof.
  unfold slice. intro H.
  rewrite <- (firstn_skipn a l). apply in_or_app. right.
  rewrite <- (firstn_skipn (b - a) (skipn a l)). apply in_or_app. left. exact H.
Qed.

(* ---------------------------------------------------------------------- *)
(** *** The budget of [generate_from] does not matter *)
(* ---------------------------------------------------------------------- *)

Ltac ext_step :=
  match goal with
  | |- ?x = ?x => reflexivity
  | |- bind _ _ _ = bind _ _ _ => apply bind_ext; [try reflexivity | intros ? ? ?]
  | |- (if ?c then _ else _) _ = (if ?c then _ else _) _ => destruct c eqn:?
  | |- (match ?x with _ => _ end) _ = (match ?x with _ => _ end) _ => destruct x eqn:?
  end.

Section GenerateBodyExt.
Variables self_call1 self_call2 : list PstRow -> nat -> M (list string).
Variable block_pst : list PstRow.
Variable i : nat.

(** The two continuations agree on every call with fewer rows left. *)
Hypothesis agree : forall b' i' self,
    length b' - i' < length block_pst - i ->
    self_call1 b' i' self = self_call2 b' i' self.
Hypothesis in_range : i < length block_pst.

Lemma agree_next i' self :
  i < i' -> self_call1 block_pst i' self = self_call2 block_pst i' self.
Proof. intro H. apply agree. lia. Qed.

Lemma agree_sub block_start j self :
  i < block_start -> j <= length block_pst ->
  self_call1 (slice block_pst block_start (j - 1)) 0 self
  = self_call2 (slice block_pst block_start (j - 1)) 0 self.
Proof.
  intros H1 H2. apply agree.
  pose proof (length_slice block_pst block_start (j - 1)). lia.
Qed.

Lemma gen_assignment_ext row self :
  gen_assignment self_call1 block_pst i row self
  = gen_assignment self_call2 block_pst i row self.
Proof.
  unfold gen_assignment.
  repeat first [ apply agree_next; lia | ext_step ].
Qed.

Lemma gen_print_ext self :
  gen_print self_call1 block_pst i self = gen_print self_call2 block_pst i self.
Proof.
  unfold gen_print.
  repeat first [ apply agree_next; lia | ext_step ].
Qed.

Lemma gen_stop_ext row self :
  gen_stop self_call1 block_pst i row self = gen_stop self_call2 block_pst i row self.
Proof.
  unfold gen_stop.
  repeat first [ apply agree_next; lia | ext_step ].
Qed.

Lemma gen_when_blocks_ext else_label end_label self :
  gen_when_blocks self_call1 block_pst i else_label end_label self
  = gen_when_blocks self_call2 block_pst i else_label end_label self.
Proof.
  unfold gen_when_blocks.
  apply bind_ext; [reflexivity|]. intros i1 self1 H1.
  apply find_block_end_Ok in H1. destruct H1 as (_ & Hi1 & _).
  apply bind_ext; [apply agree_sub; lia|]. intros body self2 _.
  destruct (test_at block_pst i1 _).
  - apply bind_ext; [reflexivity|]. intros i2 self3 H3.
    apply find_block_end_Ok in H3. destruct H3 as (_ & Hi2 & _).
    apply bind_ext; [apply agree_sub; lia|]. intros other self4 _.
    apply bind_ext; [apply agree_next; lia|]. reflexivity.
  - apply bind_ext; [apply agree_next; lia|]. reflexivity.
Qed.

Lemma gen_when_ext self :
  gen_when self_call1 block_pst i self = gen_when self_call2 block_pst i self.
Proof.
  unfold gen_when.
  apply bind_ext; [reflexivity|]. intros [[lines else_label] end_label] self1 _.
  apply bind_ext; [apply gen_when_blocks_ext|]. reflexivity.
Qed.

Lemma gen_loop_ext self :
  gen_loop self_call1 block_pst i self = gen_loop self_call2 block_pst i self.
Proof.
  unfold gen_loop.
  do 3 (apply bind_ext; [reflexivity|]; intros ? ? _).
  apply bind_ext; [reflexivity|]. intros i1 self1 H1.
  apply find_block_end_Ok in H1. destruct H1 as (_ & Hi1 & _).
  apply bind_ext; [apply agree_sub; lia|]. intros body self2 _.
  apply bind_ext; [reflexivity|]. intros ? ? _.
  apply bind_ext; [apply agree_next; lia|]. reflexivity.
Qed.

Lemma generate_body_ext self :
  generate_body self_call1 block_pst i self = generate_body self_call2 block_pst i self.
Proof.
  unfold generate_body.
  destruct (negb (Nat.ltb i (length block_pst))); [reflexivity|].
  apply bind_ext; [reflexivity|]. intros row self1 _.
  destruct (Category_eqb (category row) Mutability); [apply agree_next; lia|].
  destruct (_ && _); [apply gen_assignment_ext|].
  destruct (String.eqb (lexeme row) "print"); [apply gen_print_ext|].
  destruct (String.eqb (lexeme row) "when"); [apply gen_when_ext|].
  destruct (String.eqb (lexeme row) "loop"); [apply gen_loop_ext|].
  destruct (String.eqb (lexeme row) "stop"); [apply gen_stop_ext|].
  apply agree_next; lia.
Qed.
End GenerateBodyExt.

Lemma generate_body_done self_call block_pst i self :
  length block_pst <= i -> generate_body self_call block_pst i self = Ok ([], self).
Proof.
  intro H. unfold generate_body.
  destruct (Nat.ltb_spec i (length block_pst)); [lia | reflexivity].
Qed.

Lemma generate_from_irrelevant fuel1 : forall fuel2 block_pst i self,
  length block_pst - i < fuel1 -> length block_pst - i < fuel2 ->
  generate_from fuel1 block_pst i self = generate_from fuel2 block_pst i self.
Proof.
  induction fuel1 as [|fuel1 IH]; intros fuel2 b i self H1 H2; [lia|].
  destruct fuel2 as [|fuel2]; [lia|]. cbn [generate_from].
  destruct (Nat.lt_ge_cases i (length b)) as [Hi|Hi].
  - apply generate_body_ext; [|exact Hi].
    intros b' i' self' Hlt. apply IH; lia.
  - rewrite !generate_body_done by exact Hi. reflexivity.
Qed.

(** The recursion equation of [_generate_assembly_for_block]: one turn of
    the loop, with the method itself for the recursive calls. *)
Lemma generate_eq block_pst i self :
  generate block_pst i self = generate_body generate block_pst i self.
Proof.
  unfold generate at 1. cbn [generate_from].
  destruct (Nat.lt_ge_cases i (length block_pst)) as [Hi|Hi].
  - apply generate_body_ext; [|exact Hi].
    intros b' i' self' Hlt. unfold generate.
    apply generate_from_irrelevant; lia.
  - rewrite !generate_body_done by exact Hi. reflexivity.
Qed.

(** Induction over the calls of [generate]: a property that one turn of the
    loop passes on from the calls with fewer rows left holds of every call. *)
Lemma generate_ind
      (P : list PstRow -> nat -> Compiler -> result (list string * Compiler) -> Prop) :
  (forall self_call block_pst i self,
      (forall b' i' self', length b' - i' < length block_pst - i ->
                           P b' i' self' (self_call b' i' self')) ->
      i < length block_pst ->
      P block_pst i self (generate_body self_call block_pst i self)) ->
  (forall block_pst i self, length block_pst <= i -> P block_pst i self (Ok ([], self))) ->
  forall block_pst i self, P block_pst i self (generate block_pst i self).
Proof.
  intros Hstep Hdone b i.
  remember (length b - i) as n eqn:Hn.
  revert b i Hn. induction n as [n IH] using lt_wf_ind. intros b i Hn self.
  rewrite generate_eq.
  destruct (Nat.lt_ge_cases i (length b)) as [Hi|Hi].
  - apply Hstep; [|exact Hi].
    intros b' i' self' Hlt. apply (IH (length b' - i')); [lia | reflexivity].
  - rewrite generate_body_done by exact Hi. apply Hdone; exact Hi.
Qed.

(* ---------------------------------------------------------------------- *)
(** *** What generation changes and how it can fail *)
(* ---------------------------------------------------------------------- *)

(** [self'] is [self] with a label counter at least as large: every other
    field, the loop-label stack included, is the same. *)
Definition frame (self self' : Compiler) : Prop :=
  exists n, label_count self <= n /\ self' = set_label_count n self.

Lemma frame_refl self : frame self self.
Proof. exists (label_count self). split; [lia | destruct self; reflexivity]. Qed.

Lemma frame_trans s1 s2 s3 : frame s1 s2 -> frame s2 s3 -> frame s1 s3.
Proof.
  intros (n & Hn & ->) (m & Hm & ->). exists m. split; [simpl in Hm; lia | reflexivity].
Qed.

Lemma frame_label self n : label_count self <= n -> frame self (set_label_count n self).
Proof. intro H. exists n. auto. Qed.

(** The messages the generator raises [CompilationError] with. *)
Definition generator_message (msg : string) : Prop :=
  msg = "Invalid right-hand side in arithmetic expression."
  \/ msg = "Invalid assignment expression."
  \/ msg = "Invalid right-hand side in when condition."
  \/ msg = "Unmatched '{' bracket."
  \/ msg = "'stop' can only be used inside a loop.".

(** The exceptions generation of [block_pst] can end with: a
    [CompilationError] with one of the generator's messages and the line of
    a row of the block; [IndexError]; [KeyError] for the lexeme of a row that
    is not a key of [jump_map], or that is a string literal missing from
    [self.string_literals]. *)
Definition gen_exn (block_pst : list PstRow) (self : Compiler) (e : exn) : Prop :=
  match e with
  | CompilationError msg l =>
      generator_message msg /\ exists row, In row block_pst /\ l = line row
  | IndexError => True
  | KeyError k =>
      exists row, In row block_pst /\ k = lexeme row
                  /\ (dict_get k jump_map = None
                      \/ (category row = StringLiteral
                          /\ dict_get k (string_literals self) = None))
  | ValueError => False
  end.

Lemma gen_exn_incl b' b self self' e :
  (forall row, In row b' -> In row b) ->
  string_literals self = string_literals self' ->
  gen_exn b' self' e -> gen_exn b self e.
Proof.
  intros Hincl Heq H. destruct e as [msg l| |k|]; simpl in *; auto.
  - destruct H as (Hm & row & Hin & Hl). split; [exact Hm|]. exists row; auto.
  - destruct H as (row & Hin & Hl & Hk). rewrite <- Heq in Hk. exists row; auto.
Qed.

Lemma frame_literals self self' :
  frame self self' -> string_literals self = string_literals self'.
Proof. intros (n & _ & ->). reflexivity. Qed.

Ltac solve_frame :=
  first [ apply frame_refl
        | eassumption
        | eapply frame_trans; [|eassumption]; solve_frame ].

Definition gen_spec (self_call : list PstRow -> nat -> M (list string))
           (block_pst : list PstRow) (i : nat) (self : Compiler) : Prop :=
  sat (self_call block_pst i) self (fun _ self' => frame self self') (gen_exn block_pst self).

Ltac sat_step :=
  match goal with
  | |- sat (bind _ _) _ _ _ => apply sat_bind
  | |- sat (ret _) _ _ _ => apply sat_ret
  | |- sat (raise _) _ _ _ => apply sat_raise
  | |- sat (get _) _ _ _ => apply sat_get
  | |- sat (modify _) _ _ _ => apply sat_modify
  | |- sat (getitem _ _) _ _ _ => apply sat_getitem; [intros ? ? | ]
  | |- sat (dict_lookup _ _) _ _ _ => apply sat_dict_lookup; [intros ? ? | intros ?]
  | |- sat (_get_unique_label _) _ _ _ => apply sat_get_unique_label
  | |- sat (find_block_end _ _) _ _ _ =>
      apply sat_find_block_end; [intros ? ? ? | | intros ? ?]
  | |- sat (if ?c then _ else _) _ _ _ => destruct c eqn:?
  end.

Lemma sat_pop_loop_end self stack label (Q : unit -> Compiler -> Prop) E :
  loop_end_stack self = stack ++ [label] ->
  Q tt (set_loop_end_stack stack self) ->
  sat pop_loop_end self Q E.
Proof.
  intros Hs HQ. unfold pop_loop_end. apply sat_bind, sat_get.
  rewrite Hs. destruct (stack ++ [label]) eqn:Heq.
  - destruct stack; discriminate Heq.
  - rewrite <- Heq, removelast_last. apply sat_modify. exact HQ.
Qed.

Section GenerateBodySpec.
Variable self_call : list PstRow -> nat -> M (list string).
Variable block_pst : list PstRow.
Variable i : nat.
Variable self : Compiler.

Hypothesis IH : forall b' i' self',
    length b' - i' < length block_pst - i -> gen_spec self_call b' i' self'.
Hypothesis in_range : i < length block_pst.

(** continuing the loop of this block at a later cursor *)
Lemma sat_next i' self1 (Q : list string -> Compiler -> Prop) :
  i < i' -> frame self self1 ->
  (forall rest self2, frame self self2 -> Q rest self2) ->
  sat (self_call block_pst i') self1 Q (gen_exn block_pst self).
Proof.
  intros Hi Hf HQ.
  apply sat_weaken with (Q' := fun _ s => frame self1 s) (E' := gen_exn block_pst self1).
  - apply IH. lia.
  - intros a s Hs. apply HQ. eapply frame_trans; eassumption.
  - intros e. apply gen_exn_incl; [auto | apply frame_literals; exact Hf].
Qed.

(** the recursive call on a sub-block *)
Lemma sat_sub block_start j self1 (Q : list string -> Compiler -> Prop) :
  i < block_start -> j <= length block_pst ->
  (forall body self2, frame self1 self2 -> Q body self2) ->
  (forall e, gen_exn block_pst self1 e -> gen_exn block_pst self e) ->
  sat (self_call (slice block_pst block_start (j - 1)) 0) self1 Q (gen_exn block_pst self).
Proof.
  intros Hi Hj HQ HE.
  apply sat_weaken with (Q' := fun _ s => frame self1 s)
                        (E' := gen_exn (slice block_pst block_start (j - 1)) self1).
  - apply IH. pose proof (length_slice block_pst block_start (j - 1)). lia.
  - exact HQ.
  - intros e He. apply HE. revert He.
    apply gen_exn_incl; [intros row; apply In_slice | reflexivity].
Qed.

Lemma exn_at msg k row :
  nth_error block_pst k = Some row -> generator_message msg ->
  gen_exn block_pst self (CompilationError msg (line row)).
Proof.
  intros Hn Hm. split; [exact Hm|]. exists row. split; [|reflexivity].
  eapply nth_error_In; exact Hn.
Qed.

Ltac gen_leaf :=
  first [ exact I
        | apply frame_refl
        | assumption
        | eapply exn_at; [eassumption | unfold generator_message; tauto] ].

Lemma gen_assignment_spec row :
  nth_error block_pst i = Some row ->
  sat (gen_assignment self_call block_pst i row) self
      (fun _ self' => frame self self') (gen_exn block_pst self).
Proof.
  intro Hrow. unfold gen_assignment.
  repeat first [ apply sat_next; [lia | apply frame_refl | intros ? ? ?]
               | sat_step | gen_leaf ].
Qed.

Lemma gen_print_spec :
  sat (gen_print self_call block_pst i) self
      (fun _ self' => frame self self') (gen_exn block_pst self).
Proof.
  unfold gen_print.
  repeat first [ apply sat_next; [lia | apply frame_refl | intros ? ? ?]
               | sat_step | gen_leaf ].
  simpl. exists a. split; [eapply nth_error_In; eassumption|].
  split; [reflexivity|]. right. split; [apply Category_eqb_eq|]; assumption.
Qed.

Lemma gen_stop_spec row :
  nth_error block_pst i = Some row ->
  sat (gen_stop self_call block_pst i row) self
      (fun _ self' => frame self self') (gen_exn block_pst self).
Proof.
  intro Hrow. unfold gen_stop. apply sat_bind, sat_get.
  destruct (loop_end_stack self).
  - apply sat_raise. gen_leaf.
  - repeat first [ apply sat_next; [lia | apply frame_refl | intros ? ? ?]
                 | sat_step | gen_leaf ].
Qed.

Lemma gen_when_blocks_spec else_label end_label self1 :
  frame self self1 ->
  sat (gen_when_blocks self_call block_pst i else_label end_label) self1
      (fun _ self' => frame self self') (gen_exn block_pst self).
Proof.
  intro Hf. unfold gen_when_blocks.
  repeat first [ apply sat_next; [lia | solve_frame | intros ? ? ?]
               | apply sat_sub;
                 [lia | lia | intros ? ? ?
                  | intros ?; apply gen_exn_incl;
                    [auto | apply frame_literals; solve_frame]]
               | sat_step | gen_leaf | solve_frame ].
Qed.

Lemma gen_when_head_spec (Q : list string * string * string -> Compiler -> Prop) :
  (forall h self1, frame self self1 -> Q h self1) ->
  sat (gen_when_head block_pst i) self Q (gen_exn block_pst self).
Proof.
  intro HQ. unfold gen_when_head.
  repeat first [ sat_step | gen_leaf ].
  all: try (apply HQ; eexists; split; [|reflexivity]; simpl; lia).
  all: match goal with
       | |- gen_exn _ _ (KeyError (lexeme ?r)) =>
           exists r; split; [eapply nth_error_In; eassumption|];
           split; [reflexivity|]; left; assumption
       end.
Qed.

Lemma gen_when_spec :
  sat (gen_when self_call block_pst i) self
      (fun _ self' => frame self self') (gen_exn block_pst self).
Proof.
  unfold gen_when. apply sat_bind, gen_when_head_spec.
  intros [[lines else_label] end_label] self1 Hf.
  apply sat_bind.
  eapply sat_weaken; [apply gen_when_blocks_spec; exact Hf | | auto].
  intros tl self2 Hf2. apply sat_ret. exact Hf2.
Qed.

Lemma gen_loop_spec :
  sat (gen_loop self_call block_pst i) self
      (fun _ self' => frame self self') (gen_exn block_pst self).
Proof.
  unfold gen_loop.
  do 3 sat_step. do 2 sat_step. do 2 sat_step.
  set (end_label := ".L_" ^^ "LOOP_END" ^^ "_" ^^ _).
  set (self1 := set_label_count _ (set_label_count _ self)).
  assert (Hf1 : frame self self1).
  { eexists; split; [|reflexivity]. simpl; lia. }
  repeat first [ sat_step | gen_leaf ].
  apply sat_sub; [lia | lia | | ].
  - intros body self2 (n & Hn & ->).
    sat_step.
    apply sat_pop_loop_end with (stack := loop_end_stack self) (label := end_label);
      [reflexivity|].
    sat_step.
    apply sat_next; [lia | | intros; sat_step; assumption].
    exists n; split; [|reflexivity]. simpl in Hn |- *. lia.
  - intros e. apply gen_exn_incl; [auto | reflexivity].
Qed.

Lemma generate_body_spec :
  sat (generate_body self_call block_pst i) self
      (fun _ self' => frame self self') (gen_exn block_pst self).
Proof.
  unfold generate_body.
  destruct (negb (Nat.ltb i (length block_pst))); [apply sat_ret, frame_refl|].
  sat_step. sat_step; [|exact I]. rename a into row.
  destruct (Category_eqb (category row) Mutability).
  { apply sat_next; [lia | apply frame_refl | auto]. }
  destruct (_ && _); [apply gen_assignment_spec; assumption|].
  destruct (String.eqb (lexeme row) "print"); [apply gen_print_spec|].
  destruct (String.eqb (lexeme row) "when"); [apply gen_when_spec|].
  destruct (String.eqb (lexeme row) "loop"); [apply gen_loop_spec|].
  destruct (String.eqb (lexeme row) "stop"); [apply gen_stop_spec; assumption|].
  apply sat_next; [lia | apply frame_refl | auto].
Qed.
End GenerateBodySpec.

(** Generation of any block, from any cursor and state: it returns (never
    runs out of budget), changes nothing but the label counter, and raises
    only the exceptions of [gen_exn]. *)
Lemma generate_spec block_pst i self :
  sat (generate block_pst i) self (fun _ self' => frame self self') (gen_exn block_pst self).
Proof.
  unfold sat.
  apply (generate_ind
           (fun b i self r =>
              match r with
              | Ok (_, self') => frame self self'
              | Raise e => gen_exn b self e
              | OutOfFuel => False
              end)).
  - intros self_call b j s IH Hj. apply generate_body_spec; assumption.
  - intros b j s _. apply frame_refl.
Qed.

Lemma generate_total block_pst i self : generate block_pst i self <> OutOfFuel.
Proof.
  pose proof (generate_spec block_pst i self) as H. unfold sat in H.
  intro Heq. rewrite Heq in H. exact H.
Qed.

(* ---------------------------------------------------------------------- *)
(** *** Stage 1 returns, and fails only on a character no pattern takes *)
(* ---------------------------------------------------------------------- *)

Lemma span_length p s : forall a b,
  span p s = (a, b) -> String.length s = String.length a + String.length b.
Proof.
  induction s as [|c s IH]; intros a b H; cbn [span] in H.
  - inversion H; reflexivity.
  - destruct (p c).
    + destruct (span p s) as [a' b'] eqn:Hs. inversion H; subst.
      cbn [String.length]. rewrite (IH a' b eq_refl). reflexivity.
    + inversion H; subst. reflexivity.
Qed.

Lemma re_plus_shorter p s a b :
  re_plus p s = Some (a, b) -> String.length b < String.length s.
Proof.
  unfold re_plus. destruct (span p s) as [a' b'] eqn:Hs.
  apply span_length in Hs. destruct a'; [discriminate|].
  intro H; inversion H; subst. cbn [String.length] in Hs. lia.
Qed.

Lemma token_spec_shorter g re s value rest :
  In (g, re) token_spec -> re s = Some (value, rest) ->
  String.length rest < String.length s.
Proof.
  unfold token_spec. cbn [In].
  intros [H|[H|[H|[H|[H|[H|[H|[H|[H|[]]]]]]]]]]; inversion H; subst; clear H.
  - unfold re_StringLiteral. destruct s as [|c s]; [discriminate|].
    destruct (Ascii.eqb c dq_char); [|discriminate].
    destruct (span _ s) as [body r] eqn:Hs. apply span_length in Hs.
    destruct r; [discriminate|]. intro H; inversion H; subst.
    cbn [String.length] in *. lia.
  - unfold re_Variable. destruct s as [|c s]; [discriminate|].
    destruct (Ascii.eqb c "."); [|discriminate].
    destruct (re_plus re_word s) as [[a r]|] eqn:Hs; [|discriminate].
    apply re_plus_shorter in Hs. intro H; inversion H; subst.
    cbn [String.length]. lia.
  - unfold re_NumericLiteral. destruct s as [|c s]; [discriminate|].
    destruct (Ascii.eqb c "-").
    + destruct (re_plus re_digit s) as [[a r]|] eqn:Hs; [|discriminate].
      apply re_plus_shorter in Hs. intro H; inversion H; subst.
      cbn [String.length]. lia.
    + apply re_plus_shorter.
  - apply re_plus_shorter.
  - unfold re_Operator. destruct s as [|a [|b r]]; [discriminate| |].
    + destruct (one_of _ a); [|discriminate].
      intro H; inversion H; subst. cbn [String.length]. lia.
    + destruct (one_of _ a && Ascii.eqb b "=").
      * intro H; inversion H; subst. cbn [String.length]. lia.
      * destruct (one_of _ a); [|discriminate].
        intro H; inversion H; subst. cbn [String.length]. lia.
  - unfold re_Delimiter. destruct s as [|a r]; [discriminate|].
    destruct (one_of _ a); [|discriminate].
    intro H; inversion H; subst. cbn [String.length]. lia.
  - apply re_plus_shorter.
  - unfold re_Comment. destruct s as [|a [|b r]]; [discriminate|discriminate|].
    destruct (Ascii.eqb a "#" && Ascii.eqb b "#"); [|discriminate].
    destruct (span _ r) as [body r'] eqn:Hs. apply span_length in Hs.
    intro H; inversion H; subst. cbn [String.length]. lia.
  - unfold re_Mismatch. destruct s as [|a r]; [discriminate|].
    destruct (Ascii.eqb a nl_char); [discriminate|].
    intro H; inversion H; subst. cbn [String.length]. lia.
Qed.

Lemma first_match_shorter alts s g value rest :
  (forall g re, In (g, re) alts -> In (g, re) token_spec) ->
  first_match alts s = Some (g, value, rest) ->
  String.length rest < String.length s.
Proof.
  induction alts as [|[g' re] alts IH]; intros Hin H; cbn [first_match] in H.
  - discriminate.
  - destruct (re s) as [[v r]|] eqn:Hre.
    + inversion H; subst.
      eapply token_spec_shorter; [apply Hin; left; reflexivity | exact Hre].
    + apply IH; [|exact H]. intros g0 re0 H0. apply Hin. right. exact H0.
Qed.

(** The exception of stage 1 *)
Definition lex_exn (from : nat) (e : exn) : Prop :=
  exists c l, e = CompilationError ("Unexpected character: '" ^^ c ^^ "'") l /\ from <= l.

Definition tokenize_post (line_num : nat) (r : result (list (string * nat))) : Prop :=
  match r with
  | Ok toks => Forall (fun t => line_num <= snd t) toks
  | Raise e => lex_exn line_num e
  | OutOfFuel => False
  end.

Lemma tokenize_post_mono l l' r : l <= l' -> tokenize_post l' r -> tokenize_post l r.
Proof.
  intros Hl. destruct r as [toks|e|]; simpl; auto.
  - apply Forall_impl. intros t Ht. lia.
  - intros (c & k & He & Hk). exists c, k. split; [exact He | lia].
Qed.

Lemma tokenize_loop_spec fuel : forall s line_num,
  String.length s < fuel -> tokenize_post line_num (tokenize_loop fuel s line_num).
Proof.
  induction fuel as [|fuel IH]; intros s l Hlen; [lia|].
  cbn [tokenize_loop].
  destruct (first_match token_spec s) as [[[g value] rest]|] eqn:Hm.
  - apply first_match_shorter in Hm; [|auto].
    assert (Hrec : tokenize_post l (tokenize_loop fuel rest (l + count_nl value))).
    { apply tokenize_post_mono with (l' := l + count_nl value); [lia|]. apply IH. lia. }
    assert (Htok : tokenize_post l
                     match tokenize_loop fuel rest (l + count_nl value) with
                     | Ok toks => Ok ((value, l) :: toks)
                     | Raise e => Raise e
                     | OutOfFuel => OutOfFuel
                     end).
    { destruct (tokenize_loop fuel rest (l + count_nl value)); simpl in *; auto. }
    destruct g; try exact Htok; try exact Hrec.
    simpl. exists value, l. auto.
  - simpl. constructor.
Qed.

(* ---------------------------------------------------------------------- *)
(** *** Stage 2 *)
(* ---------------------------------------------------------------------- *)

(** A row as stage 2 makes it from its own lexeme and line. *)
Definition categorized (row : PstRow) : Prop :=
  categorize_one (lexeme row) (line row) = Ok row.

Definition categorize_exn (toks : list (string * nat)) (e : exn) : Prop :=
  exists lx ln, In (lx, ln) toks
                /\ e = CompilationError ("Unknown symbol '" ^^ lx ^^ "'") ln.

Lemma categorize_one_spec lx ln :
  match categorize_one lx ln with
  | Ok row => lexeme row = lx /\ line row = ln /\ categorized row
  | Raise e => e = CompilationError ("Unknown symbol '" ^^ lx ^^ "'") ln
  | OutOfFuel => False
  end.
Proof.
  unfold categorized.
  destruct (categorize_one lx ln) as [row|e|] eqn:H.
  - assert (Hrow : lexeme row = lx /\ line row = ln).
    { revert H. unfold categorize_one.
      repeat match goal with
             | |- context [if ?c then _ else _] => destruct c
             | |- context [match dict_get ?k ?d with _ => _ end] => destruct (dict_get k d)
             end;
        intro H; inversion H; subst; auto. }
    destruct Hrow as [-> ->]. auto.
  - revert H. unfold categorize_one.
    repeat match goal with
           | |- context [if ?c then _ else _] => destruct c
           | |- context [match dict_get ?k ?d with _ => _ end] => destruct (dict_get k d)
           end;
      intro H; inversion H; subst; auto.
  - revert H. unfold categorize_one.
    repeat match goal with
           | |- context [if ?c then _ else _] => destruct c
           | |- context [match dict_get ?k ?d with _ => _ end] => destruct (dict_get k d)
           end;
      intro H; inversion H.
Qed.

Definition categorize_post (toks : list (string * nat)) (r : result (list PstRow)) : Prop :=
  match r with
  | Ok rows => Forall categorized rows /\ map line rows = map snd toks
  | Raise e => categorize_exn toks e
  | OutOfFuel => False
  end.

Lemma categorize_loop_spec toks : categorize_post toks (categorize_loop toks).
Proof.
  induction toks as [|[lx ln] toks IH]; cbn [categorize_loop].
  - simpl. auto.
  - pose proof (categorize_one_spec lx ln) as H1.
    destruct (categorize_one lx ln) as [row|e|]; [| |contradiction].
    + destruct H1 as (Hlx & Hln & Hc).
      destruct (categorize_loop toks) as [rows|e|]; [| |contradiction].
      * destruct IH as [IH1 IH2]. simpl. split; [constructor; assumption|].
        rewrite Hln, IH2. reflexivity.
      * destruct IH as (lx' & ln' & Hin & He). exists lx', ln'. split; [right|]; assumption.
    + exists lx, ln. split; [left; reflexivity | exact H1].
Qed.

(* ---------------------------------------------------------------------- *)
(** *** Stage 3 *)
(* ---------------------------------------------------------------------- *)

Lemma dict_set_absent {V} k (v : V) d :
  dict_get k d = None -> dict_set k v d = d ++ [(k, v)].
Proof.
  induction d as [|[k' v'] d IH]; cbn [dict_get dict_set app]; [reflexivity|].
  destruct (String.eqb k k'); [discriminate|].
  intro H. rewrite IH by exact H. reflexivity.
Qed.

Lemma dict_mem_false {V} k (d : dict V) : dict_mem k d = false -> dict_get k d = None.
Proof. unfold dict_mem. destruct (dict_get k d); [discriminate | reflexivity]. Qed.

Lemma dict_get_In {V} k (d : dict V) v : dict_get k d = Some v -> In k (map fst d).
Proof.
  induction d as [|[k' v'] d IH]; cbn [dict_get map fst In]; [discriminate|].
  destruct (String.eqb_spec k k'); [subst; auto|]. intro H. right. auto.
Qed.

Lemma dict_get_None {V} k (d : dict V) : dict_get k d = None <-> ~ In k (map fst d).
Proof.
  induction d as [|[k' v'] d IH]; cbn [dict_get map fst In]; [tauto|].
  destruct (String.eqb_spec k k') as [->|Hne].
  - split; [discriminate | intro H; exfalso; apply H; auto].
  - rewrite IH. split; [intros H [H1|H1]; [congruence | contradiction] | tauto].
Qed.

(** Induction over the rows the analysis loop visits: the next row, or the
    row after a declaration's five. *)
Lemma rows_ind (P : list PstRow -> Prop) :
  P [] ->
  (forall row rest,
      (forall rest', length rest' <= length rest -> P rest') -> P (row :: rest)) ->
  forall rows, P rows.
Proof.
  intros Hnil Hcons rows.
  remember (length rows) as n eqn:Hn. revert rows Hn.
  induction n as [n IH] using lt_wf_ind. intros [|row rest] Hn; [exact Hnil|].
  apply Hcons. intros rest' Hlen. cbn [length] in Hn.
  apply (IH (length rest')); [lia | reflexivity].
Qed.

(** The messages the analysis raises [CompilationError] with. *)
Definition analysis_message (msg : string) : Prop :=
  msg = "Invalid variable declaration."
  \/ msg = "Incomplete variable declaration."
  \/ (exists name, msg = "Variable '" ^^ name ^^ "' already declared.")
  \/ (exists name, msg = "Use of undeclared variable '" ^^ name ^^ "'").

Definition analysis_exn (rows : list PstRow) (e : exn) : Prop :=
  exists msg row, e = CompilationError msg (line row) /\ In row rows /\ analysis_message msg.

(** The analysis changes a row in its [mem_location] only. *)
Definition same_token (r r' : PstRow) : Prop :=
  lexeme r' = lexeme r /\ category r' = category r /\ line r' = line r.

Lemma same_token_refl r : same_token r r.
Proof. repeat split. Qed.

Definition analyze_post (rows : list PstRow) (self : Compiler)
           (rows' : list PstRow) (self' : Compiler) : Prop :=
  Forall2 same_token rows rows'
  /\ loop_end_stack self' = loop_end_stack self
  /\ length (symbol_table self) <= length (symbol_table self')
  /\ stack_size self'
     = stack_size self + 8 * (length (symbol_table self') - length (symbol_table self))
  /\ ((forall row, In row rows -> category row <> Mutability) ->
      stack_size self' = stack_size self /\ symbol_table self' = symbol_table self).

Lemma analysis_exn_tail row rows' rows e :
  (forall r, In r rows' -> In r rows) -> analysis_exn rows' e -> analysis_exn (row :: rows) e.
Proof.
  intros Hin (msg & r & He & Hr & Hm). exists msg, r. split; [exact He|].
  split; [right; auto | exact Hm].
Qed.

Lemma analyze_loop_spec rows : forall self,
  sat (analyze_loop rows) self (analyze_post rows self) (analysis_exn rows).
Proof.
  induction rows as [|row rest IH] using rows_ind; intro self.
  - apply sat_ret. repeat split; auto; simpl; lia.
  - assert (Herr : forall msg, analysis_message msg ->
                               analysis_exn (row :: rest) (CompilationError msg (line row))).
    { intros msg Hm. exists msg, row. split; [reflexivity|]. split; [left; reflexivity|exact Hm]. }
    assert (Hskip : forall self1 (f : PstRow -> PstRow),
               loop_end_stack self1 = loop_end_stack self ->
               symbol_table self1 = symbol_table self ->
               stack_size self1 = stack_size self ->
               category row <> Mutability ->
               same_token row (f row) ->
               sat (rest' <- analyze_loop rest ;; ret (f row :: rest')) self1
                   (analyze_post (row :: rest) self) (analysis_exn (row :: rest))).
    { intros self1 f Hl Ht Hs Hc Hf. apply sat_bind.
      eapply sat_weaken; [apply IH; lia | | intros e; apply analysis_exn_tail; auto].
      intros rest' self2 (H1 & H2 & H3 & H4 & H5). apply sat_ret.
      rewrite Hl, Ht, Hs in *. repeat split; auto.
      - apply H5. intros r Hr. apply H. right. exact Hr.
      - apply H5. intros r Hr. apply H. right. exact Hr. }
    cbn [analyze_loop].
    destruct (category row) eqn:Hcat;
      try (apply (Hskip self (fun r => r)); auto using same_token_refl; congruence).
    + (* Variable *)
      apply sat_bind, sat_get.
      destruct (dict_get (lexeme row) (symbol_table self)) as [decl|].
      * apply (Hskip self (fun r => set_mem_location r (mem_location decl)));
          auto; try congruence. repeat split.
      * apply sat_raise, Herr. unfold analysis_message. eauto 6.
    + (* StringLiteral *)
      apply sat_bind, sat_get. apply sat_bind.
      destruct (negb (dict_mem (lexeme row) (string_literals self))).
      * apply sat_bind, sat_get_unique_label, sat_modify.
        apply (Hskip _ (fun r => r)); auto using same_token_refl; congruence.
      * apply sat_ret.
        apply (Hskip _ (fun r => r)); auto using same_token_refl; congruence.
    + (* Mutability *)
      destruct rest as [|var [|colon [|type_kw [|semi rest']]]];
        try (apply sat_raise, Herr; unfold analysis_message; tauto).
      destruct (negb _); [apply sat_raise, Herr; unfold analysis_message; tauto|].
      apply sat_bind, sat_get.
      destruct (dict_mem (lexeme var) (symbol_table self)) eqn:Hmem.
      { apply sat_raise. exists ("Variable '" ^^ lexeme var ^^ "' already declared."), var.
        split; [reflexivity|]. split; [right; left; reflexivity|].
        unfold analysis_message. eauto 6. }
      apply dict_mem_false in Hmem.
      apply sat_bind, sat_modify. apply sat_bind, sat_get.
      apply sat_bind, sat_modify. apply sat_bind.
      eapply sat_weaken; [apply IH; cbn [length]; lia | | ].
      * intros rest'' self2 (H1 & H2 & H3 & H4 & H5). apply sat_ret.
        cbn [symbol_table stack_size loop_end_stack set_symbol_table set_stack_size] in *.
        rewrite (dict_set_absent _ _ _ Hmem) in *. rewrite length_app in *.
        cbn [length] in *.
        repeat split; auto; try lia.
        -- repeat (constructor; try apply same_token_refl). exact H1.
        -- exfalso. apply (H row); [left; reflexivity | exact Hcat].
        -- exfalso. apply (H row); [left; reflexivity | exact Hcat].
      * intros e (msg & r & He & Hr & Hm). exists msg, r. split; [exact He|].
        split; [|exact Hm]. cbn [In]. tauto.
Qed.

Lemma KEYWORDS_not_literal k c :
  dict_get k KEYWORDS = Some c -> c <> StringLiteral /\ c <> Variable_ /\ c <> NumericLiteral.
Proof.
  unfold KEYWORDS. cbn [dict_get].
  repeat match goal with
         | |- context [if ?b then _ else _] => destruct b
         end;
    intro H; inversion H; subst; repeat split; discriminate.
Qed.

Lemma categorized_StringLiteral row :
  categorized row -> category row = StringLiteral -> startswith (lexeme row) dq_char = true.
Proof.
  unfold categorized, categorize_one. intros H Hc.
  destruct (startswith (lexeme row) ".") eqn:H1.
  { inversion H as [Hr]. rewrite <- Hr in Hc. discriminate Hc. }
  destruct (isdigit (lexeme row) || _) eqn:H2.
  { inversion H as [Hr]. rewrite <- Hr in Hc. discriminate Hc. }
  destruct (startswith (lexeme row) dq_char) eqn:H3; [reflexivity|].
  destruct (dict_get (lexeme row) KEYWORDS) as [c|] eqn:H4; [|discriminate].
  apply KEYWORDS_not_literal in H4. inversion H as [Hr]. rewrite <- Hr in Hc.
  simpl in Hc. tauto.
Qed.

(** What the analysis does to [self.string_literals]: the keys afterwards
    are the keys before and the lexemes of the string-literal rows, and
    they stay distinct. *)
Definition literals_post (rows : list PstRow) (self : Compiler)
           (rows' : list PstRow) (self' : Compiler) : Prop :=
  (forall k, In k (map fst (string_literals self'))
             <-> In k (map fst (string_literals self))
                 \/ exists row, In row rows /\ category row = StringLiteral /\ lexeme row = k)
  /\ (NoDup (map fst (string_literals self)) -> NoDup (map fst (string_literals self'))).

Lemma literals_post_skip row rest self self1 rest' self' :
  category row <> StringLiteral ->
  string_literals self1 = string_literals self ->
  literals_post rest self1 rest' self' ->
  forall rows', literals_post (row :: rest) self rows' self'.
Proof.
  intros Hc Heq [H1 H2] rows'. rewrite Heq in *. split; [|exact H2].
  intro k. rewrite H1. split; intros [H|(r & Hr & Hrc & Hrl)]; auto.
  - right. exists r. split; [right|]; auto.
  - destruct Hr as [->|Hr]; [contradiction|]. right. exists r. auto.
Qed.

Lemma analyze_loop_literals rows : forall self,
  Forall categorized rows ->
  sat (analyze_loop rows) self (literals_post rows self) (fun _ => True).
Proof.
  induction rows as [|row rest IH] using rows_ind; intros self Hcat.
  - apply sat_ret. split; [|auto]. intro k. split; [auto|].
    intros [H|(r & [] & _)]. exact H.
  - inversion Hcat as [|? ? Hrow Hrest]; subst.
    assert (Hskip : forall self1 (f : PstRow -> PstRow),
               string_literals self1 = string_literals self ->
               category row <> StringLiteral ->
               sat (rest' <- analyze_loop rest ;; ret (f row :: rest')) self1
                   (literals_post (row :: rest) self) (fun _ => True)).
    { intros self1 f Hl Hc. apply sat_bind.
      eapply sat_weaken; [apply IH; [lia | exact Hrest] | | auto].
      intros rest' self2 Hp. apply sat_ret.
      eapply literals_post_skip; eassumption. }
    cbn [analyze_loop].
    destruct (category row) eqn:Hc;
      try (apply (Hskip self (fun r => r)); [reflexivity | discriminate]).
    + apply sat_bind, sat_get.
      destruct (dict_get (lexeme row) (symbol_table self)) as [decl|];
        [|apply sat_raise; exact I].
      apply (Hskip self (fun r => set_mem_location r (mem_location decl)));
        [reflexivity | discriminate].
    + (* StringLiteral *)
      apply sat_bind, sat_get. apply sat_bind.
      destruct (dict_mem (lexeme row) (string_literals self)) eqn:Hmem; cbn [negb].
      * apply sat_ret. apply sat_bind.
        eapply sat_weaken; [apply IH; [lia | exact Hrest] | | auto].
        intros rest' self2 [H1 H2]. apply sat_ret. split; [|exact H2].
        intro k. rewrite H1. split; intros [H|(r & Hr & Hrc & Hrl)]; auto.
        -- right. exists r. split; [right|]; auto.
        -- destruct Hr as [->|Hr]; [|right; exists r; auto].
           left. subst k. unfold dict_mem in Hmem.
           destruct (dict_get (lexeme r) (string_literals self)) eqn:Hg; [|discriminate].
           eapply dict_get_In; exact Hg.
      * apply dict_mem_false in Hmem.
        apply sat_bind, sat_get_unique_label, sat_modify. apply sat_bind.
        eapply sat_weaken; [apply IH; [lia | exact Hrest] | | auto].
        intros rest' self2 [H1 H2]. apply sat_ret.
        cbn [string_literals set_string_literals set_label_count] in H1, H2.
        rewrite (dict_set_absent _ _ _ Hmem) in H1, H2.
        rewrite map_app in H1, H2. cbn [map fst] in H1, H2.
        split.
        -- intro k. rewrite H1, in_app_iff. cbn [In].
           split.
           ++ intros [[H|[H|[]]]|(r & Hr & Hrc & Hrl)]; auto.
              ** right. exists row. split; [left; reflexivity|]. auto.
              ** right. exists r. split; [right|]; auto.
           ++ intros [H|(r & [->|Hr] & Hrc & Hrl)]; auto.
              right. exists r. auto.
        -- intro Hnd. apply H2. apply NoDup_app; [exact Hnd | repeat constructor; auto |].
           intros k Hk [<-|[]]. apply dict_get_None in Hmem. contradiction.
    + (* Mutability *)
      destruct rest as [|var [|colon [|type_kw [|semi rest']]]];
        try (apply sat_raise; exact I).
      destruct (Category_eqb (category var) Variable_
                && String.eqb (lexeme colon) ":"
                && Category_eqb (category type_kw) Type_
                && String.eqb (lexeme semi) ";") eqn:Hshape; cbn [negb];
        [|apply sat_raise; exact I].
      apply andb_prop in Hshape. destruct Hshape as [Hshape Hsemi].
      apply andb_prop in Hshape. destruct Hshape as [Hshape Htype].
      apply andb_prop in Hshape. destruct Hshape as [Hvar Hcolon].
      apply Category_eqb_eq in Hvar, Htype. apply String.eqb_eq in Hcolon, Hsemi.
      inversion Hrest as [|? ? Cvar Hr1]; subst.
      inversion Hr1 as [|? ? Ccolon Hr2]; subst.
      inversion Hr2 as [|? ? Ctype Hr3]; subst.
      inversion Hr3 as [|? ? Csemi Hr4]; subst.
      apply sat_bind, sat_get.
      destruct (dict_mem (lexeme var) (symbol_table self)); [apply sat_raise; exact I|].
      apply sat_bind, sat_modify. apply sat_bind, sat_get.
      apply sat_bind, sat_modify. apply sat_bind.
      eapply sat_weaken; [apply IH; [cbn [length]; lia | exact Hr4] | | auto].
      intros rest'' self2 [H1 H2]. apply sat_ret.
      cbn [string_literals set_symbol_table set_stack_size] in H1, H2.
      split; [|exact H2].
      intro k. rewrite H1. split; intros [H|(r & Hr & Hrc & Hrl)]; auto.
      * right. exists r. cbn [In]. tauto.
      * cbn [In] in Hr.
        destruct Hr as [<-|[<-|[<-|[<-|[<-|Hr]]]]]; try congruence.
        -- apply categorized_StringLiteral in Hrc; [|exact Ccolon].
           rewrite Hcolon in Hrc. discriminate Hrc.
        -- apply categorized_StringLiteral in Hrc; [|exact Csemi].
           rewrite Hsemi in Hrc. discriminate Hrc.
        -- right. exists r. auto.
Qed.

Lemma categorized_unresolved row : categorized row -> mem_location row = None.
Proof.
  unfold categorized, categorize_one. intro H.
  repeat match type of H with
         | context [if ?c then _ else _] => destruct c
         | context [match dict_get ?k ?d with _ => _ end] => destruct (dict_get k d)
         end;
    inversion H as [Hr]; rewrite <- Hr; reflexivity.
Qed.

(** The analysis resolves variables only: a row of another category keeps
    the [None] it was created with. *)
Definition unresolved (row : PstRow) : Prop :=
  category row <> Variable_ -> mem_location row = None.

Lemma analyze_loop_locations rows : forall self,
  Forall (fun r => mem_location r = None) rows ->
  sat (analyze_loop rows) self (fun rows' _ => Forall unresolved rows') (fun _ => True).
Proof.
  induction rows as [|row rest IH] using rows_ind; intros self Hnone.
  - apply sat_ret. constructor.
  - inversion Hnone as [|? ? Hrow Hrest]; subst.
    assert (Hskip : forall self1 row',
               unresolved row' ->
               sat (rest' <- analyze_loop rest ;; ret (row' :: rest')) self1
                   (fun rows' _ => Forall unresolved rows') (fun _ => True)).
    { intros self1 row' Hr. apply sat_bind.
      eapply sat_weaken; [apply IH; [lia | exact Hrest] | | auto].
      intros rest' self2 Hp. apply sat_ret. constructor; assumption. }
    cbn [analyze_loop].
    destruct (category row) eqn:Hc;
      try (apply Hskip; intros _; exact Hrow).
    + apply sat_bind, sat_get.
      destruct (dict_get (lexeme row) (symbol_table self)) as [decl|];
        [|apply sat_raise; exact I].
      apply Hskip. intro Hv. exfalso. apply Hv. exact Hc.
    + apply sat_bind, sat_get. apply sat_bind.
      destruct (negb (dict_mem (lexeme row) (string_literals self))).
      * apply sat_bind, sat_get_unique_label, sat_modify. apply Hskip. intros _; exact Hrow.
      * apply sat_ret. apply Hskip. intros _; exact Hrow.
    + destruct rest as [|var [|colon [|type_kw [|semi rest']]]];
        try (apply sat_raise; exact I).
      destruct (Category_eqb (category var) Variable_
                && String.eqb (lexeme colon) ":"
                && Category_eqb (category type_kw) Type_
                && String.eqb (lexeme semi) ";") eqn:Hshape; cbn [negb];
        [|apply sat_raise; exact I].
      apply andb_prop in Hshape. destruct Hshape as [Hshape _].
      apply andb_prop in Hshape. destruct Hshape as [Hshape _].
      apply andb_prop in Hshape. destruct Hshape as [Hvar _].
      apply Category_eqb_eq in Hvar.
      inversion Hrest as [|? ? Nvar Hr1]; subst.
      inversion Hr1 as [|? ? Ncolon Hr2]; subst.
      inversion Hr2 as [|? ? Ntype Hr3]; subst.
      inversion Hr3 as [|? ? Nsemi Hr4]; subst.
      apply sat_bind, sat_get.
      destruct (dict_mem (lexeme var) (symbol_table self)); [apply sat_raise; exact I|].
      apply sat_bind, sat_modify. apply sat_bind, sat_get.
      apply sat_bind, sat_modify. apply sat_bind.
      eapply sat_weaken; [apply IH; [cbn [length]; lia | exact Hr4] | | auto].
      intros rest'' self2 Hp. apply sat_ret.
      repeat constructor; try (intros _; assumption); [|exact Hp].
      intro Hv. exfalso. apply Hv. exact Hvar.
Qed.

(* ---------------------------------------------------------------------- *)
(** *** The pipeline, stage by stage *)
(* ---------------------------------------------------------------------- *)

(** The object after stages 1 and 2 of a fresh context. *)
Definition categorized_state (src : string) (toks : list (string * nat))
           (rows : list PstRow) : Compiler :=
  mkCompiler src toks rows [] [] 0 0 [].

(** The object after stage 3, given what [analyze_loop] returned. *)
Definition analyzed_state (rows' : list PstRow) (self3 : Compiler) : Compiler :=
  set_stack_size (align16 (stack_size self3)) (set_pst rows' self3).

Record compiled (src text : string) (self' : Compiler)
       (toks : list (string * nat)) (rows rows' : list PstRow)
       (self3 : Compiler) (text_section : list string) : Prop := {
  c_tokens : tokenize_loop (S (String.length src)) src 1 = Ok toks;
  c_rows : categorize_loop toks = Ok rows;
  c_analysis : analyze_loop rows (categorized_state src toks rows) = Ok (rows', self3);
  c_text : generate rows' 0 (analyzed_state rows' self3) = Ok (text_section, self');
  c_output : text = String.concat nl
                      (data_section (string_literals (analyzed_state rows' self3))
                         ++ main_prologue (stack_size self')
                         ++ text_section ++ main_epilogue) ^^ nl
}.

Definition compile_failure (src : string) (e : exn) : Prop :=
  lex_exn 1 e
  \/ (exists toks,
         tokenize_loop (S (String.length src)) src 1 = Ok toks
         /\ categorize_exn toks e)
  \/ (exists toks rows,
         tokenize_loop (S (String.length src)) src 1 = Ok toks
         /\ categorize_loop toks = Ok rows
         /\ analysis_exn rows e)
  \/ (exists toks rows rows' self3,
         tokenize_loop (S (String.length src)) src 1 = Ok toks
         /\ categorize_loop toks = Ok rows
         /\ analyze_loop rows (categorized_state src toks rows) = Ok (rows', self3)
         /\ gen_exn rows' (analyzed_state rows' self3) e).

Lemma compile_run src :
  compile (__init__ src)
  = match tokenize_loop (S (String.length src)) src 1 with
    | Ok toks =>
        match categorize_loop toks with
        | Ok rows =>
            match analyze_loop rows (categorized_state src toks rows) with
            | Ok (rows', self3) =>
                match generate rows' 0 (analyzed_state rows' self3) with
                | Ok (text_section, self') =>
                    Ok (String.concat nl
                          (data_section (string_literals (analyzed_state rows' self3))
                             ++ main_prologue (stack_size self')
                             ++ text_section ++ main_epilogue) ^^ nl, self')
                | Raise e => Raise e
                | OutOfFuel => OutOfFuel
                end
            | Raise e => Raise e
            | OutOfFuel => OutOfFuel
            end
        | Raise e => Raise e
        | OutOfFuel => OutOfFuel
        end
    | Raise e => Raise e
    | OutOfFuel => OutOfFuel
    end.
Proof.
  unfold compile, _stage1_tokenize, _tokenize, _stage2_categorize, _stage3_analyze,
    _generate_toplevel_assembly, _generate_assembly_for_block.
  unfold bind, get, lift, modify, ret.
  change (source_code (__init__ src)) with src.
  destruct (tokenize_loop (S (String.length src)) src 1) as [toks|e|]; try reflexivity.
  cbn [tokens set_tokens __init__ app].
  destruct (categorize_loop toks) as [rows|e|]; try reflexivity.
  cbn [pst set_pst set_tokens __init__ app].
  change (set_pst rows (set_tokens toks (__init__ src)))
    with (categorized_state src toks rows).
  destruct (analyze_loop rows (categorized_state src toks rows)) as [[rows' self3]|e|];
    try reflexivity.
Qed.

Lemma compile_stages src :
  match compile (__init__ src) with
  | Ok (text, self') =>
      exists toks rows rows' self3 text_section,
        compiled src text self' toks rows rows' self3 text_section
  | Raise e => compile_failure src e
  | OutOfFuel => False
  end.
Proof.
  rewrite compile_run. unfold compile_failure.
  pose proof (@tokenize_loop_spec (S (String.length src)) src 1 (Nat.lt_succ_diag_r _)) as Htok.
  unfold tokenize_post in Htok.
  destruct (tokenize_loop (S (String.length src)) src 1) as [toks|e|] eqn:E1;
    [| left; exact Htok | exact Htok].
  pose proof (categorize_loop_spec toks) as Hcat. unfold categorize_post in Hcat.
  destruct (categorize_loop toks) as [rows|e|] eqn:E2;
    [| right; left; exists toks; auto | exact Hcat].
  pose proof (analyze_loop_spec rows (categorized_state src toks rows)) as Han.
  unfold sat in Han.
  destruct (analyze_loop rows (categorized_state src toks rows)) as [[rows' self3]|e|] eqn:E3;
    [| right; right; left; exists toks, rows; auto | exact Han].
  pose proof (generate_spec rows' 0 (analyzed_state rows' self3)) as Hgen.
  unfold sat in Hgen.
  destruct (generate rows' 0 (analyzed_state rows' self3)) as [[text_section self']|e|] eqn:E4;
    [| right; right; right; exists toks, rows, rows', self3; auto | exact Hgen].
  exists toks, rows, rows', self3, text_section.
  constructor; auto.
Qed.

Lemma run_compile_Ok src text :
  run_compile src = Ok text <-> exists self', compile (__init__ src) = Ok (text, self').
Proof.
  unfold run_compile. destruct (compile (__init__ src)) as [[t s]|e|]; split.
  - intro H; inversion H; subst. exists s; reflexivity.
  - intros (s' & H); inversion H; reflexivity.
  - discriminate.
  - intros (s' & H); discriminate.
  - discriminate.
  - intros (s' & H); discriminate.
Qed.

Lemma run_compile_Raise src e :
  run_compile src = Raise e <-> compile (__init__ src) = Raise e.
Proof.
  unfold run_compile. destruct (compile (__init__ src)) as [[t s]|e'|]; split;
    intro H; inversion H; reflexivity.
Qed.

(** Compilation returns: it never exhausts the budget of the embedding. *)
Lemma run_compile_total src : run_compile src <> OutOfFuel.
Proof.
  unfold run_compile. pose proof (compile_stages src) as H.
  destruct (compile (__init__ src)) as [[t s]|e|]; [discriminate | discriminate | contradiction].
Qed.

(* ====================================================================== *)
(** ** 4. The statements of the generator, one by one *)
(* ====================================================================== *)

Lemma nth_error_lt {A} (l : list A) i a : nth_error l i = Some a -> i < length l.
Proof. intro H. apply nth_error_Some. rewrite H. discriminate. Qed.

(** Dispatch on a row of category [Control] or [Io]: neither the
    declaration test nor the assignment test holds, the lexeme decides. *)
Lemma generate_keyword block_pst i self row :
  nth_error block_pst i = Some row ->
  category row = Control \/ category row = Io ->
  generate block_pst i self
  = (if String.eqb (lexeme row) "print" then gen_print generate block_pst i
     else if String.eqb (lexeme row) "when" then gen_when generate block_pst i
     else if String.eqb (lexeme row) "loop" then gen_loop generate block_pst i
     else if String.eqb (lexeme row) "stop" then gen_stop generate block_pst i row
     else generate block_pst (i + 1)) self.
Proof.
  intros Hrow Hcat. rewrite generate_eq. unfold generate_body.
  pose proof (nth_error_lt _ _ _ Hrow) as Hlt.
  destruct (Nat.ltb_spec i (length block_pst)) as [_|]; [|lia]. cbn [negb].
  unfold bind, getitem. rewrite Hrow. cbn [ret].
  destruct Hcat as [-> | ->]; reflexivity.
Qed.

Lemma label_twice self :
  set_label_count (label_count (set_label_count (label_count self + 1) self) + 1)
                  (set_label_count (label_count self + 1) self)
  = set_label_count (label_count self + 2) self.
Proof.
  unfold set_label_count. cbn [label_count source_code tokens pst symbol_table
                               string_literals stack_size loop_end_stack].
  replace (label_count self + 1 + 1) with (label_count self + 2) by lia. reflexivity.
Qed.

(** The [loop] statement, with the pop (which cannot fail) carried out. *)
Lemma generate_loop_run block_pst i self row :
  nth_error block_pst i = Some row ->
  category row = Control ->
  lexeme row = "loop" ->
  let start_label := ".L_LOOP_START_" ^^ str_of_nat (label_count self + 1) in
  let end_label := ".L_LOOP_END_" ^^ str_of_nat (label_count self + 2) in
  let self1 := set_loop_end_stack (loop_end_stack self ++ [end_label])
                                  (set_label_count (label_count self + 2) self) in
  generate block_pst i self
  = match find_block_end block_pst (i + 2) self1 with
    | Ok (j, _) =>
        match generate (slice block_pst (i + 2) (j - 1)) 0 self1 with
        | Ok (body, self2) =>
            match generate block_pst j (set_loop_end_stack (loop_end_stack self) self2) with
            | Ok (rest, self3) =>
                Ok ([nl ^^ start_label ^^ ":"] ++ body
                      ++ ["    jmp " ^^ start_label; end_label ^^ ":"] ++ rest, self3)
            | Raise e => Raise e
            | OutOfFuel => OutOfFuel
            end
        | Raise e => Raise e
        | OutOfFuel => OutOfFuel
        end
    | Raise e => Raise e
    | OutOfFuel => OutOfFuel
    end.
Proof.
  intros Hrow Hcat Hlex start_label end_label self1.
  rewrite (generate_keyword _ _ self _ Hrow (or_introl Hcat)), Hlex. cbn [String.eqb Ascii.eqb Bool.eqb].
  unfold gen_loop.
  unfold bind at 1. unfold _get_unique_label at 1. unfold bind at 1. cbn [modify].
  unfold bind at 1. cbn [get ret].
  unfold bind at 1. unfold _get_unique_label at 1. unfold bind at 1. cbn [modify].
  unfold bind at 1. cbn [get ret].
  unfold bind at 1. cbn [modify].
  rewrite label_twice.
  cbn [label_count set_label_count loop_end_stack].
  replace (label_count self + 1 + 1) with (label_count self + 2) by lia.
  change (set_loop_end_stack _ (set_label_count (label_count self + 2) self)) with self1.
  unfold bind at 1.
  destruct (find_block_end block_pst (i + 2) self1) as [[j s]|e|] eqn:Hfind; try reflexivity.
  apply find_block_end_Ok in Hfind. destruct Hfind as (_ & _ & ->).
  unfold bind at 1.
  pose proof (generate_spec (slice block_pst (i + 2) (j - 1)) 0 self1) as Hbody.
  unfold sat in Hbody.
  destruct (generate (slice block_pst (i + 2) (j - 1)) 0 self1) as [[body self2]|e|];
    try reflexivity.
  destruct Hbody as (n & Hn & ->).
  unfold bind at 1. unfold pop_loop_end. unfold bind at 1.
  cbn [get loop_end_stack set_label_count self1 set_loop_end_stack].
  destruct (loop_end_stack self ++ [end_label]) eqn:Happ.
  { destruct (loop_end_stack self); discriminate Happ. }
  rewrite <- Happ, removelast_last. cbn [modify].
  reflexivity.
Qed.

(** How the second operand of a comparison is written: the resolved
    location of a variable, or the literal as an immediate. *)
Definition cmp_operand (operand2 : PstRow) : string :=
  if Category_eqb (category operand2) Variable_
  then fmt_loc (mem_location operand2)
  else "$" ^^ lexeme operand2.

(** The four lines a [when] statement starts with. *)
Definition when_lines (var1 op operand2 : PstRow) (jump else_label : string) : list string :=
  [ nl ^^ "    # Katappa: when " ^^ lexeme var1 ^^ " " ^^ lexeme op ^^ " "
       ^^ lexeme operand2 ^^ " {...}";
    "    movq    " ^^ fmt_loc (mem_location var1) ^^ ", %rax";
    "    cmpq    " ^^ cmp_operand operand2 ^^ ", %rax";
    "    " ^^ jump ^^ " " ^^ else_label ].

Definition else_label_of (self : Compiler) : string :=
  ".L_ELSE_" ^^ str_of_nat (label_count self + 1).
Definition end_when_label_of (self : Compiler) : string :=
  ".L_END_WHEN_" ^^ str_of_nat (label_count self + 2).

(** With three rows after [when], a second operand that is a variable or a
    numeric literal, and an operator that is a key of [jump_map], the head
    of the statement succeeds, whatever the first operand is. *)
Lemma gen_when_head_run block_pst i self var1 op operand2 jump :
  nth_error block_pst (i + 1) = Some var1 ->
  nth_error block_pst (i + 2) = Some op ->
  nth_error block_pst (i + 3) = Some operand2 ->
  category operand2 = Variable_ \/ category operand2 = NumericLiteral ->
  dict_get (lexeme op) jump_map = Some jump ->
  gen_when_head block_pst i self
  = Ok ((when_lines var1 op operand2 jump (else_label_of self),
         else_label_of self, end_when_label_of self),
        set_label_count (label_count self + 2) self).
Proof.
  intros H1 H2 H3 Hcat Hjump. unfold gen_when_head.
  unfold bind at 1. unfold _get_unique_label at 1. unfold bind at 1. cbn [modify].
  unfold bind at 1. cbn [get ret].
  unfold bind at 1. unfold _get_unique_label at 1. unfold bind at 1. cbn [modify].
  unfold bind at 1. cbn [get ret].
  rewrite label_twice.
  cbn [label_count set_label_count].
  replace (label_count self + 1 + 1) with (label_count self + 2) by lia.
  unfold bind, getitem. rewrite H1, H2, H3. cbn [ret].
  unfold dict_lookup. rewrite Hjump. cbn [ret].
  unfold when_lines, cmp_operand, else_label_of, end_when_label_of.
  destruct Hcat as [-> | ->]; reflexivity.
Qed.

Lemma generate_when_run block_pst i self row var1 op operand2 jump :
  nth_error block_pst i = Some row ->
  category row = Control ->
  lexeme row = "when" ->
  nth_error block_pst (i + 1) = Some var1 ->
  nth_error block_pst (i + 2) = Some op ->
  nth_error block_pst (i + 3) = Some operand2 ->
  category operand2 = Variable_ \/ category operand2 = NumericLiteral ->
  dict_get (lexeme op) jump_map = Some jump ->
  generate block_pst i self
  = match gen_when_blocks generate block_pst i (else_label_of self) (end_when_label_of self)
                          (set_label_count (label_count self + 2) self) with
    | Ok (tl, self') =>
        Ok (when_lines var1 op operand2 jump (else_label_of self) ++ tl, self')
    | Raise e => Raise e
    | OutOfFuel => OutOfFuel
    end.
Proof.
  intros Hrow Hcat Hlex H1 H2 H3 Hop2 Hjump.
  rewrite (generate_keyword _ _ self _ Hrow (or_introl Hcat)), Hlex.
  cbn [String.eqb Ascii.eqb Bool.eqb]. unfold gen_when.
  unfold bind at 1.
  rewrite (gen_when_head_run _ _ _ _ _ _ _ H1 H2 H3 Hop2 Hjump).
  reflexivity.
Qed.


(* ====================================================================== *)
(** ** 5. Conditionals *)
(* ====================================================================== *)

(** The six comparators of the language. *)
Inductive Comparator : Type := Equal | NotEqual | Greater | Less | GreaterEqual | LessEqual.

Definition comparator_lexeme (c : Comparator) : string :=
  match c with
  | Equal => "=="
  | NotEqual => "!="
  | Greater => ">"
  | Less => "<"
  | GreaterEqual => ">="
  | LessEqual => "<="
  end.

(** The negated branch of each comparator, as the specification lists them:
    equal/jump-if-not-equal, not-equal/jump-if-equal,
    greater/jump-if-less-or-equal, less/jump-if-greater-or-equal,
    greater-or-equal/jump-if-less, less-or-equal/jump-if-greater. *)
Definition negated_branch (c : Comparator) : string :=
  match c with
  | Equal => "jne"
  | NotEqual => "je"
  | Greater => "jle"
  | Less => "jge"
  | GreaterEqual => "jl"
  | LessEqual => "jg"
  end.

(** [a cmp b] on signed integers *)
Definition holds (c : Comparator) (a b : Z) : bool :=
  match c with
  | Equal => Z.eqb a b
  | NotEqual => negb (Z.eqb a b)
  | Greater => Z.ltb b a
  | Less => Z.ltb a b
  | GreaterEqual => Z.leb b a
  | LessEqual => Z.leb a b
  end.

(** Whether a signed conditional jump is taken after [cmpq b, %rax] with
    [a] in [%rax]. *)
Definition branch_taken (mnemonic : string) (a b : Z) : option bool :=
  if String.eqb mnemonic "je" then Some (Z.eqb a b)
  else if String.eqb mnemonic "jne" then Some (negb (Z.eqb a b))
  else if String.eqb mnemonic "jl" then Some (Z.ltb a b)
  else if String.eqb mnemonic "jle" then Some (Z.leb a b)
  else if String.eqb mnemonic "jg" then Some (Z.ltb b a)
  else if String.eqb mnemonic "jge" then Some (Z.leb b a)
  else None.

Lemma negated_branch_negates c a b :
  branch_taken (negated_branch c) a b = Some (negb (holds c a b)).
Proof.
  destruct c; cbn; apply f_equal.
  - reflexivity.
  - rewrite negb_involutive. reflexivity.
  - rewrite Z.ltb_antisym, negb_involutive. reflexivity.
  - rewrite Z.ltb_antisym, negb_involutive. reflexivity.
  - rewrite Z.leb_antisym, negb_involutive. reflexivity.
  - rewrite Z.leb_antisym, negb_involutive. reflexivity.
Qed.

Lemma jump_map_comparators k j :
  dict_get k jump_map = Some j <->
  exists c, k = comparator_lexeme c /\ j = negated_branch c.
Proof.
  split.
  - unfold jump_map. cbn [dict_get].
    repeat match goal with
           | |- context [String.eqb k ?s] => destruct (String.eqb_spec k s)
           end; intro H; inversion H; subst.
    + exists Equal; auto.
    + exists NotEqual; auto.
    + exists Greater; auto.
    + exists Less; auto.
    + exists GreaterEqual; auto.
    + exists LessEqual; auto.
  - intros (c & -> & ->). destruct c; reflexivity.
Qed.

(** C1.  A [when] statement whose first operand is a variable with its
    storage location, whose operator is one of the six comparators and
    whose second operand is a variable with its storage location or a
    numeric literal: the head of the statement returns the comment, the
    load of the first operand from its location, the comparison with the
    location or the literal of the second, and a conditional jump to
    the else-label [.L_ELSE_n], [n] the label counter plus one; the jump is
    the one the specification lists for the comparator, which is taken
    exactly when the comparison does not hold; [jump_map] has these six
    entries and no other; whenever generation of the statement succeeds its
    output starts with the four lines, and the label counter has passed the
    two labels of the statement. *)
Theorem C1_when_branches_on_negation :
  forall block_pst i self row var1 loc1 op operand2 arg2 c,
    nth_error block_pst i = Some row ->
    category row = Control ->
    lexeme row = "when" ->
    nth_error block_pst (i + 1) = Some var1 ->
    category var1 = Variable_ ->
    mem_location var1 = Some loc1 ->
    nth_error block_pst (i + 2) = Some op ->
    nth_error block_pst (i + 3) = Some operand2 ->
    (category operand2 = Variable_ /\ mem_location operand2 = Some arg2)
    \/ (category operand2 = NumericLiteral /\ arg2 = "$" ^^ lexeme operand2) ->
    lexeme op = comparator_lexeme c ->
    let lines := [ nl ^^ "    # Katappa: when " ^^ lexeme var1 ^^ " " ^^ lexeme op ^^ " "
                      ^^ lexeme operand2 ^^ " {...}";
                   "    movq    " ^^ loc1 ^^ ", %rax";
                   "    cmpq    " ^^ arg2 ^^ ", %rax";
                   "    " ^^ negated_branch c ^^ " .L_ELSE_"
                      ^^ str_of_nat (label_count self + 1) ] in
    gen_when_head block_pst i self
    = Ok ((lines, ".L_ELSE_" ^^ str_of_nat (label_count self + 1),
           ".L_END_WHEN_" ^^ str_of_nat (label_count self + 2)),
          set_label_count (label_count self + 2) self)
    /\ dict_get (lexeme op) jump_map = Some (negated_branch c)
    /\ (forall a b, branch_taken (negated_branch c) a b = Some (negb (holds c a b)))
    /\ (forall k j, dict_get k jump_map = Some j ->
                    exists c', k = comparator_lexeme c' /\ j = negated_branch c')
    /\ (forall asm self',
           generate block_pst i self = Ok (asm, self') ->
           (exists tl, asm = lines ++ tl) /\ label_count self + 2 <= label_count self').
Proof.
  intros block_pst i self row var1 loc1 op operand2 arg2 c
         Hrow Hcat Hlex H1 Hvar1 Hloc1 H2 H3 Harg Hop lines.
  assert (Hop2 : category operand2 = Variable_ \/ category operand2 = NumericLiteral)
    by (destruct Harg as [[Hc _]|[Hc _]]; auto).
  assert (Hjump : dict_get (lexeme op) jump_map = Some (negated_branch c)).
  { apply jump_map_comparators. exists c. auto. }
  assert (Hlines : when_lines var1 op operand2 (negated_branch c) (else_label_of self)
                   = lines).
  { unfold when_lines, lines, else_label_of, cmp_operand. rewrite Hloc1.
    destruct Harg as [[Hc Hm]|[Hc ->]]; rewrite Hc; cbn [Category_eqb];
      [rewrite Hm|]; reflexivity. }
  split; [|split; [exact Hjump | split; [apply negated_branch_negates | split]]].
  - rewrite (gen_when_head_run _ _ _ _ _ _ _ H1 H2 H3 Hop2 Hjump), Hlines. reflexivity.
  - intros k j. apply jump_map_comparators.
  - intros asm self'.
    rewrite (generate_when_run _ _ _ _ _ _ _ _ Hrow Hcat Hlex H1 H2 H3 Hop2 Hjump), Hlines.
    pose proof (gen_when_blocks_spec generate block_pst i
                  (set_label_count (label_count self + 2) self)
                  (fun b' i' s' _ => generate_spec b' i' s')
                  (nth_error_lt _ _ _ Hrow)
                  (else_label_of self) (end_when_label_of self)
                  (set_label_count (label_count self + 2) self) (frame_refl _)) as Hspec.
    unfold sat in Hspec.
    destruct (gen_when_blocks generate block_pst i (else_label_of self)
                (end_when_label_of self) (set_label_count (label_count self + 2) self))
      as [[tl s]|e|]; try discriminate.
    intro H. injection H as <- <-. split; [exists tl; reflexivity|].
    destruct Hspec as (n & Hn & ->).
    cbn [label_count set_label_count] in *. exact Hn.
Qed.

(** C9.  A [when] statement whose first operand has no resolved storage
    location ([mem_location] is [None]): the head of the statement raises
    nothing and its load line reads [movq None, %rax]; the line is the
    second line of the output whenever generation of the statement
    succeeds, and when generation fails the failure is that of the blocks
    after the head.  After the analysis every row that is not a variable,
    a numeric literal for one, has no resolved location. *)
Theorem C9_when_first_operand_unresolved :
  (forall block_pst i self row var1 op operand2 jump,
      nth_error block_pst i = Some row ->
      category row = Control ->
      lexeme row = "when" ->
      nth_error block_pst (i + 1) = Some var1 ->
      nth_error block_pst (i + 2) = Some op ->
      nth_error block_pst (i + 3) = Some operand2 ->
      category operand2 = Variable_ \/ category operand2 = NumericLiteral ->
      dict_get (lexeme op) jump_map = Some jump ->
      mem_location var1 = None ->
      let else_label := ".L_ELSE_" ^^ str_of_nat (label_count self + 1) in
      let end_label := ".L_END_WHEN_" ^^ str_of_nat (label_count self + 2) in
      let self1 := set_label_count (label_count self + 2) self in
      gen_when_head block_pst i self
      = Ok (([ nl ^^ "    # Katappa: when " ^^ lexeme var1 ^^ " " ^^ lexeme op ^^ " "
                  ^^ lexeme operand2 ^^ " {...}";
               "    movq    None, %rax";
               "    cmpq    " ^^ cmp_operand operand2 ^^ ", %rax";
               "    " ^^ jump ^^ " " ^^ else_label ],
             else_label, end_label), self1)
      /\ (forall asm self',
             generate block_pst i self = Ok (asm, self') ->
             nth_error asm 1 = Some "    movq    None, %rax")
      /\ (forall e,
             generate block_pst i self = Raise e ->
             gen_when_blocks generate block_pst i else_label end_label self1 = Raise e))
  /\ (forall src toks rows rows' self3 row,
         tokenize_loop (S (String.length src)) src 1 = Ok toks ->
         categorize_loop toks = Ok rows ->
         analyze_loop rows (categorized_state src toks rows) = Ok (rows', self3) ->
         In row rows' ->
         category row <> Variable_ ->
         mem_location row = None).
Proof.
  split.
  - intros block_pst i self row var1 op operand2 jump Hrow Hcat Hlex H1 H2 H3 Hop2 Hjump Hloc
           else_label end_label self1.
    split; [|split].
    + rewrite (gen_when_head_run _ _ _ _ _ _ _ H1 H2 H3 Hop2 Hjump).
      unfold when_lines. rewrite Hloc. reflexivity.
    + intros asm self'.
      rewrite (generate_when_run _ _ _ _ _ _ _ _ Hrow Hcat Hlex H1 H2 H3 Hop2 Hjump).
      destruct (gen_when_blocks generate block_pst i _ _ _) as [[tl s]|e|]; try discriminate.
      intro H. injection H as <- <-. unfold when_lines. rewrite Hloc. reflexivity.
    + intros e.
      rewrite (generate_when_run _ _ _ _ _ _ _ _ Hrow Hcat Hlex H1 H2 H3 Hop2 Hjump).
      fold else_label end_label self1.
      change (else_label_of self) with else_label.
      change (end_when_label_of self) with end_label.
      destruct (gen_when_blocks generate block_pst i else_label end_label self1)
        as [[tl s]|e'|]; try discriminate.
      intro H. exact H.
  - intros src toks rows rows' self3 row Htok Hrows Han Hin Hcat.
    pose proof (categorize_loop_spec toks) as Hc. unfold categorize_post in Hc.
    rewrite Hrows in Hc. destruct Hc as [Hc _].
    assert (Hnone : Forall (fun r => mem_location r = None) rows).
    { revert Hc. apply Forall_impl. exact categorized_unresolved. }
    pose proof (analyze_loop_locations rows (categorized_state src toks rows) Hnone) as Hl.
    unfold sat in Hl. rewrite Han in Hl.
    rewrite Forall_forall in Hl. apply (Hl row Hin Hcat).
Qed.

(* ====================================================================== *)
(** ** 6. Tokens that begin no statement *)
(* ====================================================================== *)

(** C10.  A row at the cursor that is not a mutability keyword, is not a
    variable followed by [=], and is not [print], [when], [loop] or [stop]:
    generation from it is generation from the next row; it raises nothing
    and emits nothing of its own. *)
Theorem C10_other_token_skipped :
  forall block_pst i self row,
    nth_error block_pst i = Some row ->
    category row <> Mutability ->
    ~ (category row = Variable_
       /\ exists next, nth_error block_pst (i + 1) = Some next /\ lexeme next = "=") ->
    lexeme row <> "print" ->
    lexeme row <> "when" ->
    lexeme row <> "loop" ->
    lexeme row <> "stop" ->
    generate block_pst i self = generate block_pst (i + 1) self.
Proof.
  intros block_pst i self row Hrow Hmut Hassign Hprint Hwhen Hloop Hstop.
  rewrite generate_eq at 1. unfold generate_body.
  pose proof (nth_error_lt _ _ _ Hrow) as Hlt.
  destruct (Nat.ltb_spec i (length block_pst)) as [_|]; [|lia]. cbn [negb].
  unfold bind at 1. unfold getitem. rewrite Hrow. cbn [ret].
  destruct (Category_eqb (category row) Mutability) eqn:E.
  { apply Category_eqb_eq in E. contradiction. }
  destruct (Category_eqb (category row) Variable_
            && test_at block_pst (i + 1) (fun r => String.eqb (lexeme r) "=")) eqn:E1.
  { exfalso. apply Hassign. apply andb_prop in E1. destruct E1 as [Ev Et].
    apply Category_eqb_eq in Ev. split; [exact Ev|].
    unfold test_at in Et. apply andb_prop in Et. destruct Et as [_ Et].
    destruct (nth_error block_pst (i + 1)) as [next|]; [|discriminate].
    exists next. split; [reflexivity|]. apply String.eqb_eq. exact Et. }
  destruct (String.eqb_spec (lexeme row) "print"); [contradiction|].
  destruct (String.eqb_spec (lexeme row) "when"); [contradiction|].
  destruct (String.eqb_spec (lexeme row) "loop"); [contradiction|].
  destruct (String.eqb_spec (lexeme row) "stop"); [contradiction|].
  reflexivity.
Qed.

(* ====================================================================== *)
(** ** 7. Loops, early exit and the loop-label stack *)
(* ====================================================================== *)

Lemma generate_stop_run block_pst i self row :
  nth_error block_pst i = Some row ->
  category row = Control ->
  lexeme row = "stop" ->
  generate block_pst i self = gen_stop generate block_pst i row self.
Proof.
  intros Hrow Hcat Hlex.
  rewrite (generate_keyword _ _ self _ Hrow (or_introl Hcat)), Hlex. reflexivity.
Qed.

Lemma frame_stack self self' : frame self self' -> loop_end_stack self' = loop_end_stack self.
Proof. intros (n & _ & ->). reflexivity. Qed.






(* ====================================================================== *)
(** ** 8. Assignments *)
(* ====================================================================== *)

Lemma generate_assignment_run block_pst i self row next :
  nth_error block_pst i = Some row ->
  category row = Variable_ ->
  nth_error block_pst (i + 1) = Some next ->
  lexeme next = "=" ->
  generate block_pst i self = gen_assignment generate block_pst i row self.
Proof.
  intros Hrow Hcat Hnext Hlex. rewrite generate_eq at 1. unfold generate_body.
  pose proof (nth_error_lt _ _ _ Hrow) as Hlt.
  pose proof (nth_error_lt _ _ _ Hnext) as Hlt1.
  destruct (Nat.ltb_spec i (length block_pst)) as [_|]; [|lia]. cbn [negb].
  unfold bind at 1. unfold getitem at 1. rewrite Hrow. cbn [ret].
  rewrite Hcat. cbn [Category_eqb andb].
  unfold test_at. rewrite Hnext, Hlex.
  destruct (Nat.ltb_spec (i + 1) (length block_pst)) as [_|]; [|lia].
  reflexivity.
Qed.

(** The lines of [target = val op operand2], as the source builds them. *)
Definition operand2_load (operand2 : PstRow) : list string :=
  if Category_eqb (category operand2) Variable_
  then ["    movq    " ^^ fmt_loc (mem_location operand2) ^^ ", %rbx"]
  else [].

Definition reg_or_imm (operand2 : PstRow) : string :=
  if Category_eqb (category operand2) Variable_ then "%rbx" else "$" ^^ lexeme operand2.

Definition arithmetic (op operand2 : PstRow) : list string :=
  match dict_get (lexeme op) op_map with
  | Some mnemonic => ["    " ^^ mnemonic ^^ "   " ^^ reg_or_imm operand2 ^^ ", %rax"]
  | None =>
      if String.eqb (lexeme op) "/" then
        (if Category_eqb (category operand2) NumericLiteral
         then ["    movq $" ^^ lexeme operand2 ^^ ", %rbx"] else [])
          ++ ["    cqto"; "    idivq   %rbx"]
      else []
  end.

(** C2, as the code has it.  For an assignment (a variable row followed by
    [=]) the generator looks at the rows after [=].  No row there: it
    raises [IndexError].  A numeric literal: it is stored to the target and
    generation goes on after it, whatever follows.  A variable followed by
    an operator row: with no row after the operator it raises [IndexError];
    with a variable or a numeric literal there the three rows are compiled
    as an arithmetic expression; with any other row it raises
    [CompilationError] for an invalid right-hand side with the line of the
    operator.  In every other case it raises [CompilationError] for an
    invalid assignment expression with the line of the target. *)
Theorem C2_assignment_right_hand_side :
  forall block_pst i self row next,
    nth_error block_pst i = Some row ->
    category row = Variable_ ->
    nth_error block_pst (i + 1) = Some next ->
    lexeme next = "=" ->
    let head := nl ^^ "    # Katappa: " ^^ lexeme row ^^ " = ..." in
    (nth_error block_pst (i + 2) = None -> generate block_pst i self = Raise IndexError)
    /\ (forall val,
           nth_error block_pst (i + 2) = Some val ->
           category val = NumericLiteral ->
           generate block_pst i self
           = match generate block_pst (i + 3) self with
             | Ok (rest, self') =>
                 Ok (head
                       :: ("    movq    $" ^^ lexeme val ^^ ", " ^^ fmt_loc (mem_location row))
                       :: rest, self')
             | Raise e => Raise e
             | OutOfFuel => OutOfFuel
             end)
    /\ (forall val op,
           nth_error block_pst (i + 2) = Some val ->
           category val = Variable_ ->
           nth_error block_pst (i + 3) = Some op ->
           category op = Operator ->
           (nth_error block_pst (i + 4) = None ->
            generate block_pst i self = Raise IndexError)
           /\ (forall operand2,
                  nth_error block_pst (i + 4) = Some operand2 ->
                  (category operand2 = Variable_ \/ category operand2 = NumericLiteral ->
                   generate block_pst i self
                   = match generate block_pst (i + 5) self with
                     | Ok (rest, self') =>
                         Ok (head
                               :: ("    movq    " ^^ fmt_loc (mem_location val) ^^ ", %rax")
                               :: operand2_load operand2 ++ arithmetic op operand2
                               ++ ["    movq    %rax, " ^^ fmt_loc (mem_location row)]
                               ++ rest, self')
                     | Raise e => Raise e
                     | OutOfFuel => OutOfFuel
                     end)
                  /\ (category operand2 <> Variable_ ->
                      category operand2 <> NumericLiteral ->
                      generate block_pst i self
                      = Raise (CompilationError
                                 "Invalid right-hand side in arithmetic expression."
                                 (line op)))))
    /\ (forall val,
           nth_error block_pst (i + 2) = Some val ->
           category val <> NumericLiteral ->
           (category val <> Variable_
            \/ nth_error block_pst (i + 3) = None
            \/ exists op, nth_error block_pst (i + 3) = Some op /\ category op <> Operator) ->
           generate block_pst i self
           = Raise (CompilationError "Invalid assignment expression." (line row))).
Proof.
  intros block_pst i self row next Hrow Hcat Hnext Hlex head.
  rewrite (generate_assignment_run _ _ self _ _ Hrow Hcat Hnext Hlex).
  unfold gen_assignment. fold head.
  split; [|split; [|split]].
  - intro Hval. unfold bind, getitem. rewrite Hval. reflexivity.
  - intros val Hval Hnum. unfold bind at 1. unfold getitem. rewrite Hval. cbn [ret].
    rewrite Hnum. cbn [Category_eqb]. reflexivity.
  - intros val op Hval Hvar Hop Hopc.
    assert (Htest : test_at block_pst (i + 3)
                      (fun r => Category_eqb (category r) Operator) = true).
    { unfold test_at. rewrite Hop, Hopc.
      pose proof (nth_error_lt _ _ _ Hop) as Hlt.
      destruct (Nat.ltb_spec (i + 3) (length block_pst)); [reflexivity | lia]. }
    split.
    + intro H4. unfold bind at 1. unfold getitem at 1. rewrite Hval. cbn [ret].
      rewrite Hvar, Htest. cbn [Category_eqb andb].
      unfold bind, getitem. rewrite Hop, H4. reflexivity.
    + intros operand2 H4. split.
      * intro Hop2. unfold bind at 1. unfold getitem at 1. rewrite Hval. cbn [ret].
        rewrite Hvar, Htest. cbn [Category_eqb andb].
        unfold bind at 1. unfold getitem at 1. rewrite Hop. cbn [ret].
        unfold bind at 1. unfold getitem at 1. rewrite H4. cbn [ret].
        unfold operand2_load, arithmetic, reg_or_imm.
        destruct Hop2 as [Hc | Hc]; rewrite Hc; cbn [Category_eqb];
          unfold bind; cbn [ret snd fst];
          destruct (generate block_pst (i + 5) self) as [[rest s]|e|]; reflexivity.
      * intros Hnv Hnn. unfold bind at 1. unfold getitem at 1. rewrite Hval. cbn [ret].
        rewrite Hvar, Htest. cbn [Category_eqb andb].
        unfold bind at 1. unfold getitem at 1. rewrite Hop. cbn [ret].
        unfold bind at 1. unfold getitem at 1. rewrite H4. cbn [ret].
        destruct (Category_eqb (category operand2) Variable_) eqn:E1;
          [apply Category_eqb_eq in E1; contradiction|].
        destruct (Category_eqb (category operand2) NumericLiteral) eqn:E2;
          [apply Category_eqb_eq in E2; contradiction|].
        reflexivity.
  - intros val Hval Hnn Hshape. unfold bind at 1. unfold getitem at 1. rewrite Hval. cbn [ret].
    destruct (Category_eqb (category val) NumericLiteral) eqn:E1;
      [apply Category_eqb_eq in E1; contradiction|].
    destruct (Category_eqb (category val) Variable_) eqn:E2; cbn [andb]; [|reflexivity].
    apply Category_eqb_eq in E2.
    destruct Hshape as [Hnv | [Hnone | (op & Hop & Hopc)]]; [contradiction | |].
    + unfold test_at. rewrite Hnone, andb_false_r. reflexivity.
    + unfold test_at. rewrite Hop.
      destruct (Category_eqb (category op) Operator) eqn:E3;
        [apply Category_eqb_eq in E3; contradiction|].
      rewrite andb_false_r. reflexivity.
Qed.

(* ====================================================================== *)
(** ** 9. The frame and the layout of the output *)
(* ====================================================================== *)

Lemma align16_mod size : align16 size mod 16 = 0.
Proof.
  unfold align16. destruct (Nat.eqb_spec (size mod 16) 0) as [H|H]; cbn [negb].
  - exact H.
  - pose proof (Nat.div_mod_eq size 16) as Hd.
    pose proof (Nat.mod_upper_bound size 16 ltac:(lia)) as Hb.
    replace (size + (16 - size mod 16)) with (0 + (size / 16 + 1) * 16) by lia.
    apply Nat.Div0.mod_add.
Qed.

Lemma Forall2_In_l {A B} (R : A -> B -> Prop) l l' x :
  Forall2 R l l' -> In x l -> exists y, In y l' /\ R x y.
Proof.
  induction 1 as [|a b l l' Hab Hl IH]; intros Hin; [contradiction|].
  destruct Hin as [<-|Hin].
  - exists b. split; [left; reflexivity | exact Hab].
  - destruct (IH Hin) as (y & Hy & HR). exists y. split; [right|]; assumption.
Qed.

Lemma Forall2_In_r {A B} (R : A -> B -> Prop) l l' y :
  Forall2 R l l' -> In y l' -> exists x, In x l /\ R x y.
Proof.
  induction 1 as [|a b l l' Hab Hl IH]; intros Hin; [contradiction|].
  destruct Hin as [<-|Hin].
  - exists a. split; [left; reflexivity | exact Hab].
  - destruct (IH Hin) as (x & Hx & HR). exists x. split; [right|]; assumption.
Qed.

(** The stack adjustment of the prologue reserves [size] bytes: no
    instruction for an empty frame, [subq $size, %rsp] otherwise. *)
Definition reserves (line : string) (size : nat) : Prop :=
  (size = 0 /\ line = EmptyString)
  \/ (0 < size /\ line = "    subq    $" ^^ str_of_nat size ^^ ", %rsp").

(** C5.  When compilation succeeds, the frame size the analysis computed
    is the one generation ends with; it is a multiple of 16, namely eight
    bytes per symbol-table entry rounded up to 16; it is 0 when the symbol
    table is empty, and when no row is a mutability keyword; and the
    prologue of [main] in the output reserves exactly that size. *)
Theorem C5_frame_size :
  forall src text self',
    compile (__init__ src) = Ok (text, self') ->
    exists rows' self3 data text_section reserve,
      generate rows' 0 (analyzed_state rows' self3) = Ok (text_section, self')
      /\ stack_size self' = stack_size (analyzed_state rows' self3)
      /\ stack_size self' mod 16 = 0
      /\ stack_size self' = align16 (8 * length (symbol_table self'))
      /\ (symbol_table self' = [] -> stack_size self' = 0)
      /\ ((forall row, In row (pst self') -> category row <> Mutability) ->
          stack_size self' = 0)
      /\ reserves reserve (stack_size self')
      /\ text = String.concat nl
                  (data
                     ++ [ ".section .text"; ".globl main"; nl ^^ "main:";
                          "    pushq   %rbp"; "    movq    %rsp, %rbp"; reserve ]
                     ++ text_section
                     ++ [ nl ^^ "    movq    $0, %rax"; "    leave"; "    ret" ]) ^^ nl.
Proof.
  intros src text self' Hc.
  pose proof (compile_stages src) as Hst. rewrite Hc in Hst.
  destruct Hst as (toks & rows & rows' & self3 & text_section & Hcomp).
  destruct Hcomp as [Htok Hrows Han Hgen Hout].
  pose proof (analyze_loop_spec rows (categorized_state src toks rows)) as Hspec.
  unfold sat in Hspec. rewrite Han in Hspec.
  destruct Hspec as (Hsame & _ & _ & Hsize & Hnone).
  cbn [categorized_state symbol_table stack_size length] in Hsize, Hnone.
  pose proof (generate_spec rows' 0 (analyzed_state rows' self3)) as Hframe.
  unfold sat in Hframe. rewrite Hgen in Hframe. destruct Hframe as (n & _ & Hself').
  assert (Hsz : stack_size self' = align16 (stack_size self3)) by (rewrite Hself'; reflexivity).
  assert (Htab : symbol_table self' = symbol_table self3) by (rewrite Hself'; reflexivity).
  assert (Hpst : pst self' = rows') by (rewrite Hself'; reflexivity).
  exists rows', self3, (data_section (string_literals (analyzed_state rows' self3))),
    text_section,
    (if Nat.ltb 0 (stack_size self')
     then "    subq    $" ^^ str_of_nat (stack_size self') ^^ ", %rsp" else EmptyString).
  split; [exact Hgen|]. split; [exact Hsz|].
  split; [rewrite Hsz; apply align16_mod|].
  split; [rewrite Hsz, Htab, Hsize; f_equal; lia|].
  split; [|split; [|split]].
  - intro Hempty. rewrite Hsz, Hsize, <- Htab, Hempty. reflexivity.
  - intro Hno. rewrite Hsz.
    destruct Hnone as [-> _]; [|reflexivity].
    intros row Hin Hmut.
    destruct (Forall2_In_l _ _ _ _ Hsame Hin) as (row' & Hin' & _ & Hc' & _).
    apply (Hno row'); [rewrite Hpst; exact Hin' | congruence].
  - unfold reserves. destruct (Nat.ltb_spec 0 (stack_size self')); [right | left]; split;
      auto; lia.
  - exact Hout.
Qed.

(** The directive of one registered string constant. *)
Definition string_directive (item : string * string) : string :=
  snd item ^^ ": .string " ^^ fst item.

(** C8, as the code has it.  When compilation succeeds the output begins
    with the data lines and goes on with the text section: with at least
    one registered string constant, the [.section .rodata] directive, one
    [label: .string "text"] directive per entry of the table of
    constants, and the numeric format constant; with none, the numeric
    format constant alone, with no section directive before it.  The
    registered constants are distinct and are the lexemes of the string
    literals of the program. *)
Theorem C8_data_section :
  forall src text self',
    compile (__init__ src) = Ok (text, self') ->
    let literals := string_literals self' in
    (exists tail,
        text = String.concat nl
                 (match literals with
                  | [] => [NUM_FMT]
                  | _ => ".section .rodata" :: map string_directive literals ++ [NUM_FMT]
                  end ++ ".section .text" :: tail) ^^ nl)
    /\ NoDup (map fst literals)
    /\ (forall s, In s (map fst literals)
                  <-> exists row, In row (pst self')
                                  /\ category row = StringLiteral /\ lexeme row = s).
Proof.
  intros src text self' Hc literals.
  pose proof (compile_stages src) as Hst. rewrite Hc in Hst.
  destruct Hst as (toks & rows & rows' & self3 & text_section & Hcomp).
  destruct Hcomp as [Htok Hrows Han Hgen Hout].
  pose proof (generate_spec rows' 0 (analyzed_state rows' self3)) as Hframe.
  unfold sat in Hframe. rewrite Hgen in Hframe. destruct Hframe as (n & _ & Hself').
  assert (Hlit : literals = string_literals self3) by (unfold literals; rewrite Hself'; reflexivity).
  assert (Hpst : pst self' = rows') by (rewrite Hself'; reflexivity).
  pose proof (categorize_loop_spec toks) as Hcat. unfold categorize_post in Hcat.
  rewrite Hrows in Hcat. destruct Hcat as [Hcat _].
  pose proof (analyze_loop_literals rows (categorized_state src toks rows) Hcat) as Hl.
  unfold sat in Hl. rewrite Han in Hl. destruct Hl as [Hkeys Hnodup].
  pose proof (analyze_loop_spec rows (categorized_state src toks rows)) as Hspec.
  unfold sat in Hspec. rewrite Han in Hspec. destruct Hspec as (Hsame & _).
  cbn [categorized_state string_literals map] in Hkeys, Hnodup.
  split; [|split].
  - exists (tl (main_prologue (stack_size self')) ++ text_section ++ main_epilogue).
    rewrite Hout. f_equal. f_equal.
    change (string_literals (analyzed_state rows' self3)) with (string_literals self3).
    rewrite Hlit. unfold data_section.
    destruct (string_literals self3); reflexivity.
  - rewrite Hlit. apply Hnodup. constructor.
  - intro s. rewrite Hlit, Hpst, Hkeys. split.
    + intros [[]|(row & Hin & Hrc & Hrl)].
      destruct (Forall2_In_l _ _ _ _ Hsame Hin) as (row' & Hin' & Hl' & Hc' & _).
      exists row'. split; [exact Hin'|]. split; congruence.
    + intros (row' & Hin' & Hrc & Hrl). right.
      destruct (Forall2_In_r _ _ _ _ Hsame Hin') as (row & Hin & Hl' & Hc' & _).
      exists row. split; [exact Hin|]. split; congruence.
Qed.

(* ====================================================================== *)
(** ** 10. Repeated compilation *)
(* ====================================================================== *)

(** A compilation context as [Compiler.__init__] leaves it. *)
Definition fresh (self : Compiler) : Prop :=
  tokens self = [] /\ pst self = [] /\ symbol_table self = []
  /\ string_literals self = [] /\ stack_size self = 0 /\ label_count self = 0
  /\ loop_end_stack self = [].

Lemma fresh_init self : fresh self -> self = __init__ (source_code self).
Proof.
  destruct self as [src toks rows table lits size count stack].
  unfold fresh. cbn. intros (-> & -> & -> & -> & -> & -> & ->). reflexivity.
Qed.

(* ====================================================================== *)
(** ** 11. How compilation fails *)
(* ====================================================================== *)

(** The taxonomy of the specification. *)
Inductive ErrorKind : Type :=
| LexError | UnknownSymbolError | MalformedDeclarationError
| DuplicateDeclarationError | UndeclaredVariableError | InvalidExpressionError
| InvalidConditionError | StopOutsideLoopError | UnmatchedBraceError.

(** The messages of the source's [CompilationError], by kind. *)
Definition message_kind (kind : ErrorKind) (msg : string) : Prop :=
  match kind with
  | LexError => exists c, msg = "Unexpected character: '" ^^ c ^^ "'"
  | UnknownSymbolError => exists lx, msg = "Unknown symbol '" ^^ lx ^^ "'"
  | MalformedDeclarationError =>
      msg = "Invalid variable declaration." \/ msg = "Incomplete variable declaration."
  | DuplicateDeclarationError => exists name, msg = "Variable '" ^^ name ^^ "' already declared."
  | UndeclaredVariableError => exists name, msg = "Use of undeclared variable '" ^^ name ^^ "'"
  | InvalidExpressionError =>
      msg = "Invalid right-hand side in arithmetic expression."
      \/ msg = "Invalid assignment expression."
  | InvalidConditionError => msg = "Invalid right-hand side in when condition."
  | StopOutsideLoopError => msg = "'stop' can only be used inside a loop."
  | UnmatchedBraceError => msg = "Unmatched '{' bracket."
  end.

Lemma analysis_message_kind msg :
  analysis_message msg -> exists kind, message_kind kind msg.
Proof.
  intros [H|[H|[H|H]]].
  - exists MalformedDeclarationError. left. exact H.
  - exists MalformedDeclarationError. right. exact H.
  - exists DuplicateDeclarationError. exact H.
  - exists UndeclaredVariableError. exact H.
Qed.

Lemma generator_message_kind msg :
  generator_message msg -> exists kind, message_kind kind msg.
Proof.
  intros [H|[H|[H|[H|H]]]].
  - exists InvalidExpressionError. left. exact H.
  - exists InvalidExpressionError. right. exact H.
  - exists InvalidConditionError. exact H.
  - exists UnmatchedBraceError. exact H.
  - exists StopOutsideLoopError. exact H.
Qed.

Lemma Forall2_same_token_lines rows rows' :
  Forall2 same_token rows rows' -> map line rows' = map line rows.
Proof.
  induction 1 as [|r r' l l' (_ & _ & Hl) _ IH]; cbn [map]; [reflexivity|].
  rewrite Hl, IH. reflexivity.
Qed.

Lemma lines_positive (toks : list (string * nat)) rows :
  Forall (fun t => 1 <= snd t) toks ->
  map line rows = map snd toks ->
  forall row, In row rows -> 1 <= line row.
Proof.
  intros Hpos Hmap row Hin.
  apply (in_map line) in Hin. rewrite Hmap in Hin.
  apply in_map_iff in Hin. destruct Hin as (t & <- & Ht).
  rewrite Forall_forall in Hpos. apply Hpos. exact Ht.
Qed.

(** Compilation always ends, with output or with one exception.  A
    [CompilationError] has a message of the nine kinds of the taxonomy and
    a line that is at least 1.  The other exceptions compilation can end
    with are [IndexError] and a [KeyError] for a lexeme that is not a key
    of [jump_map]. *)
Lemma compile_exceptions :
  forall src,
    run_compile src <> OutOfFuel
    /\ forall e,
        run_compile src = Raise e ->
        (exists kind msg l,
            e = CompilationError msg l /\ message_kind kind msg /\ 1 <= l)
        \/ e = IndexError
        \/ (exists key, e = KeyError key /\ dict_get key jump_map = None).
Proof.
  intro src. split; [apply run_compile_total|].
  intros e He. apply run_compile_Raise in He.
  pose proof (compile_stages src) as Hst. rewrite He in Hst.
  destruct Hst as [Hlex | [(toks & Htok & Hcat) | [(toks & rows & Htok & Hrows & Han)
                  | (toks & rows & rows' & self3 & Htok & Hrows & Han & Hgen)]]].
  - destruct Hlex as (c & l & -> & Hl). left.
    exists LexError, ("Unexpected character: '" ^^ c ^^ "'"), l.
    split; [reflexivity|]. split; [exists c; reflexivity | exact Hl].
  - pose proof (@tokenize_loop_spec (S (String.length src)) src 1 (Nat.lt_succ_diag_r _)) as Hpos.
    unfold tokenize_post in Hpos. rewrite Htok in Hpos.
    destruct Hcat as (lx & ln & Hin & ->). left.
    exists UnknownSymbolError, ("Unknown symbol '" ^^ lx ^^ "'"), ln.
    split; [reflexivity|]. split; [exists lx; reflexivity|].
    rewrite Forall_forall in Hpos. apply (Hpos (lx, ln) Hin).
  - pose proof (@tokenize_loop_spec (S (String.length src)) src 1 (Nat.lt_succ_diag_r _)) as Hpos.
    unfold tokenize_post in Hpos. rewrite Htok in Hpos.
    pose proof (categorize_loop_spec toks) as Hcat. unfold categorize_post in Hcat.
    rewrite Hrows in Hcat. destruct Hcat as [_ Hlines].
    destruct Han as (msg & row & -> & Hin & Hmsg). left.
    destruct (analysis_message_kind _ Hmsg) as (kind & Hkind).
    exists kind, msg, (line row). split; [reflexivity|]. split; [exact Hkind|].
    eapply lines_positive; eassumption.
  - pose proof (@tokenize_loop_spec (S (String.length src)) src 1 (Nat.lt_succ_diag_r _)) as Hpos.
    unfold tokenize_post in Hpos. rewrite Htok in Hpos.
    pose proof (categorize_loop_spec toks) as Hcat. unfold categorize_post in Hcat.
    rewrite Hrows in Hcat. destruct Hcat as [Hcat Hlines].
    pose proof (analyze_loop_spec rows (categorized_state src toks rows)) as Hspec.
    unfold sat in Hspec. rewrite Han in Hspec. destruct Hspec as (Hsame & _).
    destruct e as [msg l| |key|]; cbn [gen_exn] in Hgen.
    + destruct Hgen as (Hmsg & row & Hin & ->). left.
      destruct (generator_message_kind _ Hmsg) as (kind & Hkind).
      exists kind, msg, (line row). split; [reflexivity|]. split; [exact Hkind|].
      apply (lines_positive toks rows'); [exact Hpos | | exact Hin].
      rewrite (Forall2_same_token_lines _ _ Hsame). exact Hlines.
    + right. left. reflexivity.
    + right. right. exists key. split; [reflexivity|].
      destruct Hgen as (row' & Hin' & -> & [Hj | (Hc & Hnone)]); [exact Hj|].
      exfalso.
      pose proof (analyze_loop_literals rows (categorized_state src toks rows) Hcat) as Hl.
      unfold sat in Hl. rewrite Han in Hl. destruct Hl as [Hkeys _].
      change (string_literals (analyzed_state rows' self3)) with (string_literals self3)
        in Hnone.
      apply dict_get_None in Hnone. apply Hnone. apply Hkeys. right.
      destruct (Forall2_In_r _ _ _ _ Hsame Hin') as (row & Hin & Hl' & Hc' & _).
      exists row. split; [exact Hin|]. split; congruence.
    + contradiction.
Qed.

(** The kinds of the taxonomy have no message in common. *)
Lemma message_kind_unique kind kind' msg :
  message_kind kind msg -> message_kind kind' msg -> kind' = kind.
Proof.
  destruct kind, kind'; cbn [message_kind]; intros H H'; try reflexivity; exfalso;
    repeat match goal with
           | H : exists _, _ |- _ => destruct H
           | H : _ \/ _ |- _ => destruct H
           end;
    subst; cbn [String.append] in *; discriminate.
Qed.

(** How the statements of the generator fail on rows that are missing or
    out of place. *)
Lemma gen_when_head_missing block_pst i self :
  nth_error block_pst (i + 3) = None ->
  gen_when_head block_pst i self = Raise IndexError.
Proof.
  intro H3. unfold gen_when_head.
  unfold bind at 1. unfold _get_unique_label at 1. unfold bind at 1. cbn [modify].
  unfold bind at 1. cbn [get ret].
  unfold bind at 1. unfold _get_unique_label at 1. unfold bind at 1. cbn [modify].
  unfold bind at 1. cbn [get ret].
  unfold bind, getitem. rewrite H3.
  destruct (nth_error block_pst (i + 1)); [|reflexivity].
  destruct (nth_error block_pst (i + 2)); reflexivity.
Qed.

Lemma gen_when_head_invalid block_pst i self var1 op operand2 :
  nth_error block_pst (i + 1) = Some var1 ->
  nth_error block_pst (i + 2) = Some op ->
  nth_error block_pst (i + 3) = Some operand2 ->
  category operand2 <> Variable_ ->
  category operand2 <> NumericLiteral ->
  gen_when_head block_pst i self
  = Raise (CompilationError "Invalid right-hand side in when condition." (line op)).
Proof.
  intros H1 H2 H3 Hv Hn. unfold gen_when_head.
  unfold bind at 1. unfold _get_unique_label at 1. unfold bind at 1. cbn [modify].
  unfold bind at 1. cbn [get ret].
  unfold bind at 1. unfold _get_unique_label at 1. unfold bind at 1. cbn [modify].
  unfold bind at 1. cbn [get ret].
  unfold bind, getitem. rewrite H1, H2, H3. cbn [ret].
  destruct (Category_eqb (category operand2) Variable_) eqn:E1;
    [apply Category_eqb_eq in E1; contradiction|].
  destruct (Category_eqb (category operand2) NumericLiteral) eqn:E2;
    [apply Category_eqb_eq in E2; contradiction|].
  reflexivity.
Qed.

Lemma generate_when_head_fails block_pst i self row e :
  nth_error block_pst i = Some row ->
  category row = Control ->
  lexeme row = "when" ->
  gen_when_head block_pst i self = Raise e ->
  generate block_pst i self = Raise e.
Proof.
  intros Hrow Hcat Hlex He.
  rewrite (generate_keyword _ _ self _ Hrow (or_introl Hcat)), Hlex.
  cbn [String.eqb Ascii.eqb Bool.eqb]. unfold gen_when. unfold bind. rewrite He.
  reflexivity.
Qed.

(** The block-boundary loop that finds no closing brace. *)
Lemma find_block_end_unclosed block_pst block_start self :
  scan_block (skipn block_start block_pst) block_start 1 = None ->
  find_block_end block_pst block_start self
  = match nth_error block_pst (block_start - 1) with
    | Some r => Raise (CompilationError "Unmatched '{' bracket." (line r))
    | None => Raise IndexError
    end.
Proof.
  intro H. unfold find_block_end. rewrite H. unfold bind, getitem.
  destruct (nth_error block_pst (block_start - 1)); reflexivity.
Qed.

(** C3.  Compilation always ends, with output or with one exception, and
    a failure of generation is the failure of compilation.  A
    [CompilationError] of compilation has a message of exactly one of the
    nine kinds of the taxonomy and a line that is at least 1.  In
    generation, from any cursor of any block and in any state: a [when]
    with three rows after it whose second operand is neither a variable nor
    a numeric literal raises the error of an invalid condition with the
    line of the operator; a [when] with a comparator and a variable or
    numeric literal as second operand whose block no row closes, or whose
    [when] block compiles and whose [other] block no row closes, and a
    [loop] whose block no row closes, raise the error of an unmatched brace
    with the line of the row before the block; a [stop] under the empty
    stack raises the error of [stop] outside a loop.  Where the rows a
    statement reads are missing the exception is [IndexError]: a [print]
    with no row after it, a [when] with fewer than three rows after it,
    and a block that no row closes with no row before it. *)
Theorem C3_compilation_failures :
  (forall src, run_compile src <> OutOfFuel)
  /\ (forall src msg l,
         run_compile src = Raise (CompilationError msg l) ->
         (exists kind,
             message_kind kind msg
             /\ forall kind', message_kind kind' msg -> kind' = kind)
         /\ 1 <= l)
  /\ (forall src toks rows rows' self3 e,
         tokenize_loop (S (String.length src)) src 1 = Ok toks ->
         categorize_loop toks = Ok rows ->
         analyze_loop rows (categorized_state src toks rows) = Ok (rows', self3) ->
         generate rows' 0 (analyzed_state rows' self3) = Raise e ->
         run_compile src = Raise e)
  /\ (forall block_pst i self row,
         nth_error block_pst i = Some row ->
         category row = Control ->
         lexeme row = "when" ->
         (nth_error block_pst (i + 3) = None ->
          generate block_pst i self = Raise IndexError)
         /\ (forall var1 op operand2,
                nth_error block_pst (i + 1) = Some var1 ->
                nth_error block_pst (i + 2) = Some op ->
                nth_error block_pst (i + 3) = Some operand2 ->
                category operand2 <> Variable_ ->
                category operand2 <> NumericLiteral ->
                generate block_pst i self
                = Raise (CompilationError "Invalid right-hand side in when condition."
                                          (line op)))
         /\ (forall var1 op operand2 jump,
                nth_error block_pst (i + 1) = Some var1 ->
                nth_error block_pst (i + 2) = Some op ->
                nth_error block_pst (i + 3) = Some operand2 ->
                category operand2 = Variable_ \/ category operand2 = NumericLiteral ->
                dict_get (lexeme op) jump_map = Some jump ->
                (scan_block (skipn (i + 5) block_pst) (i + 5) 1 = None ->
                 generate block_pst i self
                 = match nth_error block_pst (i + 4) with
                   | Some r => Raise (CompilationError "Unmatched '{' bracket." (line r))
                   | None => Raise IndexError
                   end)
                /\ (forall j body self2,
                       scan_block (skipn (i + 5) block_pst) (i + 5) 1 = Some j ->
                       generate (slice block_pst (i + 5) (j - 1)) 0
                                (set_label_count (label_count self + 2) self)
                       = Ok (body, self2) ->
                       test_at block_pst j (fun r => String.eqb (lexeme r) "other") = true ->
                       scan_block (skipn (j + 2) block_pst) (j + 2) 1 = None ->
                       generate block_pst i self
                       = match nth_error block_pst (j + 1) with
                         | Some r =>
                             Raise (CompilationError "Unmatched '{' bracket." (line r))
                         | None => Raise IndexError
                         end)))
  /\ (forall block_pst i self row,
         nth_error block_pst i = Some row ->
         category row = Control ->
         lexeme row = "loop" ->
         scan_block (skipn (i + 2) block_pst) (i + 2) 1 = None ->
         generate block_pst i self
         = match nth_error block_pst (i + 1) with
           | Some r => Raise (CompilationError "Unmatched '{' bracket." (line r))
           | None => Raise IndexError
           end)
  /\ (forall block_pst i self row,
         nth_error block_pst i = Some row ->
         category row = Io ->
         lexeme row = "print" ->
         nth_error block_pst (i + 1) = None ->
         generate block_pst i self = Raise IndexError)
  /\ (forall block_pst i self row,
         nth_error block_pst i = Some row ->
         category row = Control ->
         lexeme row = "stop" ->
         loop_end_stack self = [] ->
         generate block_pst i self
         = Raise (CompilationError "'stop' can only be used inside a loop." (line row))).
Proof.
  split; [apply run_compile_total|].
  split; [|split; [|split; [|split; [|split]]]].
  - intros src msg l H.
    destruct (proj2 (compile_exceptions src) _ H)
      as [(kind & msg' & l' & He & Hk & Hl)|[He|(key & He & _)]]; try discriminate He.
    inversion He; subst msg' l'. split; [|exact Hl].
    exists kind. split; [exact Hk|].
    intros kind' Hk'. apply (message_kind_unique kind kind' msg); assumption.
  - intros src toks rows rows' self3 e Htok Hrows Han Hgen.
    apply run_compile_Raise. rewrite compile_run, Htok, Hrows, Han, Hgen. reflexivity.
  - intros block_pst i self row Hrow Hcat Hlex. split; [|split].
    + intro H3. apply (generate_when_head_fails _ _ _ row); try assumption.
      apply gen_when_head_missing. exact H3.
    + intros var1 op operand2 H1 H2 H3 Hv Hn.
      apply (generate_when_head_fails _ _ _ row); try assumption.
      apply (gen_when_head_invalid _ _ _ var1 op operand2); assumption.
    + intros var1 op operand2 jump H1 H2 H3 Hop2 Hjump. split.
      * intro Hscan.
        rewrite (generate_when_run _ _ _ _ _ _ _ _ Hrow Hcat Hlex H1 H2 H3 Hop2 Hjump).
        unfold gen_when_blocks. unfold bind at 1.
        rewrite (find_block_end_unclosed _ _ _ Hscan).
        replace (i + 5 - 1) with (i + 4) by lia.
        destruct (nth_error block_pst (i + 4)); reflexivity.
      * intros j body self2 Hscan Hbody Hother Hscan2.
        rewrite (generate_when_run _ _ _ _ _ _ _ _ Hrow Hcat Hlex H1 H2 H3 Hop2 Hjump).
        unfold gen_when_blocks. unfold bind at 1. unfold find_block_end at 1.
        rewrite Hscan. cbn [ret]. unfold bind at 1. rewrite Hbody. rewrite Hother.
        unfold bind at 1. rewrite (find_block_end_unclosed _ _ _ Hscan2).
        replace (j + 2 - 1) with (j + 1) by lia.
        destruct (nth_error block_pst (j + 1)); reflexivity.
  - intros block_pst i self row Hrow Hcat Hlex Hscan.
    rewrite (generate_loop_run _ _ self _ Hrow Hcat Hlex).
    rewrite (find_block_end_unclosed _ _ _ Hscan).
    replace (i + 2 - 1) with (i + 1) by lia.
    destruct (nth_error block_pst (i + 1)); reflexivity.
  - intros block_pst i self row Hrow Hcat Hlex H1.
    rewrite (generate_keyword _ _ self _ Hrow (or_intror Hcat)), Hlex.
    cbn [String.eqb Ascii.eqb Bool.eqb]. unfold gen_print, bind, getitem.
    rewrite H1. reflexivity.
  - intros block_pst i self row Hrow Hcat Hlex Hs.
    rewrite (generate_stop_run _ _ self _ Hrow Hcat Hlex). unfold gen_stop.
    unfold bind, get. rewrite Hs. reflexivity.
Qed.

(* ====================================================================== *)
(** ** 12. Concrete programs *)
(* ====================================================================== *)

(** The object after stages 1 to 3 on a fresh context. *)
Definition analyze (src : string) : result Compiler :=
  match (_stage1_tokenize ;;; _stage2_categorize ;;; _stage3_analyze) (__init__ src) with
  | Ok (_, self) => Ok self
  | Raise e => Raise e
  | OutOfFuel => OutOfFuel
  end.

Definition state_of (r : result Compiler) : Compiler :=
  match r with
  | Ok self => self
  | _ => __init__ EmptyString
  end.

Definition final_of (r : result (string * Compiler)) : string * Compiler :=
  match r with
  | Ok p => p
  | _ => (EmptyString, __init__ EmptyString)
  end.

(** [self.pst[i]] of a concrete object *)
Definition row_at (self : Compiler) (i : nat) : PstRow :=
  nth i (pst self) (PstRow_init EmptyString Delimiter 0).

Definition src_print : string := "let .x : num ; .x = 5 ; print .x ;".
Definition src_when : string :=
  "fix .y : num ; .y = 1 ; when .y == 1 { print .y ; } other { print .y ; }".
Definition src_loop : string := "loop { stop ; }".
Definition src_hello : string := "print " ^^ dq ^^ "hi" ^^ dq ^^ " ; print " ^^ dq ^^ "hi" ^^ dq ^^ " ;".
Definition src_literal_first : string := "let .x : num ; when 5 == .x { }".
Definition src_stray : string := "; }".
Definition src_nested_stop : string := "let .x : num ; when .x == 1 { stop ; }".

Definition print_state : Compiler := Eval vm_compute in state_of (analyze src_print).
Definition when_state : Compiler := Eval vm_compute in state_of (analyze src_when).
Definition literal_first_state : Compiler :=
  Eval vm_compute in state_of (analyze src_literal_first).
Definition stray_state : Compiler := Eval vm_compute in state_of (analyze src_stray).
Definition src_print_alone : string := "print".
Definition print_alone_state : Compiler :=
  Eval vm_compute in state_of (analyze src_print_alone).
Definition src_loop_other_stop : string :=
  "let .x : num ; loop { when .x == 1 { } other { stop ; } }".
Definition loop_other_stop_state : Compiler :=
  Eval vm_compute in state_of (analyze src_loop_other_stop).

Definition print_final : string * Compiler :=
  Eval vm_compute in final_of (compile (__init__ src_print)).
Definition hello_final : string * Compiler :=
  Eval vm_compute in final_of (compile (__init__ src_hello)).

(** The examples of the specification. *)
Example compile_print :
  run_compile src_print
  = Ok (String.concat nl
          [ NUM_FMT; ".section .text"; ".globl main"; nl ^^ "main:";
            "    pushq   %rbp"; "    movq    %rsp, %rbp"; "    subq    $16, %rsp";
            nl ^^ "    # Katappa: .x = ..."; "    movq    $5, -8(%rbp)";
            nl ^^ "    # Katappa: print .x;";
            "    leaq    .LC_NUM_FMT(%rip), %rcx"; "    movq    -8(%rbp), %rdx";
            "    subq    $32, %rsp"; "    movq    $0, %rax"; "    call    printf";
            "    addq    $32, %rsp";
            nl ^^ "    movq    $0, %rax"; "    leave"; "    ret" ] ^^ nl).
Proof. vm_compute. reflexivity. Qed.

Example compile_loop_stop :
  run_compile src_loop
  = Ok (String.concat nl
          [ NUM_FMT; ".section .text"; ".globl main"; nl ^^ "main:";
            "    pushq   %rbp"; "    movq    %rsp, %rbp"; EmptyString;
            nl ^^ ".L_LOOP_START_1:"; "    jmp .L_LOOP_END_2";
            "    jmp .L_LOOP_START_1"; ".L_LOOP_END_2:";
            nl ^^ "    movq    $0, %rax"; "    leave"; "    ret" ] ^^ nl).
Proof. vm_compute. reflexivity. Qed.

Example compile_unmatched_brace :
  run_compile "loop { stop ;" = Raise (CompilationError "Unmatched '{' bracket." 1).
Proof. vm_compute. reflexivity. Qed.

Example compile_duplicate :
  run_compile ("let .x : num ;" ^^ nl ^^ "let .x : num ;")
  = Raise (CompilationError "Variable '.x' already declared." 2).
Proof. vm_compute. reflexivity. Qed.

Example compile_nested_stop :
  run_compile src_nested_stop
  = Raise (CompilationError "'stop' can only be used inside a loop." 1).
Proof. vm_compute. reflexivity. Qed.

(** A context that has compiled once is not fresh: compiling from it again
    ends differently. *)
Example reused_context_differs :
  compile (snd print_final)
  = Raise (CompilationError "Variable '.x' already declared." 1).
Proof. vm_compute. reflexivity. Qed.

(** A [stop] in the [other] block of a conditional inside a loop leaves
    the loop: it jumps to the end-label of the loop, not of the
    conditional. *)
Example stop_in_other_block_leaves_the_loop :
  generate (pst loop_other_stop_state) 5 loop_other_stop_state
  = Ok ([ nl ^^ ".L_LOOP_START_1:";
          nl ^^ "    # Katappa: when .x == 1 {...}";
          "    movq    -8(%rbp), %rax";
          "    cmpq    $1, %rax";
          "    jne .L_ELSE_3";
          "    jmp .L_END_WHEN_4";
          ".L_ELSE_3:";
          "    jmp .L_LOOP_END_2";
          ".L_END_WHEN_4:";
          "    jmp .L_LOOP_START_1";
          ".L_LOOP_END_2:" ],
        set_label_count 4 loop_other_stop_state).
Proof. vm_compute. reflexivity. Qed.

(* ---------------------------------------------------------------------- *)
(** *** Where the specification and the code part *)
(* ---------------------------------------------------------------------- *)

(** Against C1: the first operand of a [when] is not examined.  With the
    literal [5] there, the statement compiles, no instruction mentions the
    literal, and what is compared with the second operand is the text the
    missing location is rendered as. *)
Lemma C1_counterexample :
  generate (pst literal_first_state) 5 literal_first_state
  = Ok ([ nl ^^ "    # Katappa: when 5 == .x {...}";
          "    movq    None, %rax";
          "    cmpq    -8(%rbp), %rax";
          "    jne .L_ELSE_1";
          "    jmp .L_END_WHEN_2";
          ".L_ELSE_1:";
          ".L_END_WHEN_2:" ],
        set_label_count 2 literal_first_state).
Proof. vm_compute. reflexivity. Qed.

(** Against C2: a right-hand side of two literals compiles; a literal
    followed by an operator and an operand compiles to the store of the
    literal alone; a missing right-hand side ends in [IndexError]. *)
Lemma C2_counterexample :
  (exists text, run_compile "let .x : num ; .x = 5 5 ;" = Ok text)
  /\ run_compile "let .x : num ; let .y : num ; .x = 5 + .y ;"
     = run_compile "let .x : num ; let .y : num ; .x = 5 ;"
  /\ run_compile "let .x : num ; .x =" = Raise IndexError.
Proof.
  split; [|split].
  - eexists. vm_compute. reflexivity.
  - vm_compute. reflexivity.
  - vm_compute. reflexivity.
Qed.

(** Against C3: a statement that lacks the rows it reads ends outside
    the taxonomy, in the [IndexError] that [main] catches: a [print] with
    no operand, a [when] with no second operand, a [loop] with nothing
    after it. *)
Lemma C3_counterexample :
  run_compile "print" = Raise IndexError
  /\ run_compile "let .x : num ; when .x ==" = Raise IndexError
  /\ run_compile "loop" = Raise IndexError.
Proof. repeat split; vm_compute; reflexivity. Qed.

(** Two checks that the generator makes for an assignment and not here:
    the category of the operand of a [print] (lines 183-189 reject an
    operand that is neither variable nor literal) and the operator of a
    [when] (line 192 asks [in op_map] before the lookup). *)
Example print_operand_unchecked : exists text, run_compile "print 5 ;" = Ok text.
Proof. eexists. vm_compute. reflexivity. Qed.

Example when_operator_unchecked :
  run_compile "let .x : num ; when .x + 5 { }" = Raise (KeyError "+").
Proof. vm_compute. reflexivity. Qed.

(** Against C8: the output of a program with no string literal does not
    begin with a read-only data section; its first line is the numeric
    format constant. *)
Lemma C8_counterexample :
  exists text,
    run_compile src_print = Ok text
    /\ String.prefix ".section .rodata" text = false
    /\ String.prefix (NUM_FMT ^^ nl ^^ ".section .text") text = true.
Proof.
  eexists. split; [vm_compute; reflexivity|]. split; vm_compute; reflexivity.
Qed.

(* ---------------------------------------------------------------------- *)
(** *** The theorems at concrete programs *)
(* ---------------------------------------------------------------------- *)

Lemma C1_when_branches_on_negation_witness :
  gen_when_head (pst when_state) 9 when_state
  = Ok (([ nl ^^ "    # Katappa: when .y == 1 {...}";
           "    movq    -8(%rbp), %rax";
           "    cmpq    $1, %rax";
           "    jne .L_ELSE_1" ],
         ".L_ELSE_1", ".L_END_WHEN_2"),
        set_label_count 2 when_state).
Proof.
  refine (proj1 (C1_when_branches_on_negation (pst when_state) 9 when_state
                   (row_at when_state 9) (row_at when_state 10) "-8(%rbp)"
                   (row_at when_state 11) (row_at when_state 12) "$1" Equal
                   _ _ _ _ _ _ _ _ _ _)); try reflexivity.
  right. split; reflexivity.
Defined.

Lemma C2_assignment_right_hand_side_witness :
  generate (pst print_state) 5 print_state
  = match generate (pst print_state) 8 print_state with
    | Ok (rest, self') =>
        Ok ((nl ^^ "    # Katappa: .x = ...") :: "    movq    $5, -8(%rbp)" :: rest, self')
    | Raise e => Raise e
    | OutOfFuel => OutOfFuel
    end.
Proof.
  refine (proj1 (proj2 (C2_assignment_right_hand_side (pst print_state) 5 print_state
                          (row_at print_state 5) (row_at print_state 6) _ _ _ _))
                (row_at print_state 7) _ _); reflexivity.
Defined.

Lemma C3_compilation_failures_witness :
  ((exists kind,
       message_kind kind "'stop' can only be used inside a loop."
       /\ forall kind', message_kind kind' "'stop' can only be used inside a loop." ->
                        kind' = kind)
   /\ 1 <= 1)
  /\ generate (pst print_alone_state) 0 print_alone_state = Raise IndexError.
Proof.
  split.
  - refine (proj1 (proj2 C3_compilation_failures) src_nested_stop _ 1 _).
    vm_compute. reflexivity.
  - refine (proj1 (proj2 (proj2 (proj2 (proj2 (proj2 C3_compilation_failures)))))
              (pst print_alone_state) 0 print_alone_state (row_at print_alone_state 0)
              _ _ _ _); reflexivity.
Defined.


Lemma C5_frame_size_witness :
  exists rows' self3 data text_section reserve,
    generate rows' 0 (analyzed_state rows' self3) = Ok (text_section, snd print_final)
    /\ stack_size (snd print_final) = stack_size (analyzed_state rows' self3)
    /\ stack_size (snd print_final) mod 16 = 0
    /\ stack_size (snd print_final) = align16 (8 * length (symbol_table (snd print_final)))
    /\ (symbol_table (snd print_final) = [] -> stack_size (snd print_final) = 0)
    /\ ((forall row, In row (pst (snd print_final)) -> category row <> Mutability) ->
        stack_size (snd print_final) = 0)
    /\ reserves reserve (stack_size (snd print_final))
    /\ fst print_final
       = String.concat nl
           (data
              ++ [ ".section .text"; ".globl main"; nl ^^ "main:";
                   "    pushq   %rbp"; "    movq    %rsp, %rbp"; reserve ]
              ++ text_section
              ++ [ nl ^^ "    movq    $0, %rax"; "    leave"; "    ret" ]) ^^ nl.
Proof.
  refine (C5_frame_size src_print (fst print_final) (snd print_final) _).
  vm_compute. reflexivity.
Defined.


Lemma C8_data_section_witness :
  (exists tail,
      fst hello_final
      = String.concat nl
          (match string_literals (snd hello_final) with
           | [] => [NUM_FMT]
           | _ => ".section .rodata"
                    :: map string_directive (string_literals (snd hello_final)) ++ [NUM_FMT]
           end ++ ".section .text" :: tail) ^^ nl)
  /\ NoDup (map fst (string_literals (snd hello_final)))
  /\ (forall s, In s (map fst (string_literals (snd hello_final)))
                <-> exists row, In row (pst (snd hello_final))
                                /\ category row = StringLiteral /\ lexeme row = s).
Proof.
  refine (C8_data_section src_hello (fst hello_final) (snd hello_final) _).
  vm_compute. reflexivity.
Defined.

Lemma C9_when_first_operand_unresolved_witness :
  gen_when_head (pst literal_first_state) 5 literal_first_state
  = Ok (([ nl ^^ "    # Katappa: when 5 == .x {...}";
           "    movq    None, %rax";
           "    cmpq    -8(%rbp), %rax";
           "    jne .L_ELSE_1" ],
         ".L_ELSE_1", ".L_END_WHEN_2"),
        set_label_count 2 literal_first_state).
Proof.
  refine (proj1 (proj1 C9_when_first_operand_unresolved
                   (pst literal_first_state) 5 literal_first_state
                   (row_at literal_first_state 5) (row_at literal_first_state 6)
                   (row_at literal_first_state 7) (row_at literal_first_state 8)
                   "jne" _ _ _ _ _ _ _ _ _)); try reflexivity.
  left. reflexivity.
Defined.

Lemma C10_other_token_skipped_witness :
  generate (pst stray_state) 0 stray_state = generate (pst stray_state) 1 stray_state
  /\ generate (pst stray_state) 1 stray_state = generate (pst stray_state) 2 stray_state.
Proof.
  split.
  - refine (C10_other_token_skipped (pst stray_state) 0 stray_state
              (row_at stray_state 0) _ _ _ _ _ _ _);
      try reflexivity; try discriminate.
    intros [H _]. discriminate H.
  - refine (C10_other_token_skipped (pst stray_state) 1 stray_state
              (row_at stray_state 1) _ _ _ _ _ _ _);
      try reflexivity; try discriminate.
    intros [H _]. discriminate H.
Defined.

(* ====================================================================== *)
(** ** 13. The scanner: where tokens come from *)
(* ====================================================================== *)

Lemma append_assoc_s (a b c : string) : (a ^^ b) ^^ c = a ^^ (b ^^ c).
Proof. induction a as [|x a IH]; cbn [String.append]; [reflexivity | rewrite IH; reflexivity]. Qed.

Lemma append_nil_r_s (a : string) : a ^^ EmptyString = a.
Proof. induction a as [|x a IH]; cbn [String.append]; [reflexivity | rewrite IH; reflexivity]. Qed.

Lemma length_append_s (a b : string) :
  String.length (a ^^ b) = String.length a + String.length b.
Proof.
  induction a as [|x a IH]; cbn [String.append String.length plus]; [reflexivity|].
  rewrite IH. reflexivity.
Qed.

Lemma count_nl_append (a b : string) : count_nl (a ^^ b) = count_nl a + count_nl b.
Proof.
  induction a as [|x a IH]; cbn [String.append count_nl]; [reflexivity|].
  rewrite IH. lia.
Qed.

(** What [span] returns: the two parts of the text, the first all in the
    class, the second not starting in it. *)
Definition starts_outside (p : ascii -> bool) (s : string) : Prop :=
  match s with
  | EmptyString => True
  | String c _ => p c = false
  end.

Lemma span_spec p s : forall a b,
  span p s = (a, b) ->
  s = a ^^ b /\ all_chars p a = true /\ starts_outside p b.
Proof.
  induction s as [|c s IH]; intros a b H; cbn [span] in H.
  - inversion H; subst. repeat split.
  - destruct (p c) eqn:Hc.
    + destruct (span p s) as [a' b'] eqn:Hs. inversion H; subst.
      destruct (IH a' b eq_refl) as (H1 & H2 & H3).
      cbn [String.append all_chars]. rewrite Hc, H2, <- H1. repeat split. exact H3.
    + inversion H; subst. repeat split. exact Hc.
Qed.

Lemma span_intro p a : forall b,
  all_chars p a = true -> starts_outside p b -> span p (a ^^ b) = (a, b).
Proof.
  induction a as [|c a IH]; intros b Ha Hb.
  - cbn [String.append]. destruct b as [|x b]; [reflexivity|].
    cbn [span]. cbn in Hb. rewrite Hb. reflexivity.
  - cbn [all_chars] in Ha. apply andb_prop in Ha. destruct Ha as [Hc Ha].
    cbn [String.append span]. rewrite Hc, (IH b Ha Hb). reflexivity.
Qed.

Lemma re_plus_spec p s a b :
  re_plus p s = Some (a, b) ->
  s = a ^^ b /\ a <> EmptyString /\ all_chars p a = true /\ starts_outside p b.
Proof.
  unfold re_plus. destruct (span p s) as [a' b'] eqn:Hs.
  apply span_spec in Hs. destruct Hs as (H1 & H2 & H3).
  destruct a'; [discriminate|]. intro H; inversion H; subst.
  repeat split; auto. discriminate.
Qed.

Lemma re_plus_intro p a b :
  a <> EmptyString -> all_chars p a = true -> starts_outside p b ->
  re_plus p (a ^^ b) = Some (a, b).
Proof.
  intros Hne Ha Hb. unfold re_plus. rewrite (span_intro p a b Ha Hb).
  destruct a; [contradiction | reflexivity].
Qed.

(** Every alternative of [token_spec] takes a non-empty prefix of the text. *)
Lemma token_spec_split g re s value rest :
  In (g, re) token_spec -> re s = Some (value, rest) ->
  s = value ^^ rest /\ value <> EmptyString.
Proof.
  unfold token_spec. cbn [In].
  intros [H|[H|[H|[H|[H|[H|[H|[H|[H|[]]]]]]]]]]; inversion H; subst; clear H.
  - unfold re_StringLiteral. destruct s as [|c s]; [discriminate|].
    destruct (Ascii.eqb_spec c dq_char) as [->|]; [|discriminate].
    destruct (span _ s) as [body r] eqn:Hs. apply span_spec in Hs.
    destruct Hs as (Hs & _ & Hout).
    destruct r as [|q r]; [discriminate|]. intro H; inversion H; subst.
    cbn in Hout. apply negb_false_iff in Hout. apply Ascii.eqb_eq in Hout. subst q.
    split; [|discriminate]. unfold dq. cbn [String.append].
    rewrite append_assoc_s. reflexivity.
  - unfold re_Variable. destruct s as [|c s]; [discriminate|].
    destruct (Ascii.eqb c "."); [|discriminate].
    destruct (re_plus re_word s) as [[a r]|] eqn:Hs; [|discriminate].
    apply re_plus_spec in Hs. destruct Hs as (Hs & _). intro H; inversion H; subst.
    split; [reflexivity | discriminate].
  - unfold re_NumericLiteral. destruct s as [|c s]; [discriminate|].
    destruct (Ascii.eqb c "-").
    + destruct (re_plus re_digit s) as [[a r]|] eqn:Hs; [|discriminate].
      apply re_plus_spec in Hs. destruct Hs as (Hs & _). intro H; inversion H; subst.
      split; [reflexivity | discriminate].
    + intro H. apply re_plus_spec in H. tauto.
  - intro H. apply re_plus_spec in H. tauto.
  - unfold re_Operator. destruct s as [|a [|b r]]; [discriminate| |].
    + destruct (one_of _ a); [|discriminate].
      intro H; inversion H; subst. split; [reflexivity | discriminate].
    + destruct (one_of _ a && Ascii.eqb b "=").
      * intro H; inversion H; subst. split; [reflexivity | discriminate].
      * destruct (one_of _ a); [|discriminate].
        intro H; inversion H; subst. split; [reflexivity | discriminate].
  - unfold re_Delimiter. destruct s as [|a r]; [discriminate|].
    destruct (one_of _ a); [|discriminate].
    intro H; inversion H; subst. split; [reflexivity | discriminate].
  - intro H. apply re_plus_spec in H. tauto.
  - unfold re_Comment. destruct s as [|a [|b r]]; [discriminate|discriminate|].
    destruct (Ascii.eqb a "#" && Ascii.eqb b "#"); [|discriminate].
    destruct (span _ r) as [body r'] eqn:Hs. apply span_spec in Hs.
    destruct Hs as (Hs & _). intro H; inversion H; subst.
    split; [reflexivity | discriminate].
  - unfold re_Mismatch. destruct s as [|a r]; [discriminate|].
    destruct (Ascii.eqb a nl_char); [discriminate|].
    intro H; inversion H; subst. split; [reflexivity | discriminate].
Qed.

Lemma first_match_In alts s g value rest :
  first_match alts s = Some (g, value, rest) ->
  exists re, In (g, re) alts /\ re s = Some (value, rest).
Proof.
  induction alts as [|[g' re] alts IH]; cbn [first_match]; [discriminate|].
  destruct (re s) as [[v r]|] eqn:Hre.
  - intro H; inversion H; subst. exists re. split; [left; reflexivity | exact Hre].
  - intro H. destruct (IH H) as (re' & Hin & Hre'). exists re'. split; [right|]; assumption.
Qed.

Lemma first_match_split s g value rest :
  first_match token_spec s = Some (g, value, rest) ->
  s = value ^^ rest /\ value <> EmptyString.
Proof.
  intro H. apply first_match_In in H. destruct H as (re & Hin & Hre).
  eapply token_spec_split; eassumption.
Qed.

(** The tokens of [toks] occur in [s] one after the other, each on the line
    that is [line_num] plus the newlines of the text before it. *)
Fixpoint occur_in_order (s : string) (line_num : nat) (toks : list (string * nat)) : Prop :=
  match toks with
  | [] => True
  | (value, ln) :: toks' =>
      exists before after,
        s = before ^^ value ^^ after
        /\ ln = line_num + count_nl before
        /\ occur_in_order after (ln + count_nl value) toks'
  end.

Lemma occur_in_order_skip skipped rest line_num toks :
  occur_in_order rest (line_num + count_nl skipped) toks ->
  occur_in_order (skipped ^^ rest) line_num toks.
Proof.
  destruct toks as [|[value ln] toks]; [trivial|]. cbn [occur_in_order].
  intros (before & after & Hs & Hl & Hrest).
  exists (skipped ^^ before), after. rewrite Hs, append_assoc_s, count_nl_append.
  split; [reflexivity|]. split; [lia | exact Hrest].
Qed.

Lemma tokenize_loop_occur fuel : forall s line_num toks,
  tokenize_loop fuel s line_num = Ok toks -> occur_in_order s line_num toks.
Proof.
  induction fuel as [|fuel IH]; intros s l toks H; [discriminate|].
  cbn [tokenize_loop] in H.
  destruct (first_match token_spec s) as [[[g value] rest]|] eqn:Hm.
  - destruct (first_match_split _ _ _ _ Hm) as [Hs _]. subst s.
    assert (Htok : forall toks',
               tokenize_loop fuel rest (l + count_nl value) = Ok toks' ->
               occur_in_order (value ^^ rest) l ((value, l) :: toks')).
    { intros toks' H'. cbn [occur_in_order]. exists EmptyString, rest.
      split; [reflexivity|]. split; [cbn; lia|]. apply IH. exact H'. }
    assert (Hskip : tokenize_loop fuel rest (l + count_nl value) = Ok toks ->
                    occur_in_order (value ^^ rest) l toks).
    { intro H'. apply occur_in_order_skip, IH. exact H'. }
    destruct g; try (apply Hskip; exact H); try discriminate;
      destruct (tokenize_loop fuel rest (l + count_nl value)) as [toks'|e|];
      try discriminate; inversion H; subst; apply Htok; reflexivity.
  - inversion H; subst. exact I.
Qed.

Lemma occur_in_order_In toks : forall s line_num value ln,
  occur_in_order s line_num toks ->
  In (value, ln) toks ->
  exists before after, s = before ^^ value ^^ after /\ ln = line_num + count_nl before.
Proof.
  induction toks as [|[v0 l0] toks IH]; intros s l value ln Hocc Hin; [contradiction|].
  cbn [occur_in_order] in Hocc. destruct Hocc as (before & after & Hs & Hl & Hrest).
  destruct Hin as [Heq|Hin].
  - inversion Heq; subst. exists before, after. auto.
  - destruct (IH _ _ _ _ Hrest Hin) as (b & a & Ha & Hln).
    exists (before ^^ v0 ^^ b), a. subst s after.
    rewrite !append_assoc_s, !count_nl_append. split; [reflexivity | lia].
Qed.

Lemma occur_in_order_lines toks : forall s line_num,
  occur_in_order s line_num toks ->
  Forall (fun t => line_num <= snd t) toks /\ StronglySorted le (map snd toks).
Proof.
  induction toks as [|[v0 l0] toks IH]; intros s l Hocc.
  - split; constructor.
  - cbn [occur_in_order] in Hocc. destruct Hocc as (before & after & Hs & Hl & Hrest).
    destruct (IH _ _ Hrest) as [Hge Hsorted].
    split.
    + constructor; [cbn; lia|]. revert Hge. apply Forall_impl. intros t Ht. lia.
    + cbn [map snd]. constructor; [exact Hsorted|].
      apply Forall_map. revert Hge. apply Forall_impl. intros t Ht. lia.
Qed.

Lemma tokenize_loop_nonempty fuel : forall s line_num toks,
  tokenize_loop fuel s line_num = Ok toks ->
  Forall (fun t => fst t <> EmptyString) toks.
Proof.
  induction fuel as [|fuel IH]; intros s l toks H; [discriminate|].
  cbn [tokenize_loop] in H.
  destruct (first_match token_spec s) as [[[g value] rest]|] eqn:Hm.
  - destruct (first_match_split _ _ _ _ Hm) as [_ Hne].
    destruct g; try (eapply IH; exact H); try discriminate;
      destruct (tokenize_loop fuel rest (l + count_nl value)) as [toks'|e|] eqn:Hr;
      try discriminate; inversion H; subst; constructor; try exact Hne;
      eapply IH; exact Hr.
  - inversion H; subst. constructor.
Qed.

(** X1.  The tokens stage 1 appends occur in the source text one after the
    other; each is a non-empty piece of the text, and the line recorded
    with it is 1 plus the number of newlines in the text before it, so the
    lines never decrease along the token list. *)
Theorem X1_tokens_in_source_order :
  forall src toks,
    tokenize_loop (S (String.length src)) src 1 = Ok toks ->
    occur_in_order src 1 toks
    /\ StronglySorted le (map snd toks)
    /\ forall value ln,
        In (value, ln) toks ->
        value <> EmptyString
        /\ exists before after, src = before ^^ value ^^ after /\ ln = 1 + count_nl before.
Proof.
  intros src toks H.
  pose proof (tokenize_loop_occur _ _ _ _ H) as Hocc.
  split; [exact Hocc|]. split; [apply (occur_in_order_lines _ _ _ Hocc)|].
  intros value ln Hin. split.
  - pose proof (tokenize_loop_nonempty _ _ _ _ H) as Hne.
    rewrite Forall_forall in Hne. apply (Hne (value, ln) Hin).
  - eapply occur_in_order_In; eassumption.
Qed.

(** What a failed scan stopped at: a character, not a newline, that no
    pattern takes, at the head of the text still to be read. *)
Lemma first_match_mismatch s value rest :
  first_match token_spec s = Some (GMismatch, value, rest) ->
  exists c, value = String c EmptyString /\ s = String c rest /\ c <> nl_char
            /\ forall g re, In (g, re) token_spec -> g <> GMismatch -> re s = None.
Proof.
  unfold token_spec. cbn [first_match].
  repeat match goal with
         | |- context [match ?re s with _ => _ end] =>
             let E := fresh "E" in destruct (re s) as [[? ?]|] eqn:E; [discriminate|]
         end.
  unfold re_Mismatch. destruct s as [|c r]; [discriminate|].
  destruct (Ascii.eqb_spec c nl_char) as [|Hc]; [discriminate|].
  intro H; inversion H; subst. exists c. repeat split; auto.
  intros g re Hin Hg. cbn [In] in Hin.
  destruct Hin as [H1|[H1|[H1|[H1|[H1|[H1|[H1|[H1|[H1|[]]]]]]]]]];
    inversion H1; subst; auto. contradiction.
Qed.

Lemma tokenize_loop_error fuel : forall s line_num e,
  tokenize_loop fuel s line_num = Raise e ->
  exists before c after,
    s = before ^^ String c after
    /\ c <> nl_char
    /\ (forall g re, In (g, re) token_spec -> g <> GMismatch -> re (String c after) = None)
    /\ e = CompilationError ("Unexpected character: '" ^^ String c EmptyString ^^ "'")
                            (line_num + count_nl before).
Proof.
  induction fuel as [|fuel IH]; intros s l e H; [discriminate|].
  cbn [tokenize_loop] in H.
  destruct (first_match token_spec s) as [[[g value] rest]|] eqn:Hm; [|discriminate].
  destruct (first_match_split _ _ _ _ Hm) as [Hs _].
  assert (Hrec : tokenize_loop fuel rest (l + count_nl value) = Raise e ->
                 exists before c after,
                   s = before ^^ String c after /\ c <> nl_char
                   /\ (forall g re, In (g, re) token_spec -> g <> GMismatch ->
                                    re (String c after) = None)
                   /\ e = CompilationError
                            ("Unexpected character: '" ^^ String c EmptyString ^^ "'")
                            (l + count_nl before)).
  { intro H'. destruct (IH _ _ _ H') as (before & c & after & Hr & Hc & Hno & He).
    exists (value ^^ before), c, after. subst s rest.
    rewrite append_assoc_s, count_nl_append. repeat split; auto.
    rewrite He. f_equal. lia. }
  destruct g; try (apply Hrec; exact H);
    try (destruct (tokenize_loop fuel rest (l + count_nl value)) as [toks'|e'|];
         try discriminate; apply Hrec; exact H).
  apply first_match_mismatch in Hm. destruct Hm as (c & Hv & Hs' & Hc & Hno).
  inversion H; subst. exists EmptyString, c, rest. cbn [String.append count_nl].
  repeat split; auto.
Qed.

(** X2.  When stage 1 fails, the error names one character of the source
    text, not a newline, at which none of the eight token, whitespace and
    comment patterns matches, and its line is 1 plus the number of newlines
    before that character. *)
Theorem X2_lex_error_position :
  forall src e,
    tokenize_loop (S (String.length src)) src 1 = Raise e ->
    exists before c after,
      src = before ^^ String c after
      /\ c <> nl_char
      /\ (forall g re, In (g, re) token_spec -> g <> GMismatch -> re (String c after) = None)
      /\ e = CompilationError ("Unexpected character: '" ^^ String c EmptyString ^^ "'")
                              (1 + count_nl before).
Proof. intros src e H. apply (tokenize_loop_error _ _ _ _ H). Qed.

(* ---------------------------------------------------------------------- *)
(** *** The shape of a token, by the pattern that took it *)
(* ---------------------------------------------------------------------- *)

Definition not_quote (x : ascii) : bool := negb (Ascii.eqb x dq_char).

Definition operators : list string :=
  ["=="; "!="; ">="; "<="; "="; "+"; "-"; "*"; "/"; ">"; "<"].
Definition delimiters : list string := [":"; "{"; "}"; ";"].

(** The texts each token pattern of [token_spec] takes; the whitespace,
    comment and mismatch groups give no token. *)
Definition token_shape (g : Group) (value : string) : Prop :=
  match g with
  | GStringLiteral =>
      exists body, value = dq ^^ body ^^ dq /\ all_chars not_quote body = true
  | GVariable =>
      exists name, value = String "." name /\ name <> EmptyString
                   /\ all_chars re_word name = true
  | GNumericLiteral =>
      exists digits, digits <> EmptyString /\ all_chars re_digit digits = true
                     /\ (value = digits \/ value = String "-" digits)
  | GKeyword => value <> EmptyString /\ all_chars re_alpha value = true
  | GOperator => In value operators
  | GDelimiter => In value delimiters
  | GWhitespace | GComment | GMismatch => False
  end.

Definition is_token_group (g : Group) : bool :=
  match g with
  | GWhitespace | GComment | GMismatch => false
  | _ => true
  end.

Lemma one_of_cases chars a :
  one_of chars a = true -> In a (list_ascii_of_string chars).
Proof.
  unfold one_of. intro H. apply existsb_exists in H. destruct H as (x & Hin & Hx).
  apply Ascii.eqb_eq in Hx. subst. exact Hin.
Qed.

Lemma token_spec_shape g re s value rest :
  In (g, re) token_spec -> is_token_group g = true ->
  re s = Some (value, rest) -> token_shape g value.
Proof.
  unfold token_spec. cbn [In].
  intros [H|[H|[H|[H|[H|[H|[H|[H|[H|[]]]]]]]]]] Hg; inversion H; subst; clear H;
    try discriminate Hg; cbn [token_shape].
  - unfold re_StringLiteral. destruct s as [|c s]; [discriminate|].
    destruct (Ascii.eqb c dq_char); [|discriminate].
    destruct (span _ s) as [body r] eqn:Hs. apply span_spec in Hs.
    destruct Hs as (_ & Hall & _).
    destruct r as [|q r]; [discriminate|]. intro H; inversion H; subst.
    exists body. split; [reflexivity | exact Hall].
  - unfold re_Variable. destruct s as [|c s]; [discriminate|].
    destruct (Ascii.eqb_spec c ".") as [->|]; [|discriminate].
    destruct (re_plus re_word s) as [[a r]|] eqn:Hs; [|discriminate].
    apply re_plus_spec in Hs. destruct Hs as (_ & Hne & Hall & _).
    intro H; inversion H; subst. exists a. auto.
  - unfold re_NumericLiteral. destruct s as [|c s]; [discriminate|].
    destruct (Ascii.eqb_spec c "-") as [->|].
    + destruct (re_plus re_digit s) as [[a r]|] eqn:Hs; [|discriminate].
      apply re_plus_spec in Hs. destruct Hs as (_ & Hne & Hall & _).
      intro H; inversion H; subst. exists a. auto.
    + intro H. apply re_plus_spec in H. destruct H as (_ & Hne & Hall & _).
      exists value. auto.
  - intro H. apply re_plus_spec in H. tauto.
  - unfold re_Operator, operators. destruct s as [|a [|b r]]; [discriminate| |].
    + destruct (one_of _ a) eqn:Ha; [|discriminate].
      intro H; inversion H; subst. apply one_of_cases in Ha. cbn in Ha |- *.
      intuition (subst; auto 20).
    + destruct (one_of "=!><" a && Ascii.eqb b "=") eqn:Hab.
      * apply andb_prop in Hab. destruct Hab as [Ha Hb].
        apply Ascii.eqb_eq in Hb. apply one_of_cases in Ha.
        intro H; inversion H; subst. cbn in Ha |- *. intuition (subst; auto 20).
      * destruct (one_of "=+-*/><" a) eqn:Ha; [|discriminate].
        intro H; inversion H; subst. apply one_of_cases in Ha. cbn in Ha |- *.
        intuition (subst; auto 20).
  - unfold re_Delimiter, delimiters. destruct s as [|a r]; [discriminate|].
    destruct (one_of _ a) eqn:Ha; [|discriminate].
    intro H; inversion H; subst. apply one_of_cases in Ha. cbn in Ha |- *.
    intuition (subst; auto 20).
Qed.

Lemma first_match_shape s g value rest :
  first_match token_spec s = Some (g, value, rest) ->
  is_token_group g = true -> token_shape g value.
Proof.
  intros H Hg. apply first_match_In in H. destruct H as (re & Hin & Hre).
  eapply token_spec_shape; eassumption.
Qed.

(** Every token of a successful scan has the shape of one of the six token
    patterns. *)
Definition is_token (value : string) : Prop :=
  exists g, is_token_group g = true /\ token_shape g value.

Lemma tokenize_loop_shapes fuel : forall s line_num toks,
  tokenize_loop fuel s line_num = Ok toks -> Forall (fun t => is_token (fst t)) toks.
Proof.
  induction fuel as [|fuel IH]; intros s l toks H; [discriminate|].
  cbn [tokenize_loop] in H.
  destruct (first_match token_spec s) as [[[g value] rest]|] eqn:Hm.
  - pose proof (first_match_shape _ _ _ _ Hm) as Hshape.
    destruct g; try (eapply IH; exact H); try discriminate;
      destruct (tokenize_loop fuel rest (l + count_nl value)) as [toks'|e|] eqn:Hr;
      try discriminate; inversion H; subst;
      (constructor; [eexists; split; [|apply Hshape]; reflexivity | eapply IH; exact Hr]).
  - inversion H; subst. constructor.
Qed.

(* ---------------------------------------------------------------------- *)
(** *** Scanning a token again *)
(* ---------------------------------------------------------------------- *)

Lemma char_classes c :
  (re_digit c = true ->
   Ascii.eqb c dq_char = false /\ Ascii.eqb c "." = false /\ Ascii.eqb c "-" = false
   /\ re_space c = false /\ re_alpha c = false)
  /\ (re_alpha c = true ->
      Ascii.eqb c dq_char = false /\ Ascii.eqb c "." = false /\ Ascii.eqb c "-" = false
      /\ re_space c = false /\ re_digit c = false).
Proof.
  destruct c as [[] [] [] [] [] [] [] []]; vm_compute; split; intro H;
    try discriminate H; repeat split.
Qed.

(** The text after a token that keeps the token as it is: nothing, or a
    space. *)
Definition stops (rest : string) : Prop :=
  match rest with
  | EmptyString => True
  | String c _ => c = " "%char
  end.

Lemma stops_outside p rest : p " "%char = false -> stops rest -> starts_outside p rest.
Proof. intros Hp Hs. destruct rest as [|c r]; [exact I|]. cbn in Hs |- *. subst c. exact Hp. Qed.

Lemma re_StringLiteral_other c t :
  Ascii.eqb c dq_char = false -> re_StringLiteral (String c t) = None.
Proof. intro H. cbn [re_StringLiteral]. rewrite H. reflexivity. Qed.

Lemma re_Variable_other c t : Ascii.eqb c "." = false -> re_Variable (String c t) = None.
Proof. intro H. cbn [re_Variable]. rewrite H. reflexivity. Qed.

Lemma re_plus_other p c t : p c = false -> re_plus p (String c t) = None.
Proof. intro H. unfold re_plus. cbn [span]. rewrite H. reflexivity. Qed.

Lemma re_NumericLiteral_other c t :
  Ascii.eqb c "-" = false -> re_digit c = false -> re_NumericLiteral (String c t) = None.
Proof.
  intros H1 H2. cbn [re_NumericLiteral]. rewrite H1. apply re_plus_other. exact H2.
Qed.

Lemma re_NumericLiteral_minus t :
  starts_outside re_digit t -> re_NumericLiteral (String "-" t) = None.
Proof.
  intro H. cbn [re_NumericLiteral Ascii.eqb Bool.eqb]. unfold re_plus.
  destruct t as [|c t]; [reflexivity|]. cbn in H. cbn [span]. rewrite H. reflexivity.
Qed.

(** A text of the shape of a token pattern, followed by nothing or by a
    space, is taken whole by that pattern, and by no earlier one. *)
Lemma first_match_again g value rest :
  is_token_group g = true -> token_shape g value -> stops rest ->
  first_match token_spec (value ^^ rest) = Some (g, value, rest).
Proof.
  intros Hg Hshape Hstop. unfold token_spec. cbn [first_match].
  destruct g; try discriminate Hg; cbn [token_shape] in Hshape.
  - (* string literal *)
    destruct Hshape as (body & -> & Hbody).
    unfold dq. cbn [String.append]. rewrite append_assoc_s. cbn [String.append].
    cbn [re_StringLiteral]. rewrite Ascii.eqb_refl.
    change (fun x : ascii => negb (Ascii.eqb x dq_char)) with not_quote.
    rewrite (span_intro not_quote body (String dq_char rest) Hbody);
      [reflexivity | reflexivity].
  - (* variable *)
    destruct Hshape as (name & -> & Hne & Hname). cbn [String.append].
    rewrite re_StringLiteral_other by reflexivity.
    cbn [re_Variable Ascii.eqb Bool.eqb].
    rewrite (re_plus_intro re_word name rest Hne Hname);
      [reflexivity | apply stops_outside; [reflexivity | exact Hstop]].
  - (* numeric literal *)
    destruct Hshape as (digits & Hne & Hdigits & [-> | ->]).
    + destruct digits as [|d ds]; [contradiction|].
      pose proof Hdigits as Hd. cbn [all_chars] in Hd. apply andb_prop in Hd.
      destruct Hd as [Hd _]. destruct (proj1 (char_classes d) Hd) as (H1 & H2 & H3 & _).
      cbn [String.append].
      rewrite re_StringLiteral_other by exact H1.
      rewrite re_Variable_other by exact H2.
      cbn [re_NumericLiteral]. rewrite H3.
      change (String d (ds ^^ rest)) with (String d ds ^^ rest).
      rewrite (re_plus_intro re_digit (String d ds) rest Hne Hdigits);
        [reflexivity | apply stops_outside; [reflexivity | exact Hstop]].
    + cbn [String.append].
      rewrite re_StringLiteral_other by reflexivity.
      rewrite re_Variable_other by reflexivity.
      cbn [re_NumericLiteral Ascii.eqb Bool.eqb].
      rewrite (re_plus_intro re_digit digits rest Hne Hdigits);
        [reflexivity | apply stops_outside; [reflexivity | exact Hstop]].
  - (* keyword *)
    destruct Hshape as (Hne & Halpha).
    destruct value as [|a w]; [contradiction|].
    pose proof Halpha as Ha. cbn [all_chars] in Ha. apply andb_prop in Ha.
    destruct Ha as [Ha _]. destruct (proj2 (char_classes a) Ha) as (H1 & H2 & H3 & _ & H5).
    cbn [String.append].
    rewrite re_StringLiteral_other by exact H1.
    rewrite re_Variable_other by exact H2.
    rewrite re_NumericLiteral_other by assumption.
    unfold re_Keyword.
    change (String a (w ^^ rest)) with (String a w ^^ rest).
    rewrite (re_plus_intro re_alpha (String a w) rest Hne Halpha);
      [reflexivity | apply stops_outside; [reflexivity | exact Hstop]].
  - (* operator *)
    unfold operators in Hshape. cbn [In] in Hshape.
    destruct rest as [|c r]; [|cbn in Hstop; subst c];
      repeat (destruct Hshape as [<-|Hshape]; [vm_compute; reflexivity|]);
      contradiction.
  - (* delimiter *)
    unfold delimiters in Hshape. cbn [In] in Hshape.
    destruct rest as [|c r]; [|cbn in Hstop; subst c];
      repeat (destruct Hshape as [<-|Hshape]; [vm_compute; reflexivity|]);
      contradiction.
Qed.

Lemma token_first_char g value :
  is_token_group g = true -> token_shape g value ->
  exists c t, value = String c t /\ re_space c = false.
Proof.
  intros Hg Hshape. destruct g; try discriminate Hg; cbn [token_shape] in Hshape.
  - destruct Hshape as (body & -> & _). eexists _, _. split; reflexivity.
  - destruct Hshape as (name & -> & _). eexists _, _. split; reflexivity.
  - destruct Hshape as (digits & Hne & Hdigits & [-> | ->]).
    + destruct digits as [|d ds]; [contradiction|]. exists d, ds. split; [reflexivity|].
      cbn [all_chars] in Hdigits. apply andb_prop in Hdigits.
      apply (proj1 (char_classes d)), Hdigits.
    + eexists _, _. split; reflexivity.
  - destruct Hshape as (Hne & Halpha). destruct value as [|a w]; [contradiction|].
    exists a, w. split; [reflexivity|].
    cbn [all_chars] in Halpha. apply andb_prop in Halpha.
    apply (proj2 (char_classes a)), Halpha.
  - unfold operators in Hshape. cbn [In] in Hshape.
    repeat (destruct Hshape as [<-|Hshape]; [eexists _, _; split; reflexivity|]).
    contradiction.
  - unfold delimiters in Hshape. cbn [In] in Hshape.
    repeat (destruct Hshape as [<-|Hshape]; [eexists _, _; split; reflexivity|]).
    contradiction.
Qed.

Lemma tokenize_loop_token fuel s line_num g value rest :
  is_token_group g = true ->
  first_match token_spec s = Some (g, value, rest) ->
  tokenize_loop (S fuel) s line_num
  = match tokenize_loop fuel rest (line_num + count_nl value) with
    | Ok toks => Ok ((value, line_num) :: toks)
    | Raise e => Raise e
    | OutOfFuel => OutOfFuel
    end.
Proof.
  intros Hg Hm. cbn [tokenize_loop]. rewrite Hm.
  destruct g; try discriminate Hg; reflexivity.
Qed.

Lemma first_match_space c t :
  re_space c = false ->
  first_match token_spec (String " " (String c t))
  = Some (GWhitespace, String " " EmptyString, String c t).
Proof.
  intro Hc. unfold token_spec. cbn [first_match].
  rewrite re_StringLiteral_other by reflexivity.
  rewrite re_Variable_other by reflexivity.
  rewrite re_NumericLiteral_other by reflexivity.
  unfold re_Keyword. rewrite re_plus_other by reflexivity.
  cbn [re_Operator re_Delimiter].
  replace (one_of "=!><" " " && Ascii.eqb c "=") with false by reflexivity.
  replace (one_of "=+-*/><" " ") with false by reflexivity.
  replace (one_of ":{};" " ") with false by reflexivity.
  unfold re_Whitespace, re_plus. cbn [span].
  replace (re_space " ") with true by reflexivity. rewrite Hc. reflexivity.
Qed.

Lemma concat_first_char v vs c t :
  v = String c t -> exists t', String.concat " " (v :: vs) = String c t'.
Proof.
  intros ->. destruct vs as [|v2 vs]; cbn [String.concat String.append]; eexists; reflexivity.
Qed.

Lemma tokenize_loop_words vs :
  Forall is_token vs ->
  forall fuel line_num,
    String.length (String.concat " " vs) < fuel ->
    exists toks, tokenize_loop fuel (String.concat " " vs) line_num = Ok toks
                 /\ map fst toks = vs.
Proof.
  induction 1 as [|v vs (g & Hg & Hshape) Hvs IH]; intros fuel l Hfuel.
  - destruct fuel as [|fuel]; [lia|]. exists []. split; reflexivity.
  - destruct (token_first_char g v Hg Hshape) as (c & t & Hv & Hc).
    destruct fuel as [|fuel]; [lia|].
    destruct vs as [|v2 vs].
    + cbn [String.concat] in Hfuel |- *.
      replace (tokenize_loop (S fuel) v l)
        with (tokenize_loop (S fuel) (v ^^ EmptyString) l)
        by (rewrite append_nil_r_s; reflexivity).
      rewrite (tokenize_loop_token fuel _ l g v EmptyString Hg
                 (first_match_again g v EmptyString Hg Hshape I)).
      destruct fuel as [|fuel]; [subst v; cbn [String.length] in Hfuel; lia|].
      exists [(v, l)]. split; reflexivity.
    + inversion Hvs as [|? ? (g2 & Hg2 & Hshape2) _]; subst.
      destruct (token_first_char g2 v2 Hg2 Hshape2) as (c2 & t2 & Hv2 & Hc2).
      destruct (concat_first_char v2 vs c2 t2 Hv2) as (t' & Hrest).
      change (String.concat " " (String c t :: v2 :: vs))
        with (String c t ^^ String " " (String.concat " " (v2 :: vs))) in Hfuel |- *.
      rewrite length_append_s in Hfuel. cbn [String.length] in Hfuel.
      rewrite (tokenize_loop_token fuel _ l g (String c t) _ Hg
                 (first_match_again g (String c t)
                    (String " " (String.concat " " (v2 :: vs))) Hg Hshape eq_refl)).
      destruct fuel as [|fuel]; [lia|].
      cbn [tokenize_loop]. rewrite Hrest, (first_match_space c2 t' Hc2). rewrite <- Hrest.
      destruct (IH fuel (l + count_nl (String c t) + count_nl (String " " EmptyString)))
        as (toks & Htoks & Hmap); [lia|].
      rewrite Htoks. exists ((String c t, l) :: toks). split; [reflexivity|].
      cbn [map fst]. rewrite Hmap. reflexivity.
Qed.

(** X3.  Scanning again: the lexemes of a successful scan, written out
    with one space between them, scan to the same lexemes in the same
    order. *)
Theorem X3_tokens_scan_again :
  forall src toks,
    tokenize_loop (S (String.length src)) src 1 = Ok toks ->
    let text := String.concat " " (map fst toks) in
    exists toks',
      tokenize_loop (S (String.length text)) text 1 = Ok toks'
      /\ map fst toks' = map fst toks.
Proof.
  intros src toks H text.
  apply tokenize_loop_words; [|unfold text; lia].
  apply tokenize_loop_shapes in H. apply Forall_map. exact H.
Qed.

(* ====================================================================== *)
(** ** 14. The classifier on scanned tokens *)
(* ====================================================================== *)

Lemma all_digits_isdigit digits :
  all_chars re_digit digits = true -> all_chars isdigit_char digits = true.
Proof.
  induction digits as [|d ds IH]; cbn [all_chars]; [reflexivity|].
  intro H. apply andb_prop in H. destruct H as [Hd Hds].
  rewrite (IH Hds). unfold isdigit_char. rewrite Hd. reflexivity.
Qed.

(** The category stage 2 gives a token, by the pattern that took it; a
    keyword-pattern token is looked up in [KEYWORDS]. *)
Lemma categorize_one_shape g value ln :
  is_token_group g = true -> token_shape g value ->
  categorize_one value ln
  = match g with
    | GStringLiteral => Ok (PstRow_init value StringLiteral ln)
    | GVariable => Ok (PstRow_init value Variable_ ln)
    | GNumericLiteral => Ok (PstRow_init value NumericLiteral ln)
    | GOperator => Ok (PstRow_init value Operator ln)
    | GDelimiter => Ok (PstRow_init value Delimiter ln)
    | _ => match dict_get value KEYWORDS with
           | Some category => Ok (PstRow_init value category ln)
           | None => Raise (CompilationError ("Unknown symbol '" ^^ value ^^ "'") ln)
           end
    end.
Proof.
  intros Hg Hshape. destruct g; try discriminate Hg; cbn [token_shape] in Hshape.
  - destruct Hshape as (body & -> & _). reflexivity.
  - destruct Hshape as (name & -> & _). reflexivity.
  - destruct Hshape as (digits & Hne & Hdigits & [-> | ->]).
    + destruct digits as [|d ds]; [contradiction|].
      pose proof (all_digits_isdigit _ Hdigits) as Hall.
      cbn [all_chars] in Hdigits. apply andb_prop in Hdigits. destruct Hdigits as [Hd _].
      destruct (proj1 (char_classes d) Hd) as (_ & H2 & _).
      unfold categorize_one. cbn [startswith]. rewrite H2.
      unfold isdigit at 1. rewrite Hall. reflexivity.
    + pose proof (all_digits_isdigit _ Hdigits) as Hall.
      unfold categorize_one. cbn [startswith tail Ascii.eqb Bool.eqb].
      assert (Hd : isdigit digits = true).
      { destruct digits; [contradiction | exact Hall]. }
      rewrite Hd, orb_true_r. reflexivity.
  - destruct Hshape as (Hne & Halpha). destruct value as [|a w]; [contradiction|].
    cbn [all_chars] in Halpha. apply andb_prop in Halpha. destruct Halpha as [Ha _].
    destruct (proj2 (char_classes a) Ha) as (H1 & H2 & H3 & _ & H5).
    unfold categorize_one. cbn [startswith]. rewrite H1, H2, H3.
    assert (Hsup : isdigit_char a = false).
    { clear - Ha. destruct a as [[] [] [] [] [] [] [] []]; vm_compute in Ha |- *;
        try reflexivity; discriminate Ha. }
    unfold isdigit. cbn [all_chars]. rewrite Hsup. reflexivity.
  - unfold operators in Hshape. cbn [In] in Hshape.
    repeat (destruct Hshape as [<-|Hshape]; [reflexivity|]). contradiction.
  - unfold delimiters in Hshape. cbn [In] in Hshape.
    repeat (destruct Hshape as [<-|Hshape]; [reflexivity|]). contradiction.
Qed.

(** The lexemes [KEYWORDS] gives each category. *)
Definition keyword_shape (c : Category) (value : string) : Prop :=
  match c with
  | Type_ => value = "num"
  | Mutability => value = "let" \/ value = "fix"
  | Control => In value ["when"; "other"; "loop"; "stop"]
  | Io => value = "print"
  | Operator => In value operators
  | Delimiter => In value delimiters
  | Variable_ | NumericLiteral | StringLiteral => False
  end.

Lemma KEYWORDS_lookup value c : dict_get value KEYWORDS = Some c -> keyword_shape c value.
Proof.
  unfold KEYWORDS. cbn [dict_get].
  repeat match goal with
         | |- context [String.eqb value ?s] => destruct (String.eqb_spec value s)
         end;
    intro H; inversion H; subst; cbn; auto 20.
Qed.

(** The lexeme of a row, by its category: a sigil and a name; an optional
    minus and digits; a quoted text with no quote inside; or the keyword,
    operator or delimiter that [KEYWORDS] lists under the category. *)
Definition row_shape (row : PstRow) : Prop :=
  match category row with
  | Variable_ => token_shape GVariable (lexeme row)
  | NumericLiteral => token_shape GNumericLiteral (lexeme row)
  | StringLiteral => token_shape GStringLiteral (lexeme row)
  | c => keyword_shape c (lexeme row)
  end.

Lemma categorize_one_token value ln :
  is_token value ->
  match categorize_one value ln with
  | Ok row => lexeme row = value /\ line row = ln /\ mem_location row = None /\ row_shape row
  | Raise e =>
      e = CompilationError ("Unknown symbol '" ^^ value ^^ "'") ln
      /\ value <> EmptyString /\ all_chars re_alpha value = true
      /\ dict_get value KEYWORDS = None
  | OutOfFuel => False
  end.
Proof.
  intros (g & Hg & Hshape). rewrite (categorize_one_shape g value ln Hg Hshape).
  destruct g; try discriminate Hg; unfold row_shape; cbn [lexeme category line mem_location
                                                           PstRow_init]; auto.
  destruct (dict_get value KEYWORDS) as [c|] eqn:Hk.
  - apply KEYWORDS_lookup in Hk. cbn [lexeme category line mem_location PstRow_init].
    repeat split. destruct c; try exact Hk; contradiction.
  - cbn [token_shape] in Hshape. tauto.
Qed.

Lemma categorize_loop_tokens toks :
  Forall (fun t => is_token (fst t)) toks ->
  match categorize_loop toks with
  | Ok rows =>
      map lexeme rows = map fst toks /\ map line rows = map snd toks
      /\ Forall (fun r => mem_location r = None) rows /\ Forall row_shape rows
  | Raise e =>
      exists word ln,
        In (word, ln) toks
        /\ e = CompilationError ("Unknown symbol '" ^^ word ^^ "'") ln
        /\ word <> EmptyString /\ all_chars re_alpha word = true
        /\ dict_get word KEYWORDS = None
  | OutOfFuel => False
  end.
Proof.
  induction 1 as [|[value ln] toks Htok Htoks IH]; cbn [categorize_loop].
  - repeat split; constructor.
  - pose proof (categorize_one_token value ln Htok) as H1.
    destruct (categorize_one value ln) as [row|e|]; [| |contradiction].
    + destruct H1 as (Hl & Hln & Hm & Hs).
      destruct (categorize_loop toks) as [rows|e|]; [| |contradiction].
      * destruct IH as (I1 & I2 & I3 & I4). cbn [map fst snd].
        rewrite Hl, Hln, I1, I2. repeat split; constructor; assumption.
      * destruct IH as (w & l & Hin & He). exists w, l. split; [right|]; assumption.
    + exists value, ln. split; [left; reflexivity | exact H1].
Qed.

(** X4.  Stage 2 on the tokens of a successful scan: when it fails, the
    unknown symbol is a token made of letters only that is not a key of
    [KEYWORDS]; no variable, number, string, operator or delimiter token is
    ever refused. *)
Theorem X4_unknown_symbol_is_a_word :
  forall src toks e,
    tokenize_loop (S (String.length src)) src 1 = Ok toks ->
    categorize_loop toks = Raise e ->
    exists word ln,
      In (word, ln) toks
      /\ e = CompilationError ("Unknown symbol '" ^^ word ^^ "'") ln
      /\ word <> EmptyString
      /\ all_chars re_alpha word = true
      /\ dict_get word KEYWORDS = None.
Proof.
  intros src toks e Htok Hcat.
  pose proof (categorize_loop_tokens toks (tokenize_loop_shapes _ _ _ _ Htok)) as H.
  rewrite Hcat in H. exact H.
Qed.

(** X5.  The rows stage 2 appends for a scanned source are the tokens in
    order, with their lexemes and lines, no storage location yet, and a
    category that fixes the form of the lexeme: a variable is the sigil and
    a name, a numeric literal an optional minus and decimal digits, a string
    literal a quoted text with no quote inside, and every other row one of
    the keywords, operators and delimiters of its category. *)
Theorem X5_rows_of_scanned_tokens :
  forall src toks rows,
    tokenize_loop (S (String.length src)) src 1 = Ok toks ->
    categorize_loop toks = Ok rows ->
    map lexeme rows = map fst toks
    /\ map line rows = map snd toks
    /\ Forall (fun r => mem_location r = None) rows
    /\ Forall row_shape rows.
Proof.
  intros src toks rows Htok Hcat.
  pose proof (categorize_loop_tokens toks (tokenize_loop_shapes _ _ _ _ Htok)) as H.
  rewrite Hcat in H. exact H.
Qed.

(* ====================================================================== *)
(** ** 15. Numbers in labels and storage slots *)
(* ====================================================================== *)

Lemma to_uint_not_nil n : Nat.to_uint n <> Decimal.Nil.
Proof.
  pose proof (DecimalNat.Unsigned.to_of (Nat.to_uint n)) as H.
  rewrite DecimalNat.Unsigned.of_to in H. rewrite H. unfold Decimal.unorm.
  destruct (Decimal.nzhead (Nat.to_uint n)); discriminate.
Qed.

(** [str] of an int determines the int. *)
Lemma str_of_nat_inj n m : str_of_nat n = str_of_nat m -> n = m.
Proof.
  unfold str_of_nat. intro H.
  apply DecimalNat.Unsigned.to_uint_inj.
  pose proof (NilZero.usu _ (to_uint_not_nil n)) as Hn.
  pose proof (NilZero.usu _ (to_uint_not_nil m)) as Hm.
  rewrite H in Hn. rewrite Hn in Hm. inversion Hm. reflexivity.
Qed.

Lemma append_cancel_r (a b c : string) : a ^^ c = b ^^ c -> a = b.
Proof.
  revert b. induction a as [|x a IH]; intros [|y b] H.
  - reflexivity.
  - apply (f_equal String.length) in H. cbn [String.append String.length] in H.
    rewrite length_append_s in H. lia.
  - apply (f_equal String.length) in H. cbn [String.append String.length] in H.
    rewrite length_append_s in H. lia.
  - cbn [String.append] in H. inversion H; subst. f_equal. apply IH. assumption.
Qed.

(** The storage location of the [k]-th declared variable, [k] from 1. *)
Definition slot (k : nat) : string := "-" ^^ str_of_nat (8 * k) ^^ "(%rbp)".

Lemma slot_inj a b : slot a = slot b -> a = b.
Proof.
  unfold slot. cbn [String.append]. intro H. inversion H as [H1].
  apply append_cancel_r, str_of_nat_inj in H1. lia.
Qed.

(** The symbol table as the analysis keeps it: eight bytes of frame per
    entry, distinct names, and the [i]-th entry at slot [i + 1]. *)
Definition table_ok (self : Compiler) : Prop :=
  stack_size self = 8 * length (symbol_table self)
  /\ NoDup (map fst (symbol_table self))
  /\ forall i k v, nth_error (symbol_table self) i = Some (k, v) ->
                   mem_location v = Some (slot (i + 1)).

(** A variable row carries the slot of the entry of its name. *)
Definition resolved_in (table : dict PstRow) (row : PstRow) : Prop :=
  category row = Variable_ ->
  exists i v, nth_error table i = Some (lexeme row, v)
              /\ mem_location row = Some (slot (i + 1)).

Lemma resolved_in_app table added row :
  resolved_in table row -> resolved_in (table ++ added) row.
Proof.
  intros H Hc. destruct (H Hc) as (i & v & Hn & Hm). exists i, v. split; [|exact Hm].
  rewrite nth_error_app1; [exact Hn|]. apply nth_error_Some. rewrite Hn. discriminate.
Qed.

Lemma dict_get_nth {V} k (d : dict V) v :
  dict_get k d = Some v -> exists i, nth_error d i = Some (k, v).
Proof.
  induction d as [|[k' v'] d IH]; cbn [dict_get]; [discriminate|].
  destruct (String.eqb_spec k k') as [->|].
  - intro H; inversion H; subst. exists 0. reflexivity.
  - intro H. destruct (IH H) as (i & Hi). exists (S i). exact Hi.
Qed.

Definition resolves_post (self : Compiler) (rows' : list PstRow) (self' : Compiler) : Prop :=
  table_ok self'
  /\ (exists added, symbol_table self' = symbol_table self ++ added)
  /\ Forall (resolved_in (symbol_table self')) rows'.

Lemma resolves_post_cons self self1 row' rest' self' :
  symbol_table self1 = symbol_table self ->
  resolved_in (symbol_table self1) row' ->
  resolves_post self1 rest' self' ->
  resolves_post self (row' :: rest') self'.
Proof.
  intros Ht Hr (Hok & (added & Hadd) & Hrest).
  split; [exact Hok|]. split; [exists added; rewrite Hadd, Ht; reflexivity|].
  constructor; [|exact Hrest]. rewrite Hadd. apply resolved_in_app. exact Hr.
Qed.

Lemma analyze_loop_resolves rows : forall self,
  Forall row_shape rows -> table_ok self ->
  sat (analyze_loop rows) self (resolves_post self) (fun _ => True).
Proof.
  induction rows as [|row rest IH] using rows_ind; intros self Hshape Hok.
  - apply sat_ret. split; [exact Hok|]. split; [|constructor].
    exists []. rewrite app_nil_r. reflexivity.
  - inversion Hshape as [|? ? Hrow Hrest]; subst.
    assert (Hskip : forall self1 row',
               symbol_table self1 = symbol_table self ->
               stack_size self1 = stack_size self ->
               resolved_in (symbol_table self1) row' ->
               sat (rest' <- analyze_loop rest ;; ret (row' :: rest')) self1
                   (resolves_post self) (fun _ => True)).
    { intros self1 row' Ht Hs Hr. apply sat_bind.
      eapply sat_weaken; [apply IH; [lia | exact Hrest |] | | auto].
      - unfold table_ok. rewrite Ht, Hs. exact Hok.
      - intros rest' self2 Hp. apply sat_ret.
        eapply resolves_post_cons; eassumption. }
    cbn [analyze_loop].
    destruct (category row) eqn:Hc;
      try (apply Hskip; [reflexivity | reflexivity | intro Hv; congruence]).
    + (* a use of a variable *)
      apply sat_bind, sat_get.
      destruct (dict_get (lexeme row) (symbol_table self)) as [decl|] eqn:Hget;
        [|apply sat_raise; exact I].
      apply Hskip; [reflexivity | reflexivity|].
      intros _. destruct (dict_get_nth _ _ _ Hget) as (i & Hi).
      exists i, decl. split; [exact Hi|].
      destruct Hok as (_ & _ & Hslots). apply (Hslots i _ _ Hi).
    + (* a string literal *)
      apply sat_bind, sat_get. apply sat_bind.
      destruct (negb (dict_mem (lexeme row) (string_literals self))).
      * apply sat_bind, sat_get_unique_label, sat_modify.
        apply Hskip; [reflexivity | reflexivity | intro Hv; congruence].
      * apply sat_ret. apply Hskip; [reflexivity | reflexivity | intro Hv; congruence].
    + (* a declaration *)
      destruct rest as [|var [|colon [|type_kw [|semi rest']]]];
        try (apply sat_raise; exact I).
      destruct (Category_eqb (category var) Variable_
                && String.eqb (lexeme colon) ":"
                && Category_eqb (category type_kw) Type_
                && String.eqb (lexeme semi) ";") eqn:Hdecl; cbn [negb];
        [|apply sat_raise; exact I].
      apply andb_prop in Hdecl. destruct Hdecl as [Hdecl Hsemi].
      apply andb_prop in Hdecl. destruct Hdecl as [Hdecl Htype].
      apply andb_prop in Hdecl. destruct Hdecl as [Hvar Hcolon].
      apply Category_eqb_eq in Hvar, Htype. apply String.eqb_eq in Hcolon, Hsemi.
      inversion Hrest as [|? ? Svar Hr1]; subst.
      inversion Hr1 as [|? ? Scolon Hr2]; subst.
      inversion Hr2 as [|? ? Stype Hr3]; subst.
      inversion Hr3 as [|? ? Ssemi Hr4]; subst.
      apply sat_bind, sat_get.
      destruct (dict_mem (lexeme var) (symbol_table self)) eqn:Hmem;
        [apply sat_raise; exact I|].
      apply dict_mem_false in Hmem.
      apply sat_bind, sat_modify. apply sat_bind, sat_get.
      apply sat_bind, sat_modify. apply sat_bind.
      cbn [stack_size set_stack_size symbol_table set_symbol_table].
      rewrite (dict_set_absent _ _ _ Hmem).
      destruct Hok as (Hsize & Hnodup & Hslots).
      set (var' := set_mem_location var _).
      assert (Hvar' : mem_location var' = Some (slot (length (symbol_table self) + 1))).
      { unfold var', slot. cbn [mem_location set_mem_location]. rewrite Hsize.
        replace (8 * (length (symbol_table self) + 1))
          with (8 * length (symbol_table self) + 8) by lia.
        reflexivity. }
      eapply sat_weaken; [apply IH; [cbn [length]; lia | exact Hr4 |] | | auto].
      * split; [|split].
        -- cbn [stack_size symbol_table set_stack_size set_symbol_table].
           rewrite length_app, Hsize. cbn [length]. lia.
        -- cbn [symbol_table set_symbol_table]. rewrite map_app. cbn [map fst].
           apply NoDup_app; [exact Hnodup | repeat constructor; auto |].
           intros k Hk [<-|[]]. apply dict_get_None in Hmem. contradiction.
        -- cbn [symbol_table set_symbol_table]. intros i k v Hi.
           destruct (Nat.lt_ge_cases i (length (symbol_table self))) as [Hlt|Hge].
           ++ rewrite nth_error_app1 in Hi by exact Hlt. apply (Hslots i k v Hi).
           ++ rewrite nth_error_app2 in Hi by exact Hge.
              destruct (i - length (symbol_table self)) as [|j] eqn:Hj;
                [|destruct j; discriminate Hi].
              cbn in Hi. inversion Hi; subst.
              replace i with (length (symbol_table self)) by lia. exact Hvar'.
      * intros rest'' self2 (Hok2 & (added & Hadd) & Hres). apply sat_ret.
        cbn [symbol_table set_symbol_table] in Hadd.
        split; [exact Hok2|].
        split; [exists ((lexeme var, var') :: added); rewrite Hadd, <- app_assoc; reflexivity|].
        assert (Hnot : forall r, row_shape r -> (lexeme r = ":" \/ lexeme r = ";") ->
                                 category r <> Variable_).
        { intros r Hr Hl Hv. unfold row_shape in Hr. rewrite Hv in Hr.
          destruct Hr as (name & Hname & _). destruct Hl as [Hl|Hl]; rewrite Hl in Hname;
            discriminate Hname. }
        repeat constructor; try exact Hres.
        -- intro Hv. congruence.
        -- intros _. exists (length (symbol_table self)), var'.
           split; [|exact Hvar'].
           rewrite Hadd, <- app_assoc, nth_error_app2 by lia.
           rewrite Nat.sub_diag. reflexivity.
        -- intro Hv. exfalso. apply (Hnot colon Scolon); auto.
        -- intro Hv. congruence.
        -- intro Hv. exfalso. apply (Hnot semi Ssemi); auto.
Qed.

Lemma table_ok_categorized_state src toks rows : table_ok (categorized_state src toks rows).
Proof.
  split; [reflexivity|]. split; [constructor|].
  intros [|i] k v H; discriminate H.
Qed.

Lemma align16_ge n : n <= align16 n.
Proof.
  unfold align16. destruct (negb (Nat.eqb (n mod 16) 0)); lia.
Qed.

(** X6. In a program whose analysis succeeds, every use of a variable
    carries the storage location of its declaration: the [k]-th declared
    name (from 1) is at [-8k(%rbp)], inside the frame the prologue
    reserves, and two variable rows have the same location exactly when
    they have the same name. *)
Theorem X6_variables_have_their_own_slot :
  forall src toks rows rows' self3,
    tokenize_loop (S (String.length src)) src 1 = Ok toks ->
    categorize_loop toks = Ok rows ->
    analyze_loop rows (categorized_state src toks rows) = Ok (rows', self3) ->
    NoDup (map fst (symbol_table self3))
    /\ (forall r, In r rows' -> category r = Variable_ ->
                  exists k, nth_error (map fst (symbol_table self3)) k = Some (lexeme r)
                            /\ mem_location r = Some (slot (k + 1))
                            /\ 8 * (k + 1) <= stack_size (analyzed_state rows' self3))
    /\ (forall r1 r2, In r1 rows' -> In r2 rows' ->
                      category r1 = Variable_ -> category r2 = Variable_ ->
                      (mem_location r1 = mem_location r2 <-> lexeme r1 = lexeme r2)).
Proof.
  intros src toks rows rows' self3 Htok Hcat Han.
  pose proof (categorize_loop_tokens toks (tokenize_loop_shapes _ _ _ _ Htok)) as Hrows.
  rewrite Hcat in Hrows. destruct Hrows as (_ & _ & _ & Hshape).
  pose proof (analyze_loop_resolves rows (categorized_state src toks rows) Hshape
                (table_ok_categorized_state src toks rows)) as H.
  unfold sat in H. rewrite Han in H.
  destruct H as ((Hsize & Hnodup & Hslots) & _ & Hres).
  rewrite Forall_forall in Hres.
  split; [exact Hnodup|]. split.
  - intros r Hr Hv. destruct (Hres r Hr Hv) as (k & v & Hk & Hm). exists k.
    split; [rewrite nth_error_map, Hk; reflexivity|]. split; [exact Hm|].
    assert (Hlt : k < length (symbol_table self3))
      by (apply nth_error_Some; rewrite Hk; discriminate).
    unfold analyzed_state. cbn [stack_size set_stack_size set_pst].
    pose proof (align16_ge (stack_size self3)). lia.
  - intros r1 r2 Hr1 Hr2 Hv1 Hv2.
    destruct (Hres r1 Hr1 Hv1) as (k1 & v1 & Hk1 & Hm1).
    destruct (Hres r2 Hr2 Hv2) as (k2 & v2 & Hk2 & Hm2).
    rewrite Hm1, Hm2. split.
    + intro H. assert (Hs : slot (k1 + 1) = slot (k2 + 1)) by congruence.
      apply slot_inj in Hs. assert (k1 = k2) by lia. subst k2. rewrite Hk1 in Hk2. congruence.
    + intro Hl. assert (k1 = k2); [|subst; reflexivity].
      apply (proj1 (NoDup_nth_error (map fst (symbol_table self3))) Hnodup).
      * rewrite length_map. apply nth_error_Some. rewrite Hk1. discriminate.
      * rewrite !nth_error_map, Hk1, Hk2. cbn. rewrite Hl. reflexivity.
Qed.

(* ====================================================================== *)
(** ** 16. Labels *)
(* ====================================================================== *)

(** The label [_get_unique_label] builds from a prefix and a count. *)
Definition label_of (prefix : string) (n : nat) : string :=
  ".L_" ^^ prefix ^^ "_" ^^ str_of_nat n.

Lemma string_of_uint_digits d : all_chars re_digit (NilEmpty.string_of_uint d) = true.
Proof. induction d; cbn [NilEmpty.string_of_uint all_chars]; auto. Qed.

Lemma str_of_nat_digits n : all_chars re_digit (str_of_nat n) = true.
Proof.
  unfold str_of_nat, NilZero.string_of_uint.
  destruct (Nat.to_uint n) eqn:E; try (rewrite <- E; apply string_of_uint_digits).
  reflexivity.
Qed.

Lemma underscore_not_digits a s : all_chars re_digit (a ^^ String "_" s) = false.
Proof.
  induction a as [|c a IH]; [reflexivity|].
  cbn [String.append all_chars] in IH |- *. rewrite IH. apply andb_false_r.
Qed.

(** A text with an underscore and digits after it splits in one way. *)
Lemma label_split a : forall b s t,
  all_chars re_digit s = true -> all_chars re_digit t = true ->
  a ^^ "_" ^^ s = b ^^ "_" ^^ t -> a = b /\ s = t.
Proof.
  induction a as [|c a IH]; intros [|d b] s t Hs Ht H.
  - inversion H. auto.
  - exfalso. cbn [String.append] in H. injection H as Hc Hr.
    rewrite Hr, underscore_not_digits in Hs. discriminate Hs.
  - exfalso. cbn [String.append] in H. injection H as Hc Hr.
    rewrite <- Hr, underscore_not_digits in Ht. discriminate Ht.
  - cbn [String.append] in H. injection H as Hc Hr.
    destruct (IH b s t Hs Ht Hr) as [-> ->]. rewrite Hc. auto.
Qed.

Lemma label_of_inj p1 p2 n1 n2 : label_of p1 n1 = label_of p2 n2 -> p1 = p2 /\ n1 = n2.
Proof.
  unfold label_of. cbn [String.append]. intro H. inversion H as [H1].
  apply label_split in H1; try apply str_of_nat_digits.
  destruct H1 as [-> H1]. apply str_of_nat_inj in H1. auto.
Qed.

(** X7. Two labels drawn by [_get_unique_label], from any two states and
    with any two prefixes, are the same text exactly when the prefixes are
    the same and the counters were the same; each draw advances the
    counter by one, so labels drawn one after the other always differ. *)
Theorem X7_unique_labels :
  forall p1 p2 self1 self2 l1 l2 self1' self2',
    _get_unique_label p1 self1 = Ok (l1, self1') ->
    _get_unique_label p2 self2 = Ok (l2, self2') ->
    label_count self1' = label_count self1 + 1
    /\ (l1 = l2 <-> p1 = p2 /\ label_count self1 = label_count self2)
    /\ (label_count self1' <= label_count self2 -> l1 <> l2).
Proof.
  intros p1 p2 self1 self2 l1 l2 self1' self2' H1 H2.
  inversion H1; subst. inversion H2; subst.
  cbn [label_count set_label_count].
  fold (label_of p1 (label_count self1 + 1)). fold (label_of p2 (label_count self2 + 1)).
  split; [reflexivity|]. split; [split|].
  - intro H. apply label_of_inj in H. destruct H; split; [assumption | lia].
  - intros [-> ->]. reflexivity.
  - intros Hle H. apply label_of_inj in H. lia.
Qed.

(** The registered string constants as the analysis keeps them: as many as
    labels were drawn, the [i]-th under the label numbered [i + 1]. *)
Definition literals_ok (self : Compiler) : Prop :=
  label_count self = length (string_literals self)
  /\ forall i k v, nth_error (string_literals self) i = Some (k, v) ->
                   v = label_of "STR" (i + 1).

Definition registered (literals : dict string) (row : PstRow) : Prop :=
  category row = StringLiteral -> dict_mem (lexeme row) literals = true.

Lemma dict_get_app_l {V} k (d added : dict V) v :
  dict_get k d = Some v -> dict_get k (d ++ added) = Some v.
Proof.
  induction d as [|[k' v'] d IH]; cbn [dict_get app]; [discriminate|].
  destruct (String.eqb k k'); auto.
Qed.

Lemma dict_get_app_r {V} k (d : dict V) v :
  dict_get k d = None -> dict_get k (d ++ [(k, v)]) = Some v.
Proof.
  induction d as [|[k' v'] d IH]; cbn [dict_get app].
  - rewrite String.eqb_refl. reflexivity.
  - destruct (String.eqb k k'); [discriminate | exact IH].
Qed.

Lemma registered_app literals added row :
  registered literals row -> registered (literals ++ added) row.
Proof.
  unfold registered, dict_mem. intros H Hc. specialize (H Hc).
  destruct (dict_get (lexeme row) literals) eqn:Hg; [|discriminate H].
  rewrite (dict_get_app_l _ _ added _ Hg). reflexivity.
Qed.

Definition labels_post (self : Compiler) (rows' : list PstRow) (self' : Compiler) : Prop :=
  literals_ok self'
  /\ (exists added, string_literals self' = string_literals self ++ added)
  /\ Forall (registered (string_literals self')) rows'.

Lemma labels_post_cons self self1 row' rest' self' added1 :
  string_literals self1 = string_literals self ++ added1 ->
  registered (string_literals self1) row' ->
  labels_post self1 rest' self' ->
  labels_post self (row' :: rest') self'.
Proof.
  intros Ht Hr (Hok & (added & Hadd) & Hrest).
  split; [exact Hok|].
  split; [exists (added1 ++ added); rewrite Hadd, Ht, app_assoc; reflexivity|].
  constructor; [|exact Hrest]. rewrite Hadd. apply registered_app. exact Hr.
Qed.

Lemma analyze_loop_labels rows : forall self,
  Forall row_shape rows -> literals_ok self ->
  sat (analyze_loop rows) self (labels_post self) (fun _ => True).
Proof.
  induction rows as [|row rest IH] using rows_ind; intros self Hshape Hok.
  - apply sat_ret. split; [exact Hok|]. split; [|constructor].
    exists []. rewrite app_nil_r. reflexivity.
  - inversion Hshape as [|? ? Hrow Hrest]; subst.
    assert (Hnot : forall r, row_shape r -> (lexeme r = ":" \/ lexeme r = ";") ->
                             category r <> StringLiteral).
    { intros r Hr Hl Hv. unfold row_shape in Hr. rewrite Hv in Hr.
      destruct Hl as [Hl|Hl]; rewrite Hl in Hr; cbn in Hr;
        destruct Hr as (body & Hb & _); discriminate Hb. }
    assert (Hskip : forall self1 row',
               string_literals self1 = string_literals self ->
               label_count self1 = label_count self ->
               registered (string_literals self1) row' ->
               sat (rest' <- analyze_loop rest ;; ret (row' :: rest')) self1
                   (labels_post self) (fun _ => True)).
    { intros self1 row' Ht Hs Hr. apply sat_bind.
      eapply sat_weaken; [apply IH; [lia | exact Hrest |] | | auto].
      - unfold literals_ok. rewrite Ht, Hs. exact Hok.
      - intros rest' self2 Hp. apply sat_ret.
        apply (labels_post_cons self self1 row' rest' self2 []);
          [rewrite app_nil_r; exact Ht | exact Hr | exact Hp]. }
    cbn [analyze_loop].
    destruct (category row) eqn:Hc;
      try (apply Hskip; [reflexivity | reflexivity | intro Hv; congruence]).
    + (* a use of a variable *)
      apply sat_bind, sat_get.
      destruct (dict_get (lexeme row) (symbol_table self)) as [decl|];
        [|apply sat_raise; exact I].
      apply Hskip; [reflexivity | reflexivity|].
      intro Hv. cbn [category set_mem_location] in Hv. congruence.
    + (* a string literal *)
      apply sat_bind, sat_get. apply sat_bind.
      destruct (dict_mem (lexeme row) (string_literals self)) eqn:Hmem; cbn [negb].
      * apply sat_ret. apply Hskip; [reflexivity | reflexivity | intros _; exact Hmem].
      * apply dict_mem_false in Hmem.
        apply sat_bind, sat_get_unique_label, sat_modify.
        apply sat_bind.
        cbn [string_literals set_string_literals set_label_count].
        rewrite (dict_set_absent _ _ _ Hmem).
        destruct Hok as (Hcount & Hlabels).
        eapply sat_weaken; [apply IH; [lia | exact Hrest |] | | auto].
        -- split.
           ++ cbn [label_count string_literals set_string_literals set_label_count].
              rewrite length_app, Hcount. reflexivity.
           ++ cbn [string_literals set_string_literals set_label_count]. intros i k v Hi.
              destruct (Nat.lt_ge_cases i (length (string_literals self))) as [Hlt|Hge].
              ** rewrite nth_error_app1 in Hi by exact Hlt. apply (Hlabels i k v Hi).
              ** rewrite nth_error_app2 in Hi by exact Hge.
                 destruct (i - length (string_literals self)) as [|j] eqn:Hj;
                   [|destruct j; discriminate Hi].
                 cbn in Hi. inversion Hi; subst.
                 replace i with (length (string_literals self)) by lia.
                 rewrite Hcount. reflexivity.
        -- intros rest' self2 Hp. apply sat_ret.
           eapply labels_post_cons; [| |exact Hp].
           ++ cbn [string_literals set_string_literals set_label_count]. reflexivity.
           ++ intros _. cbn [string_literals set_string_literals set_label_count].
              unfold dict_mem. rewrite (dict_get_app_r _ _ _ Hmem). reflexivity.
    + (* a declaration *)
      destruct rest as [|var [|colon [|type_kw [|semi rest']]]];
        try (apply sat_raise; exact I).
      destruct (Category_eqb (category var) Variable_
                && String.eqb (lexeme colon) ":"
                && Category_eqb (category type_kw) Type_
                && String.eqb (lexeme semi) ";") eqn:Hdecl; cbn [negb];
        [|apply sat_raise; exact I].
      apply andb_prop in Hdecl. destruct Hdecl as [Hdecl Hsemi].
      apply andb_prop in Hdecl. destruct Hdecl as [Hdecl Htype].
      apply andb_prop in Hdecl. destruct Hdecl as [Hvar Hcolon].
      apply Category_eqb_eq in Hvar, Htype. apply String.eqb_eq in Hcolon, Hsemi.
      inversion Hrest as [|? ? Svar Hr1]; subst.
      inversion Hr1 as [|? ? Scolon Hr2]; subst.
      inversion Hr2 as [|? ? Stype Hr3]; subst.
      inversion Hr3 as [|? ? Ssemi Hr4]; subst.
      apply sat_bind, sat_get.
      destruct (dict_mem (lexeme var) (symbol_table self)); [apply sat_raise; exact I|].
      apply sat_bind, sat_modify. apply sat_bind, sat_get.
      apply sat_bind, sat_modify. apply sat_bind.
      eapply sat_weaken; [apply IH; [cbn [length]; lia | exact Hr4 | exact Hok] | | auto].
      intros rest'' self2 (Hok2 & (added & Hadd) & Hres). apply sat_ret.
      cbn [string_literals set_symbol_table set_stack_size] in Hadd.
      split; [exact Hok2|]. split; [exists added; exact Hadd|].
      repeat constructor; try exact Hres; intro Hv;
        try (cbn [category set_mem_location] in Hv; congruence).
      * exfalso. apply (Hnot colon Scolon); auto.
      * exfalso. apply (Hnot semi Ssemi); auto.
Qed.

Lemma literals_ok_categorized_state src toks rows :
  literals_ok (categorized_state src toks rows).
Proof. split; [reflexivity|]. intros [|i] k v H; discriminate H. Qed.

Lemma literals_ok_labels self :
  literals_ok self ->
  map snd (string_literals self)
  = map (label_of "STR") (seq 1 (length (string_literals self))).
Proof.
  intros (_ & Hlabels). apply nth_error_ext. intro i.
  rewrite !nth_error_map.
  destruct (nth_error (string_literals self) i) as [[k v]|] eqn:Hi.
  - assert (Hlt : i < length (string_literals self))
      by (apply nth_error_Some; rewrite Hi; discriminate).
    rewrite (nth_error_nth' _ 0) by (rewrite length_seq; exact Hlt).
    rewrite seq_nth by exact Hlt. cbn [option_map snd].
    rewrite (Hlabels i k v Hi). do 2 f_equal. lia.
  - apply nth_error_None in Hi.
    rewrite (proj2 (nth_error_None _ _)) by (rewrite length_seq; exact Hi). reflexivity.
Qed.

Lemma NoDup_map_inj {A B} (f : A -> B) l :
  (forall x y, f x = f y -> x = y) -> NoDup l -> NoDup (map f l).
Proof.
  intros Hf H. induction H as [|x l Hx Hl IH]; cbn [map]; constructor; [|exact IH].
  intro Hin. apply in_map_iff in Hin. destruct Hin as (y & Hy & Hin).
  apply Hf in Hy. subst y. contradiction.
Qed.

(** X8. After a successful analysis the string constants are registered
    under the labels [.L_STR_1], [.L_STR_2], ... in order of registration:
    the label counter equals their number, the labels are pairwise
    distinct, and every string-literal row of the program finds its text
    under one of them. *)
Theorem X8_string_constants_numbered :
  forall src toks rows rows' self3,
    tokenize_loop (S (String.length src)) src 1 = Ok toks ->
    categorize_loop toks = Ok rows ->
    analyze_loop rows (categorized_state src toks rows) = Ok (rows', self3) ->
    label_count self3 = length (string_literals self3)
    /\ map snd (string_literals self3)
       = map (label_of "STR") (seq 1 (length (string_literals self3)))
    /\ NoDup (map snd (string_literals self3))
    /\ forall r, In r rows' -> category r = StringLiteral ->
                 exists i, i < length (string_literals self3)
                           /\ dict_get (lexeme r) (string_literals self3)
                              = Some (label_of "STR" (i + 1)).
Proof.
  intros src toks rows rows' self3 Htok Hcat Han.
  pose proof (categorize_loop_tokens toks (tokenize_loop_shapes _ _ _ _ Htok)) as Hrows.
  rewrite Hcat in Hrows. destruct Hrows as (_ & _ & _ & Hshape).
  pose proof (analyze_loop_labels rows (categorized_state src toks rows) Hshape
                (literals_ok_categorized_state src toks rows)) as H.
  unfold sat in H. rewrite Han in H. destruct H as (Hok & _ & Hreg).
  pose proof (literals_ok_labels self3 Hok) as Hmap.
  destruct Hok as (Hcount & Hlabels).
  split; [exact Hcount|]. split; [exact Hmap|]. split.
  - rewrite Hmap. apply NoDup_map_inj; [|apply seq_NoDup].
    intros x y Hxy. apply label_of_inj in Hxy. tauto.
  - intros r Hr Hc. rewrite Forall_forall in Hreg. specialize (Hreg r Hr Hc).
    unfold dict_mem in Hreg.
    destruct (dict_get (lexeme r) (string_literals self3)) as [v|] eqn:Hg;
      [|discriminate Hreg].
    destruct (dict_get_nth _ _ _ Hg) as (i & Hi). exists i.
    split; [apply nth_error_Some; rewrite Hi; discriminate|].
    rewrite (Hlabels i _ _ Hi). reflexivity.
Qed.

(* ====================================================================== *)
(** ** 17. Block boundaries *)
(* ====================================================================== *)

(** How many rows of [rows] have the lexeme [s]. *)
Definition count_lexeme (s : string) (rows : list PstRow) : nat :=
  length (filter (fun r => String.eqb (lexeme r) s) rows).

Lemma scan_block_spec rest : forall i brace_count,
  0 < brace_count ->
  match scan_block rest i brace_count with
  | Some j =>
      exists m, j = i + m + 1
                /\ (exists r, nth_error rest m = Some r /\ lexeme r = "}")
                /\ count_lexeme "{" (firstn m rest) + brace_count
                   = count_lexeme "}" (firstn m rest) + 1
                /\ forall m', m' <= m ->
                              count_lexeme "}" (firstn m' rest)
                              < count_lexeme "{" (firstn m' rest) + brace_count
  | None =>
      forall m', count_lexeme "}" (firstn m' rest)
                 < count_lexeme "{" (firstn m' rest) + brace_count
  end.
Proof.
  unfold count_lexeme.
  induction rest as [|r rest IH]; intros i bc Hbc.
  - destruct bc as [|n]; [lia|]. cbn [scan_block]. intro m'.
    rewrite firstn_nil. cbn. lia.
  - destruct bc as [|n]; [lia|]. cbn [scan_block].
    destruct (String.eqb (lexeme r) "{") eqn:Ho.
    + assert (Hc : String.eqb (lexeme r) "}" = false).
      { apply String.eqb_eq in Ho. rewrite Ho. reflexivity. }
      specialize (IH (i + 1) (S n + 1) ltac:(lia)).
      destruct (scan_block rest (i + 1) (S n + 1)) as [j|].
      * destruct IH as (m & -> & Hr & Heq & Hpre). exists (S m).
        split; [lia|]. split; [exact Hr|].
        cbn [firstn filter]. rewrite Ho, Hc. cbn [length]. split; [lia|].
        intros [|m'] Hm'; cbn [firstn filter length]; [lia|].
        rewrite Ho, Hc. cbn [length]. specialize (Hpre m' ltac:(lia)). lia.
      * intros [|m']; cbn [firstn filter length]; [lia|].
        rewrite Ho, Hc. cbn [length]. specialize (IH m'). lia.
    + destruct (String.eqb (lexeme r) "}") eqn:Hc.
      * replace (S n - 1) with n by lia. destruct n as [|n].
        -- rewrite scan_block_0. exists 0. split; [lia|].
           split; [exists r; split; [reflexivity | apply String.eqb_eq; exact Hc]|].
           cbn [firstn filter length]. split; [lia|].
           intros m' Hm'. replace m' with 0 by lia. cbn. lia.
        -- specialize (IH (i + 1) (S n) ltac:(lia)).
           destruct (scan_block rest (i + 1) (S n)) as [j|].
           ++ destruct IH as (m & -> & Hr & Heq & Hpre). exists (S m).
              split; [lia|]. split; [exact Hr|].
              cbn [firstn filter]. rewrite Ho, Hc. cbn [length]. split; [lia|].
              intros [|m'] Hm'; cbn [firstn filter length]; [lia|].
              rewrite Ho, Hc. cbn [length]. specialize (Hpre m' ltac:(lia)). lia.
           ++ intros [|m']; cbn [firstn filter length]; [lia|].
              rewrite Ho, Hc. cbn [length]. specialize (IH m'). lia.
      * specialize (IH (i + 1) (S n) ltac:(lia)).
        destruct (scan_block rest (i + 1) (S n)) as [j|].
        -- destruct IH as (m & -> & Hr & Heq & Hpre). exists (S m).
           split; [lia|]. split; [exact Hr|].
           cbn [firstn filter]. rewrite Ho, Hc. split; [lia|].
           intros [|m'] Hm'; cbn [firstn filter length]; [lia|].
           rewrite Ho, Hc. specialize (Hpre m' ltac:(lia)). lia.
        -- intros [|m']; cbn [firstn filter length]; [lia|].
           rewrite Ho, Hc. specialize (IH m'). lia.
Qed.

(** X9. The block-boundary loop, started after an opening brace at
    [block_start], stops just after the brace that closes it: the row
    before the returned index is a closing brace, the rows of the block
    between have as many opening as closing braces, and no shorter run of
    rows from [block_start] closes more braces than it opens.  It raises
    (the unmatched-bracket error at the line of the row before
    [block_start]) exactly when no row closes the brace: every run of rows
    from [block_start] opens at least as many braces as it closes.  The
    compiler state is not changed. *)
Theorem X9_block_end_closes_the_brace :
  forall block_pst block_start self,
    0 < block_start ->
    match find_block_end block_pst block_start self with
    | Ok (j, self') =>
        self' = self
        /\ block_start < j <= length block_pst
        /\ (exists r, nth_error block_pst (j - 1) = Some r /\ lexeme r = "}")
        /\ count_lexeme "{" (slice block_pst block_start (j - 1))
           = count_lexeme "}" (slice block_pst block_start (j - 1))
        /\ forall k, block_start <= k <= j - 1 ->
                     count_lexeme "}" (slice block_pst block_start k)
                     <= count_lexeme "{" (slice block_pst block_start k)
    | Raise e =>
        (forall k, count_lexeme "}" (slice block_pst block_start k)
                   <= count_lexeme "{" (slice block_pst block_start k))
        /\ match nth_error block_pst (block_start - 1) with
           | Some r => e = CompilationError "Unmatched '{' bracket." (line r)
           | None => e = IndexError
           end
    | OutOfFuel => False
    end.
Proof.
  intros block_pst block_start self Hpos.
  pose proof (scan_block_spec (skipn block_start block_pst) block_start 1 ltac:(lia)) as H.
  unfold find_block_end.
  destruct (scan_block (skipn block_start block_pst) block_start 1) as [j|] eqn:Hs.
  - cbn [ret]. destruct H as (m & -> & (r & Hr & Hl) & Heq & Hpre).
    split; [reflexivity|].
    split; [apply scan_block_skipn_bounds in Hs; lia|].
    replace (block_start + m + 1 - 1) with (block_start + m) by lia.
    split; [exists r; rewrite nth_error_skipn in Hr; auto|].
    unfold slice. replace (block_start + m - block_start) with m by lia.
    split; [lia|].
    intros k Hk. specialize (Hpre (k - block_start) ltac:(lia)). lia.
  - unfold bind, getitem, raise.
    destruct (nth_error block_pst (block_start - 1)) as [r|]; cbn.
    + split; [|reflexivity]. intro k. unfold slice. specialize (H (k - block_start)). lia.
    + split; [|reflexivity]. intro k. unfold slice. specialize (H (k - block_start)). lia.
Qed.

(* ====================================================================== *)
(** ** 18. The labels and jumps of the generated lines *)
(* ====================================================================== *)

(** [s.split("\n")]: the lines of a text. *)
Fixpoint split_nl (s : string) : list string :=
  match s with
  | EmptyString => [EmptyString]
  | String c r =>
      if Ascii.eqb c nl_char then EmptyString :: split_nl r
      else match split_nl r with
           | l :: ls => String c l :: ls
           | [] => [String c EmptyString]
           end
  end.

(** The lines of the text that ["\n".join(lines)] is: an element of the
    list that holds a line break gives several. *)
Definition text_lines (lines : list string) : list string := flat_map split_nl lines.

Lemma split_nl_not_nil s : split_nl s <> [].
Proof.
  destruct s as [|c r]; cbn [split_nl]; [discriminate|].
  destruct (Ascii.eqb c nl_char); [discriminate|].
  destruct (split_nl r); discriminate.
Qed.

Lemma split_nl_append a b : split_nl (a ^^ nl ^^ b) = split_nl a ++ split_nl b.
Proof.
  induction a as [|c a IH]; cbn [String.append split_nl].
  - reflexivity.
  - destruct (Ascii.eqb c nl_char); [rewrite IH; reflexivity|].
    rewrite IH. destruct (split_nl a) as [|l ls] eqn:Ha; [|reflexivity].
    destruct (split_nl_not_nil _ Ha).
Qed.

Lemma text_lines_join l ls : split_nl (String.concat nl (l :: ls)) = text_lines (l :: ls).
Proof.
  revert l. induction ls as [|l' ls IH]; intro l.
  - cbn. rewrite app_nil_r. reflexivity.
  - change (String.concat nl (l :: l' :: ls)) with (l ^^ nl ^^ String.concat nl (l' :: ls)).
    rewrite split_nl_append, IH. reflexivity.
Qed.

Lemma text_lines_app a b : text_lines (a ++ b) = text_lines a ++ text_lines b.
Proof. apply flat_map_app. Qed.

(** No line break in [s]. *)
Definition no_nl (s : string) : bool :=
  all_chars (fun c => negb (Ascii.eqb c nl_char)) s.

Lemma all_chars_append p a b : all_chars p (a ^^ b) = all_chars p a && all_chars p b.
Proof.
  induction a as [|c a IH]; cbn [String.append all_chars]; [reflexivity|].
  rewrite IH. apply andb_assoc.
Qed.

Lemma all_chars_impl (p q : ascii -> bool) s :
  (forall c, p c = true -> q c = true) -> all_chars p s = true -> all_chars q s = true.
Proof.
  intro H. induction s as [|c s IH]; cbn [all_chars]; [reflexivity|].
  intro Hp. apply andb_true_iff in Hp. destruct Hp as [Hc Hs].
  rewrite (H c Hc), (IH Hs). reflexivity.
Qed.

Lemma no_nl_append a b : no_nl (a ^^ b) = no_nl a && no_nl b.
Proof. apply all_chars_append. Qed.

Lemma split_nl_no_nl s : no_nl s = true -> split_nl s = [s].
Proof.
  induction s as [|c s IH]; [reflexivity|].
  unfold no_nl. cbn [all_chars split_nl]. intro H.
  apply andb_true_iff in H. destruct H as [Hc Hs].
  apply negb_true_iff in Hc. rewrite Hc, (IH Hs). reflexivity.
Qed.

Lemma no_nl_digits s : all_chars re_digit s = true -> no_nl s = true.
Proof.
  apply all_chars_impl. intros c Hc.
  destruct (Ascii.eqb_spec c nl_char) as [->|]; [discriminate Hc | reflexivity].
Qed.

Lemma no_nl_word s : all_chars re_word s = true -> no_nl s = true.
Proof.
  apply all_chars_impl. intros c Hc.
  destruct (Ascii.eqb_spec c nl_char) as [->|]; [discriminate Hc | reflexivity].
Qed.

Lemma no_nl_alpha s : all_chars re_alpha s = true -> no_nl s = true.
Proof.
  apply all_chars_impl. intros c Hc.
  destruct (Ascii.eqb_spec c nl_char) as [->|]; [discriminate Hc | reflexivity].
Qed.

Lemma no_nl_str_of_nat n : no_nl (str_of_nat n) = true.
Proof. apply no_nl_digits, str_of_nat_digits. Qed.

Lemma no_nl_label_of p n : no_nl p = true -> no_nl (label_of p n) = true.
Proof.
  intro H. unfold label_of. rewrite !no_nl_append, H, no_nl_str_of_nat. reflexivity.
Qed.

Lemma no_nl_slot k : no_nl (slot k) = true.
Proof. unfold slot. rewrite !no_nl_append, no_nl_str_of_nat. reflexivity. Qed.

(** The lines at the first column: the generator indents instructions
    and comments by four spaces and writes a label definition [name:]
    unindented, the name starting with a dot. *)
Definition is_def (l : string) : bool := startswith l ".".

(** The label definitions among the lines of the text of [lines]. *)
Definition label_defs (lines : list string) : list string :=
  filter is_def (text_lines lines).

Fixpoint strip_prefix (p s : string) : option string :=
  match p with
  | EmptyString => Some s
  | String a p' =>
      match s with
      | String b s' => if Ascii.eqb a b then strip_prefix p' s' else None
      | EmptyString => None
      end
  end.

Fixpoint after_space (s : string) : string :=
  match s with
  | String c r => if Ascii.eqb c " " then r else after_space r
  | EmptyString => EmptyString
  end.

(** The operand of a jump instruction: of the generator's mnemonics the
    jumps ([jmp], [jne], [je], [jle], [jge], [jl], [jg]) are the ones that
    start with [j]. *)
Definition jump_target (l : string) : option string :=
  option_map after_space (strip_prefix "    j" l).

(** The operands of the jumps among the lines of the text of [lines]. *)
Definition jump_targets (lines : list string) : list string :=
  flat_map (fun l => match jump_target l with Some t => [t] | None => [] end)
           (text_lines lines).

(** What one element of the list adds to the text: nothing of either
    kind, a jump to [t], or the definition line [d]. *)
Definition plain (l : string) : Prop := label_defs [l] = [] /\ jump_targets [l] = [].

Definition jump_to (t l : string) : Prop := label_defs [l] = [] /\ jump_targets [l] = [t].

Definition defines (d l : string) : Prop := label_defs [l] = [d] /\ jump_targets [l] = [].

Definition between (a b n : nat) : Prop := a < n <= b.

(** The definition line of the label [prefix] and [count] make. *)
Definition def_line (label : string * nat) : string :=
  label_of (fst label) (snd label) ^^ ":".

(** [defs] are the definition lines of labels whose counts are pairwise
    different and in [S]. *)
Definition defs_in (S : nat -> Prop) (defs : list string) : Prop :=
  exists labels, defs = map def_line labels
                 /\ NoDup (map snd labels)
                 /\ Forall (fun label => S (snd label)) labels.

(** Every jump of [lines] goes to a label of [defs] or of [stack]. *)
Definition targets_ok (defs stack lines : list string) : Prop :=
  Forall (fun t => In (t ^^ ":") defs \/ In t stack) (jump_targets lines).

Definition labels_spec (self : Compiler) (out : list string) (self' : Compiler) : Prop :=
  defs_in (between (label_count self) (label_count self')) (label_defs out)
  /\ targets_ok (label_defs out) (loop_end_stack self) out
  /\ label_count self + length (label_defs out) = label_count self'.

Lemma label_defs_app a b : label_defs (a ++ b) = label_defs a ++ label_defs b.
Proof. unfold label_defs. rewrite text_lines_app, filter_app. reflexivity. Qed.

Lemma jump_targets_app a b : jump_targets (a ++ b) = jump_targets a ++ jump_targets b.
Proof. unfold jump_targets. rewrite text_lines_app. apply flat_map_app. Qed.

Lemma label_defs_cons l ls : label_defs (l :: ls) = label_defs [l] ++ label_defs ls.
Proof. apply (label_defs_app [l] ls). Qed.

Lemma jump_targets_cons l ls : jump_targets (l :: ls) = jump_targets [l] ++ jump_targets ls.
Proof. apply (jump_targets_app [l] ls). Qed.

Lemma line_plain body :
  no_nl body = true -> is_def body = false -> jump_target body = None -> plain body.
Proof.
  intros Hn Hd Hj. unfold plain, label_defs, jump_targets, text_lines.
  cbn [flat_map]. rewrite (split_nl_no_nl _ Hn). cbn [app filter flat_map].
  rewrite Hd, Hj. auto.
Qed.

Lemma line_nl_plain body :
  no_nl body = true -> is_def body = false -> jump_target body = None -> plain (nl ^^ body).
Proof.
  intros Hn Hd Hj. unfold plain, label_defs, jump_targets, text_lines.
  cbn [flat_map]. change (split_nl (nl ^^ body)) with (EmptyString :: split_nl body).
  rewrite (split_nl_no_nl _ Hn). cbn [app filter flat_map].
  rewrite Hd, Hj. auto.
Qed.

Lemma line_jump body t :
  no_nl body = true -> is_def body = false -> jump_target body = Some t -> jump_to t body.
Proof.
  intros Hn Hd Hj. unfold jump_to, label_defs, jump_targets, text_lines.
  cbn [flat_map]. rewrite (split_nl_no_nl _ Hn). cbn [app filter flat_map].
  rewrite Hd, Hj. auto.
Qed.

Lemma line_def prefix n :
  no_nl prefix = true -> defines (label_of prefix n ^^ ":") (label_of prefix n ^^ ":").
Proof.
  intro Hp.
  assert (Hn : no_nl (label_of prefix n ^^ ":") = true)
    by (rewrite no_nl_append, (no_nl_label_of _ n Hp); reflexivity).
  unfold defines, label_defs, jump_targets, text_lines.
  cbn [flat_map]. rewrite (split_nl_no_nl _ Hn). split; reflexivity.
Qed.

Lemma line_nl_def prefix n :
  no_nl prefix = true -> defines (label_of prefix n ^^ ":") (nl ^^ label_of prefix n ^^ ":").
Proof.
  intro Hp.
  assert (Hn : no_nl (label_of prefix n ^^ ":") = true)
    by (rewrite no_nl_append, (no_nl_label_of _ n Hp); reflexivity).
  unfold defines, label_defs, jump_targets, text_lines.
  cbn [flat_map].
  change (split_nl (nl ^^ label_of prefix n ^^ ":"))
    with (EmptyString :: split_nl (label_of prefix n ^^ ":")).
  rewrite (split_nl_no_nl _ Hn). split; reflexivity.
Qed.

Lemma jump_to_jmp t : no_nl t = true -> jump_to t ("    jmp " ^^ t).
Proof.
  intro Ht. apply line_jump; [|reflexivity|reflexivity].
  rewrite no_nl_append, Ht. reflexivity.
Qed.

Lemma plain_lines pre rest :
  Forall plain pre ->
  label_defs (pre ++ rest) = label_defs rest
  /\ jump_targets (pre ++ rest) = jump_targets rest.
Proof.
  induction 1 as [|l pre [Hd Hj] Hpre [IH1 IH2]]; [auto|].
  cbn [app]. rewrite label_defs_cons, jump_targets_cons, Hd, Hj, IH1, IH2. auto.
Qed.

Lemma label_line_inj p1 n1 p2 n2 :
  label_of p1 n1 ^^ ":" = label_of p2 n2 ^^ ":" -> p1 = p2 /\ n1 = n2.
Proof. intro H. apply append_cancel_r in H. apply label_of_inj. exact H. Qed.

Lemma def_line_inj a b : def_line a = def_line b -> a = b.
Proof.
  destruct a as [p1 n1], b as [p2 n2]. unfold def_line. cbn [fst snd].
  intro H. apply label_line_inj in H. destruct H as [-> ->]. reflexivity.
Qed.

Lemma defs_in_nil S : defs_in S [].
Proof. exists []. repeat split; constructor. Qed.

Lemma defs_in_one (S : nat -> Prop) p n : S n -> defs_in S [label_of p n ^^ ":"].
Proof.
  intro H. exists [(p, n)]. split; [reflexivity|]. split.
  - cbn [map snd]. constructor; [intros []|constructor].
  - constructor; [exact H|constructor].
Qed.

Lemma defs_in_weaken (S S' : nat -> Prop) defs :
  (forall n, S n -> S' n) -> defs_in S defs -> defs_in S' defs.
Proof.
  intros HS (labels & Hd & Hn & Hf). exists labels. split; [exact Hd|].
  split; [exact Hn|]. eapply Forall_impl; [|exact Hf]. intros label. apply HS.
Qed.

Lemma defs_in_app (S1 S2 : nat -> Prop) l1 l2 :
  defs_in S1 l1 -> defs_in S2 l2 ->
  (forall n, S1 n -> S2 n -> False) ->
  defs_in (fun n => S1 n \/ S2 n) (l1 ++ l2).
Proof.
  intros (ps1 & -> & Hn1 & Hf1) (ps2 & -> & Hn2 & Hf2) Hdisj.
  exists (ps1 ++ ps2). split; [rewrite map_app; reflexivity|]. split.
  - rewrite map_app. apply NoDup_app; [exact Hn1 | exact Hn2|].
    intros n H1 H2. rewrite Forall_forall in Hf1, Hf2.
    apply in_map_iff in H1. destruct H1 as (a & <- & Ha).
    apply in_map_iff in H2. destruct H2 as (b & Hb & Hin).
    apply (Hdisj (snd a)); [apply Hf1; exact Ha | rewrite <- Hb; apply Hf2; exact Hin].
  - apply Forall_app. split; (eapply Forall_impl; [|eassumption]); cbn beta; auto.
Qed.

(** The counts of the definitions are the numbers after [a] up to [b],
    each once. *)
Lemma defs_in_counts a b defs :
  a <= b -> defs_in (between a b) defs -> a + length defs = b ->
  exists labels, defs = map def_line labels
                 /\ Permutation (map snd labels) (seq (a + 1) (b - a)).
Proof.
  intros Hab (labels & -> & Hn & Hf) Hlen. exists labels. split; [reflexivity|].
  rewrite length_map in Hlen.
  apply NoDup_Permutation_bis; [exact Hn | rewrite length_map, length_seq; lia|].
  intros n Hin. apply in_map_iff in Hin. destruct Hin as (label & <- & Hin).
  rewrite Forall_forall in Hf. specialize (Hf _ Hin). unfold between in Hf.
  apply in_seq. lia.
Qed.

Lemma defs_in_NoDup S defs : defs_in S defs -> NoDup defs.
Proof.
  intros (labels & -> & Hn & _). apply NoDup_map_inj; [apply def_line_inj|].
  eapply NoDup_map_inv. exact Hn.
Qed.

Lemma defs_in_In S defs l :
  defs_in S defs -> In l defs -> exists p n, l = label_of p n ^^ ":" /\ S n.
Proof.
  intros (labels & -> & _ & Hf) Hin. apply in_map_iff in Hin.
  destruct Hin as ([p n] & <- & Hin). rewrite Forall_forall in Hf.
  exists p, n. split; [reflexivity | apply (Hf _ Hin)].
Qed.

Lemma targets_ok_nil defs stack : targets_ok defs stack [].
Proof. constructor. Qed.

Lemma targets_ok_app defs stack l1 l2 :
  targets_ok defs stack l1 -> targets_ok defs stack l2 -> targets_ok defs stack (l1 ++ l2).
Proof. unfold targets_ok. rewrite jump_targets_app, Forall_app. auto. Qed.

Lemma targets_ok_mono defs defs' stack stack' lines :
  (forall l, In l defs -> In l defs') ->
  (forall t, In t stack -> In (t ^^ ":") defs' \/ In t stack') ->
  targets_ok defs stack lines -> targets_ok defs' stack' lines.
Proof.
  intros Hd Hs. apply Forall_impl. intros t [H|H]; auto.
Qed.

Lemma targets_ok_plain defs stack l : plain l -> targets_ok defs stack [l].
Proof. intros [_ H]. unfold targets_ok. rewrite H. constructor. Qed.

Lemma targets_ok_jump defs stack t l :
  jump_to t l -> In (t ^^ ":") defs \/ In t stack -> targets_ok defs stack [l].
Proof.
  intros [_ H] Hin. unfold targets_ok. rewrite H.
  apply Forall_cons; [exact Hin | apply Forall_nil].
Qed.

Lemma targets_ok_def defs stack d l : defines d l -> targets_ok defs stack [l].
Proof. intros [_ H]. unfold targets_ok. rewrite H. constructor. Qed.

Lemma labels_spec_cons self l out self' :
  plain l -> labels_spec self out self' -> labels_spec self (l :: out) self'.
Proof.
  intros [Hd Hj] (H1 & H2 & H3). unfold labels_spec, targets_ok.
  rewrite label_defs_cons, jump_targets_cons, Hd, Hj. auto.
Qed.

Lemma labels_spec_app self pre out self' :
  Forall plain pre -> labels_spec self out self' -> labels_spec self (pre ++ out) self'.
Proof.
  intros Hpre (H1 & H2 & H3). destruct (plain_lines pre out Hpre) as [Hd Hj].
  unfold labels_spec, targets_ok. rewrite Hd, Hj. auto.
Qed.

Lemma labels_spec_nil self : labels_spec self [] self.
Proof.
  split; [apply defs_in_nil|]. split; [apply targets_ok_nil|]. cbn. lia.
Qed.

Lemma op_map_values k m :
  dict_get k op_map = Some m -> m = "addq" \/ m = "subq" \/ m = "imulq".
Proof.
  unfold op_map. cbn [dict_get].
  repeat match goal with
         | |- context [if ?b then _ else _] => destruct b
         end;
    intro H; inversion H; auto.
Qed.

Lemma jump_map_values k m :
  dict_get k jump_map = Some m ->
  m = "jne" \/ m = "je" \/ m = "jle" \/ m = "jge" \/ m = "jl" \/ m = "jg".
Proof.
  unfold jump_map. cbn [dict_get].
  repeat match goal with
         | |- context [if ?b then _ else _] => destruct b
         end;
    intro H; inversion H; auto 7.
Qed.

Lemma frame_count_le self self' : frame self self' -> label_count self <= label_count self'.
Proof. intros (n & Hn & ->). exact Hn. Qed.

(** The lines of a [when]: the blocks define labels of their own, numbered
    after the two of the statement. *)
Lemma when_lines_labels stack n n1 n2 c2 c3 c4 body other rest :
  n1 = n + 1 -> n2 = n + 2 -> n2 <= c2 -> c2 <= c3 -> c3 <= c4 ->
  defs_in (between n2 c2) (label_defs body) -> targets_ok (label_defs body) stack body ->
  defs_in (between c2 c3) (label_defs other) -> targets_ok (label_defs other) stack other ->
  defs_in (between c3 c4) (label_defs rest) -> targets_ok (label_defs rest) stack rest ->
  n2 + length (label_defs body) = c2 ->
  c2 + length (label_defs other) = c3 ->
  c3 + length (label_defs rest) = c4 ->
  let tl := body ++ ["    jmp " ^^ label_of "END_WHEN" n2; label_of "ELSE" n1 ^^ ":"]
                 ++ other ++ [label_of "END_WHEN" n2 ^^ ":"] ++ rest in
  (defs_in (between n c4) (label_defs tl)
   /\ targets_ok (label_defs tl) stack tl
   /\ n + length (label_defs tl) = c4)
  /\ In (label_of "ELSE" n1 ^^ ":") (label_defs tl).
Proof.
  intros Hn1 Hn2 H2 H3 H4 Db Tb Do To Dr Tr Lb Lo Lr tl.
  pose proof (jump_to_jmp (label_of "END_WHEN" n2) (no_nl_label_of "END_WHEN" n2 eq_refl))
    as Jend.
  pose proof (line_def "ELSE" n1 eq_refl) as Delse.
  pose proof (line_def "END_WHEN" n2 eq_refl) as Dend.
  assert (HD : label_defs tl
               = label_defs body
                   ++ [label_of "ELSE" n1 ^^ ":"]
                   ++ label_defs other ++ [label_of "END_WHEN" n2 ^^ ":"] ++ label_defs rest).
  { unfold tl. rewrite !label_defs_app.
    rewrite (label_defs_cons ("    jmp " ^^ label_of "END_WHEN" n2) [label_of "ELSE" n1 ^^ ":"]).
    rewrite (proj1 Jend), (proj1 Delse), (proj1 Dend). reflexivity. }
  assert (Ib : forall l, In l (label_defs body) -> In l (label_defs tl))
    by (intros l H; rewrite HD; repeat (rewrite in_app_iff || cbn [In]); tauto).
  assert (Io : forall l, In l (label_defs other) -> In l (label_defs tl))
    by (intros l H; rewrite HD; repeat (rewrite in_app_iff || cbn [In]); tauto).
  assert (Ir : forall l, In l (label_defs rest) -> In l (label_defs tl))
    by (intros l H; rewrite HD; repeat (rewrite in_app_iff || cbn [In]); tauto).
  assert (Ielse : In (label_of "ELSE" n1 ^^ ":") (label_defs tl))
    by (rewrite HD; repeat (rewrite in_app_iff || cbn [In]); tauto).
  assert (Iend : In (label_of "END_WHEN" n2 ^^ ":") (label_defs tl))
    by (rewrite HD; repeat (rewrite in_app_iff || cbn [In]); tauto).
  split; [split; [|split]|exact Ielse].
  - rewrite HD.
    eapply defs_in_weaken;
      [|apply defs_in_app;
        [exact Db
        |apply defs_in_app;
         [apply (defs_in_one (fun k => k = n1)); reflexivity
         |apply defs_in_app;
          [exact Do
          |apply defs_in_app;
           [apply (defs_in_one (fun k => k = n2)); reflexivity
           |exact Dr|] |] |] |] ];
      unfold between; cbn beta; intros; lia.
  - unfold tl. apply targets_ok_app; [eapply targets_ok_mono; [exact Ib | | exact Tb]; intros; right; assumption|].
    cbn [app]. change (?a :: ?b :: ?l) with ([a] ++ [b] ++ l).
    apply targets_ok_app; [eapply targets_ok_jump; [exact Jend | left; exact Iend]|].
    apply targets_ok_app; [eapply targets_ok_def; exact Delse|].
    apply targets_ok_app; [eapply targets_ok_mono; [exact Io | | exact To]; intros; right; assumption|].
    cbn [app]. change (?a :: ?l) with ([a] ++ l).
    apply targets_ok_app; [eapply targets_ok_def; exact Dend|].
    eapply targets_ok_mono; [exact Ir | | exact Tr]; intros; right; assumption.
  - rewrite HD. rewrite !length_app. cbn [length]. lia.
Qed.

(** The lines of a [loop]: the body may jump to the end label, which the
    loop defines after it. *)
Lemma loop_lines_labels stack n n1 n2 c2 c3 body rest :
  n1 = n + 1 -> n2 = n + 2 -> n2 <= c2 -> c2 <= c3 ->
  defs_in (between n2 c2) (label_defs body) ->
  targets_ok (label_defs body) (stack ++ [label_of "LOOP_END" n2]) body ->
  defs_in (between c2 c3) (label_defs rest) -> targets_ok (label_defs rest) stack rest ->
  n2 + length (label_defs body) = c2 ->
  c2 + length (label_defs rest) = c3 ->
  let out := [nl ^^ label_of "LOOP_START" n1 ^^ ":"] ++ body
                ++ ["    jmp " ^^ label_of "LOOP_START" n1; label_of "LOOP_END" n2 ^^ ":"]
                ++ rest in
  defs_in (between n c3) (label_defs out) /\ targets_ok (label_defs out) stack out
  /\ n + length (label_defs out) = c3.
Proof.
  intros Hn1 Hn2 H2 H3 Db Tb Dr Tr Lb Lr out.
  pose proof (jump_to_jmp (label_of "LOOP_START" n1) (no_nl_label_of "LOOP_START" n1 eq_refl))
    as Jstart.
  pose proof (line_nl_def "LOOP_START" n1 eq_refl) as Dstart.
  pose proof (line_def "LOOP_END" n2 eq_refl) as Dend.
  assert (HD : label_defs out
               = [label_of "LOOP_START" n1 ^^ ":"]
                   ++ label_defs body ++ [label_of "LOOP_END" n2 ^^ ":"] ++ label_defs rest).
  { unfold out. rewrite !label_defs_app.
    rewrite (label_defs_cons ("    jmp " ^^ label_of "LOOP_START" n1)
                             [label_of "LOOP_END" n2 ^^ ":"]).
    rewrite (proj1 Jstart), (proj1 Dstart), (proj1 Dend). reflexivity. }
  assert (Ib : forall l, In l (label_defs body) -> In l (label_defs out))
    by (intros l H; rewrite HD; repeat (rewrite in_app_iff || cbn [In]); tauto).
  assert (Ir : forall l, In l (label_defs rest) -> In l (label_defs out))
    by (intros l H; rewrite HD; repeat (rewrite in_app_iff || cbn [In]); tauto).
  assert (Istart : In (label_of "LOOP_START" n1 ^^ ":") (label_defs out))
    by (rewrite HD; repeat (rewrite in_app_iff || cbn [In]); tauto).
  assert (Iend : In (label_of "LOOP_END" n2 ^^ ":") (label_defs out))
    by (rewrite HD; repeat (rewrite in_app_iff || cbn [In]); tauto).
  split; [|split].
  - rewrite HD.
    eapply defs_in_weaken;
      [|apply defs_in_app;
        [apply (defs_in_one (fun k => k = n1)); reflexivity
        |apply defs_in_app;
         [exact Db
         |apply defs_in_app;
          [apply (defs_in_one (fun k => k = n2)); reflexivity
          |exact Dr|] |] |] ];
      unfold between; cbn beta; intros; lia.
  - unfold out. apply targets_ok_app; [eapply targets_ok_def; exact Dstart|].
    apply targets_ok_app.
    { eapply targets_ok_mono; [exact Ib | | exact Tb].
      intros t Ht. apply in_app_iff in Ht. destruct Ht as [Ht|[<-|[]]]; auto. }
    cbn [app]. change (?a :: ?b :: ?l) with ([a] ++ [b] ++ l).
    apply targets_ok_app; [eapply targets_ok_jump; [exact Jstart | left; exact Istart]|].
    apply targets_ok_app; [eapply targets_ok_def; exact Dend|].
    eapply targets_ok_mono; [exact Ir | | exact Tr]; intros; right; assumption.
  - rewrite HD. rewrite !length_app. cbn [length]. lia.
Qed.

(** What the generator copies into its lines holds no line break: the
    lexeme and the storage location of a row, *)
Definition clean_row (row : PstRow) : Prop :=
  no_nl (lexeme row) = true /\ no_nl (fmt_loc (mem_location row)) = true.

(** the end labels of the loops around the block and the labels of the
    string constants. *)
Definition clean_state (self : Compiler) : Prop :=
  Forall (fun label => no_nl label = true) (loop_end_stack self)
  /\ Forall (fun item => no_nl (snd item) = true) (string_literals self).

Lemma clean_at block_pst k row :
  Forall clean_row block_pst -> nth_error block_pst k = Some row ->
  no_nl (lexeme row) = true /\ no_nl (fmt_loc (mem_location row)) = true.
Proof.
  intros H Hk. rewrite Forall_forall in H. apply H. eapply nth_error_In. exact Hk.
Qed.

Lemma clean_slice block_pst a b :
  Forall clean_row block_pst -> Forall clean_row (slice block_pst a b).
Proof.
  rewrite !Forall_forall. intros H r Hin. apply H. eapply In_slice. exact Hin.
Qed.

Lemma clean_frame self self' : frame self self' -> clean_state self -> clean_state self'.
Proof. intros (n & _ & ->) H. exact H. Qed.

Lemma clean_literal self k label :
  clean_state self -> dict_get k (string_literals self) = Some label -> no_nl label = true.
Proof.
  intros [_ H] Hget. destruct (dict_get_nth _ _ _ Hget) as (j & Hj).
  apply nth_error_In in Hj. rewrite Forall_forall in H. apply (H _ Hj).
Qed.

Definition lab_post (self : Compiler) (out : list string) (self' : Compiler) : Prop :=
  frame self self' /\ labels_spec self out self'.

Definition lab_spec (self_call : list PstRow -> nat -> M (list string))
           (block_pst : list PstRow) (i : nat) (self : Compiler) : Prop :=
  Forall clean_row block_pst -> clean_state self ->
  sat (self_call block_pst i) self (lab_post self) (fun _ => True).

Ltac no_nl_tac :=
  rewrite ?no_nl_append;
  repeat (apply andb_true_intro; split);
  first [ assumption | reflexivity | apply no_nl_str_of_nat ].

Ltac plain_line :=
  try match goal with
      | H : dict_get _ op_map = Some _ |- _ =>
          apply op_map_values in H; destruct H as [->|[->| ->]]
      end;
  (first [ apply line_nl_plain | apply line_plain ];
   [ no_nl_tac | reflexivity | reflexivity ]).

Ltac plain_prefix :=
  repeat first [ assumption
               | apply labels_spec_cons; [plain_line|]
               | apply labels_spec_app; [repeat constructor; plain_line|] ].

Section GenerateLabels.
Variable self_call : list PstRow -> nat -> M (list string).
Variable block_pst : list PstRow.
Variable i : nat.
Variable self : Compiler.

Hypothesis IH : forall b' i' self',
    length b' - i' < length block_pst - i -> lab_spec self_call b' i' self'.
Hypothesis in_range : i < length block_pst.
Hypothesis clean_rows : Forall clean_row block_pst.
Hypothesis clean_self : clean_state self.

Ltac learn_clean :=
  repeat match goal with
         | H : nth_error block_pst _ = Some ?r |- _ =>
             lazymatch goal with
             | _ : no_nl (lexeme r) = true |- _ => fail
             | _ => destruct (clean_at _ _ _ clean_rows H) as [? ?]
             end
         end.

Lemma lab_next i' self1 (Q : list string -> Compiler -> Prop) :
  i < i' -> clean_state self1 ->
  (forall rest self2, frame self1 self2 -> labels_spec self1 rest self2 -> Q rest self2) ->
  sat (self_call block_pst i') self1 Q (fun _ => True).
Proof.
  intros Hi Hc HQ. eapply sat_weaken; [apply IH; [lia | exact clean_rows | exact Hc] | | auto].
  intros rest self2 [Hf Hl]. apply HQ; assumption.
Qed.

Lemma lab_sub block_start j self1 (Q : list string -> Compiler -> Prop) :
  i < block_start -> j <= length block_pst -> clean_state self1 ->
  (forall body self2, frame self1 self2 -> labels_spec self1 body self2 -> Q body self2) ->
  sat (self_call (slice block_pst block_start (j - 1)) 0) self1 Q (fun _ => True).
Proof.
  intros Hi Hj Hc HQ. eapply sat_weaken; [apply IH | | auto].
  - pose proof (length_slice block_pst block_start (j - 1)). lia.
  - apply clean_slice, clean_rows.
  - exact Hc.
  - intros body self2 [Hf Hl]. apply HQ; assumption.
Qed.

Lemma gen_assignment_labels row :
  nth_error block_pst i = Some row ->
  sat (gen_assignment self_call block_pst i row) self (lab_post self) (fun _ => True).
Proof.
  intro Hrow. unfold gen_assignment.
  repeat first [ apply lab_next; [lia | exact clean_self | intros ? ? ? ?] | sat_step | exact I ].
  all: split; [assumption|].
  all: cbn [fst snd].
  all: learn_clean.
  all: try destruct (dict_get (lexeme a0) op_map) eqn:?.
  all: try destruct (String.eqb (lexeme a0) "/").
  all: try destruct (Category_eqb (category a1) NumericLiteral).
  all: cbn [app]; plain_prefix.
Qed.

Lemma gen_print_labels :
  sat (gen_print self_call block_pst i) self (lab_post self) (fun _ => True).
Proof.
  unfold gen_print.
  repeat first [ apply lab_next; [lia | exact clean_self | intros ? ? ? ?] | sat_step | exact I ].
  all: split; [assumption|].
  all: learn_clean.
  all: try match goal with
           | H : dict_get _ (string_literals self) = Some _ |- _ =>
               pose proof (clean_literal _ _ _ clean_self H)
           end.
  all: cbn [app]; plain_prefix.
Qed.

Lemma gen_stop_labels row :
  sat (gen_stop self_call block_pst i row) self (lab_post self) (fun _ => True).
Proof.
  unfold gen_stop. apply sat_bind, sat_get.
  destruct (loop_end_stack self) as [|l stack] eqn:Hstack; [apply sat_raise; exact I|].
  apply sat_bind, lab_next; [lia | exact clean_self|].
  intros rest self2 Hf (Hd & Ht & Hc). apply sat_ret.
  assert (Hin : In (last (l :: stack) EmptyString) (loop_end_stack self)).
  { rewrite Hstack.
    destruct (exists_last (l := l :: stack) ltac:(discriminate)) as (s & x & ->).
    rewrite last_last. apply in_or_app. right. left. reflexivity. }
  assert (Hj : jump_to (last (l :: stack) EmptyString)
                       ("    jmp " ^^ last (l :: stack) EmptyString)).
  { apply jump_to_jmp. destruct clean_self as [Hs _]. rewrite Forall_forall in Hs.
    apply Hs. exact Hin. }
  split; [exact Hf|]. split; [|split].
  - rewrite label_defs_cons, (proj1 Hj). exact Hd.
  - rewrite label_defs_cons, (proj1 Hj). cbn [app].
    change (?l0 :: rest) with ([l0] ++ rest). apply targets_ok_app; [|exact Ht].
    eapply targets_ok_jump; [exact Hj|]. right. exact Hin.
  - rewrite label_defs_cons, (proj1 Hj). exact Hc.
Qed.

Lemma gen_when_head_labels (Q : list string * string * string -> Compiler -> Prop) :
  (forall pre jl n1 n2 self1,
      Forall plain pre -> jump_to (label_of "ELSE" n1) jl ->
      n1 = label_count self + 1 -> n2 = label_count self + 2 ->
      frame self self1 -> label_count self1 = n2 ->
      Q (pre ++ [jl], label_of "ELSE" n1, label_of "END_WHEN" n2) self1) ->
  sat (gen_when_head block_pst i) self Q (fun _ => True).
Proof.
  intro HQ. unfold gen_when_head.
  repeat first [ sat_step | exact I ].
  all: cbn [label_count set_label_count].
  all: learn_clean.
  all: change [?a; ?b; ?c; ?d] with ([a; b; c] ++ [d]).
  all: apply (HQ _ _ (label_count self + 1) (label_count self + 1 + 1));
    [ repeat (apply Forall_cons; [plain_line|]); apply Forall_nil
    | match goal with
      | H : dict_get _ jump_map = Some _ |- _ =>
          apply jump_map_values in H;
          destruct H as [->|[->|[->|[->|[->| ->]]]]];
          (apply line_jump; [no_nl_tac | reflexivity | reflexivity])
      end
    | reflexivity | lia
    | eapply frame_trans; apply frame_label; cbn [label_count set_label_count]; lia
    | reflexivity ].
Qed.

Lemma gen_when_blocks_labels n1 n2 self1 :
  n1 = label_count self + 1 -> n2 = label_count self + 2 ->
  frame self self1 -> label_count self1 = n2 ->
  sat (gen_when_blocks self_call block_pst i (label_of "ELSE" n1) (label_of "END_WHEN" n2))
      self1
      (fun tl self' => frame self self' /\ labels_spec self tl self'
                       /\ In (label_of "ELSE" n1 ^^ ":") (label_defs tl))
      (fun _ => True).
Proof.
  intros Hn1 Hn2 Hf1 Hc1. unfold gen_when_blocks.
  pose proof (clean_frame _ _ Hf1 clean_self) as Hclean1.
  apply sat_bind, sat_find_block_end; [|exact I|intros; exact I].
  intros j _ Hj. apply sat_bind, lab_sub; [lia | lia | exact Hclean1 |].
  intros body self2 Hf2 (Db & Tb & Lb).
  pose proof (clean_frame _ _ Hf2 Hclean1) as Hclean2.
  pose proof (frame_stack _ _ Hf1) as Hs1. pose proof (frame_count_le _ _ Hf2) as Hc2.
  pose proof (frame_stack _ _ Hf2) as Hs2.
  rewrite Hs1 in Tb. rewrite Hc1 in Db, Lb.
  destruct (test_at block_pst j _).
  - apply sat_bind, sat_find_block_end; [|exact I|intros; exact I].
    intros j2 _ Hj2. apply sat_bind, lab_sub; [lia | lia | exact Hclean2 |].
    intros other self3 Hf3 (Do & To & Lo).
    pose proof (clean_frame _ _ Hf3 Hclean2) as Hclean3.
    pose proof (frame_stack _ _ Hf3) as Hs3. pose proof (frame_count_le _ _ Hf3) as Hc3.
    rewrite Hs2, Hs1 in To.
    apply sat_bind, lab_next; [lia | exact Hclean3 |].
    intros rest self4 Hf4 (Dr & Tr & Lr). pose proof (frame_count_le _ _ Hf4) as Hc4.
    rewrite Hs3, Hs2, Hs1 in Tr. apply sat_ret.
    split; [repeat (eapply frame_trans; [eassumption|]); apply frame_refl|].
    pose proof (when_lines_labels (loop_end_stack self) (label_count self) n1 n2
                  (label_count self2) (label_count self3) (label_count self4)
                  body other rest Hn1 Hn2 ltac:(lia) Hc3 Hc4 Db Tb Do To Dr Tr
                  Lb Lo Lr) as H.
    cbv zeta in H. exact H.
  - apply sat_bind, lab_next; [lia | exact Hclean2 |].
    intros rest self4 Hf4 (Dr & Tr & Lr). pose proof (frame_count_le _ _ Hf4) as Hc4.
    rewrite Hs2, Hs1 in Tr. apply sat_ret.
    split; [repeat (eapply frame_trans; [eassumption|]); apply frame_refl|].
    pose proof (when_lines_labels (loop_end_stack self) (label_count self) n1 n2
                  (label_count self2) (label_count self2) (label_count self4)
                  body [] rest Hn1 Hn2 ltac:(lia) ltac:(lia) Hc4 Db Tb
                  (defs_in_nil _) (targets_ok_nil _ _) Dr Tr
                  Lb ltac:(cbn; lia) Lr) as H.
    cbv zeta in H. exact H.
Qed.

Lemma gen_when_labels :
  sat (gen_when self_call block_pst i) self (lab_post self) (fun _ => True).
Proof.
  unfold gen_when. apply sat_bind, gen_when_head_labels.
  intros pre jl n1 n2 self1 Hpre Hjl Hn1 Hn2 Hf1 Hc1.
  apply sat_bind.
  eapply sat_weaken; [apply (gen_when_blocks_labels n1 n2 self1); assumption | | auto].
  intros tl self2 (Hf2 & (Dt & Tt & Lt) & Helse). apply sat_ret.
  split; [exact Hf2|].
  destruct (plain_lines pre ([jl] ++ tl) Hpre) as [Hd Hj].
  destruct Hjl as [Hjd Hjt].
  assert (Hdefs : label_defs ((pre ++ [jl]) ++ tl) = label_defs tl).
  { rewrite <- app_assoc, Hd, label_defs_app, Hjd. reflexivity. }
  split; [|split].
  - rewrite Hdefs. exact Dt.
  - unfold targets_ok. rewrite Hdefs, <- app_assoc, Hj, jump_targets_app, Hjt.
    cbn [app]. constructor; [left; exact Helse | exact Tt].
  - rewrite Hdefs. exact Lt.
Qed.

Lemma gen_loop_labels :
  sat (gen_loop self_call block_pst i) self (lab_post self) (fun _ => True).
Proof.
  unfold gen_loop.
  do 3 sat_step. do 2 sat_step. do 2 sat_step.
  cbn [label_count set_label_count loop_end_stack].
  change (".L_" ^^ "LOOP_START" ^^ "_" ^^ str_of_nat (label_count self + 1))
    with (label_of "LOOP_START" (label_count self + 1)).
  change (".L_" ^^ "LOOP_END" ^^ "_" ^^ str_of_nat (label_count self + 1 + 1))
    with (label_of "LOOP_END" (label_count self + 1 + 1)).
  set (n2 := label_count self + 1 + 1). set (n1 := label_count self + 1).
  set (self1 := set_loop_end_stack _ _).
  assert (Hclean1 : clean_state self1).
  { destruct clean_self as [Hs Hl]. split; [|exact Hl].
    unfold self1. cbn [loop_end_stack set_loop_end_stack].
    apply Forall_app. split; [exact Hs|].
    constructor; [apply no_nl_label_of; reflexivity | constructor]. }
  apply sat_find_block_end; [|exact I|intros; exact I].
  intros j _ Hj. apply sat_bind, lab_sub; [lia | lia | exact Hclean1 |].
  intros body self2 Hf2 (Db & Tb & Lb).
  pose proof (frame_count_le _ _ Hf2) as Hc2. pose proof (frame_stack _ _ Hf2) as Hs2.
  destruct Hf2 as (m & Hm & ->).
  apply sat_bind.
  apply sat_pop_loop_end with (stack := loop_end_stack self) (label := label_of "LOOP_END" n2);
    [reflexivity|].
  apply sat_bind, lab_next; [lia | exact clean_self |].
  intros rest self3 Hf3 (Dr & Tr & Lr). pose proof (frame_count_le _ _ Hf3) as Hc3.
  apply sat_ret.
  cbn [label_count set_label_count set_loop_end_stack loop_end_stack self1] in *.
  split.
  - destruct Hf3 as (m' & Hm' & ->). exists m'.
    split; [cbn [label_count set_label_count set_loop_end_stack] in Hm'; unfold n2 in *; lia
           | reflexivity].
  - pose proof (loop_lines_labels (loop_end_stack self) (label_count self) n1 n2
                  m (label_count self3) body rest ltac:(reflexivity)
                  ltac:(unfold n2; lia) Hm Hc3 Db Tb Dr Tr Lb Lr) as H.
    cbv zeta in H. exact H.
Qed.

Lemma generate_body_labels :
  sat (generate_body self_call block_pst i) self (lab_post self) (fun _ => True).
Proof.
  unfold generate_body.
  destruct (negb (Nat.ltb i (length block_pst)));
    [apply sat_ret; split; [apply frame_refl | apply labels_spec_nil]|].
  sat_step. sat_step; [|exact I]. rename a into row.
  destruct (Category_eqb (category row) Mutability).
  { apply lab_next; [lia | exact clean_self |]. intros; split; assumption. }
  destruct (_ && _); [apply gen_assignment_labels; assumption|].
  destruct (String.eqb (lexeme row) "print"); [apply gen_print_labels|].
  destruct (String.eqb (lexeme row) "when"); [apply gen_when_labels|].
  destruct (String.eqb (lexeme row) "loop"); [apply gen_loop_labels|].
  destruct (String.eqb (lexeme row) "stop"); [apply gen_stop_labels|].
  apply lab_next; [lia | exact clean_self |]. intros; split; assumption.
Qed.
End GenerateLabels.

(** Generation of any block, from any cursor and state, when what it
    copies into its lines holds no line break. *)
Lemma generate_labels block_pst i self :
  Forall clean_row block_pst -> clean_state self ->
  sat (generate block_pst i) self (lab_post self) (fun _ => True).
Proof.
  unfold sat.
  apply (generate_ind
           (fun b i self r =>
              Forall clean_row b -> clean_state self ->
              match r with
              | Ok (out, self') => lab_post self out self'
              | Raise e => True
              | OutOfFuel => False
              end)).
  - intros self_call b j s IH Hj Hrows Hstate.
    apply generate_body_labels; assumption.
  - intros b j s _ _ _. split; [apply frame_refl | apply labels_spec_nil].
Qed.

(* ---------------------------------------------------------------------- *)
(** *** The rows and the state the generator gets from the analysis *)
(* ---------------------------------------------------------------------- *)

Lemma row_shape_same_token r r' : same_token r r' -> row_shape r -> row_shape r'.
Proof. intros (Hl & Hc & _). unfold row_shape. rewrite Hl, Hc. auto. Qed.

Lemma analyzed_rows_shape rows self rows' self' :
  analyze_loop rows self = Ok (rows', self') ->
  Forall row_shape rows -> Forall row_shape rows'.
Proof.
  intros Han Hshape.
  pose proof (analyze_loop_spec rows self) as H. unfold sat in H. rewrite Han in H.
  destruct H as (Hsame & _). clear Han.
  induction Hsame as [|r r' l l' Hr _ IH]; [constructor|].
  inversion Hshape; subst. constructor; [eapply row_shape_same_token; eassumption | auto].
Qed.

(** Of the tokens only a string literal can hold a line break. *)
Lemma row_shape_no_nl row :
  row_shape row -> category row <> StringLiteral -> no_nl (lexeme row) = true.
Proof.
  unfold row_shape. intros H Hc.
  destruct (category row); try (contradiction Hc; reflexivity);
    cbn [keyword_shape token_shape In operators delimiters] in H;
    repeat match goal with
           | H : _ \/ _ |- _ => destruct H
           | H : exists _, _ |- _ => destruct H
           | H : _ /\ _ |- _ => destruct H
           | H : False |- _ => destruct H
           end;
    try match goal with
        | H : lexeme row = _ |- _ => rewrite H
        | H : _ = lexeme row |- _ => rewrite <- H
        end;
    try reflexivity.
  - match goal with
    | Hw : all_chars re_word ?x = true |- _ =>
        change (String "." x) with ("." ^^ x); rewrite no_nl_append, (no_nl_word _ Hw)
    end. reflexivity.
  - apply no_nl_digits. assumption.
  - match goal with
    | Hd : all_chars re_digit ?x = true |- _ =>
        change (String "-" x) with ("-" ^^ x); rewrite no_nl_append, (no_nl_digits _ Hd)
    end. reflexivity.
Qed.

(** The rows and the state of an analysed program with no line break in
    a string literal. *)
Lemma analysed_program_clean src toks rows rows' self3 :
  tokenize_loop (S (String.length src)) src 1 = Ok toks ->
  categorize_loop toks = Ok rows ->
  analyze_loop rows (categorized_state src toks rows) = Ok (rows', self3) ->
  (forall r, In r rows' -> category r = StringLiteral -> no_nl (lexeme r) = true) ->
  Forall clean_row rows' /\ clean_state (analyzed_state rows' self3).
Proof.
  intros Htok Hcat Han Hstr.
  pose proof (categorize_loop_tokens toks (tokenize_loop_shapes _ _ _ _ Htok)) as Hrows.
  rewrite Hcat in Hrows. destruct Hrows as (_ & _ & Hnone & Hshape).
  pose proof (analyzed_rows_shape _ _ _ _ Han Hshape) as Hshape'.
  pose proof (analyze_loop_resolves rows (categorized_state src toks rows) Hshape
                (table_ok_categorized_state src toks rows)) as HR.
  unfold sat in HR. rewrite Han in HR. destruct HR as (_ & _ & Hres).
  pose proof (analyze_loop_locations rows (categorized_state src toks rows) Hnone) as HN.
  unfold sat in HN. rewrite Han in HN.
  pose proof (analyze_loop_labels rows (categorized_state src toks rows) Hshape
                (literals_ok_categorized_state src toks rows)) as HL.
  unfold sat in HL. rewrite Han in HL. destruct HL as (Hok & _ & _).
  pose proof (literals_ok_labels self3 Hok) as Hmap.
  pose proof (analyze_loop_spec rows (categorized_state src toks rows)) as HA.
  unfold sat in HA. rewrite Han in HA. destruct HA as (_ & Hstack & _).
  rewrite Forall_forall in Hshape', Hres, HN. split.
  - apply Forall_forall. intros r Hin. split.
    + destruct (category r) eqn:Hc;
        try (apply row_shape_no_nl; [apply Hshape'; exact Hin | rewrite Hc; discriminate]).
      apply Hstr; assumption.
    + destruct (category r) eqn:Hc;
        try (rewrite (HN r Hin) by (rewrite Hc; discriminate); reflexivity).
      destruct (Hres r Hin Hc) as (k & v & _ & ->). apply no_nl_slot.
  - split.
    + unfold analyzed_state. cbn [loop_end_stack set_stack_size set_pst].
      rewrite Hstack. constructor.
    + unfold analyzed_state. cbn [string_literals set_stack_size set_pst].
      apply Forall_forall. intros item Hin.
      apply (in_map snd) in Hin. rewrite Hmap in Hin. apply in_map_iff in Hin.
      destruct Hin as (k & <- & _). apply no_nl_label_of. reflexivity.
Qed.

(** X10. In the text generated for any block, from any cursor and state,
    when no lexeme or storage location of the block and no label of the
    state holds a line break: every number drawn from the label counter
    is in exactly one definition line.  The definition lines of the text
    are the lines [name:] of labels whose counts are the numbers after
    the counter at the start up to the counter at the end, each number
    once. *)
Theorem X10_labels_defined_once :
  forall block_pst i self out self',
    Forall clean_row block_pst -> clean_state self ->
    generate block_pst i self = Ok (out, self') ->
    exists labels : list (string * nat),
      label_defs out = map def_line labels
      /\ Permutation (map snd labels)
                     (seq (label_count self + 1) (label_count self' - label_count self)).
Proof.
  intros block_pst i self out self' Hrows Hstate Hgen.
  pose proof (generate_labels block_pst i self Hrows Hstate) as H.
  unfold sat in H. rewrite Hgen in H.
  destruct H as (Hf & Hdefs & _ & Hcount).
  apply defs_in_counts; [apply frame_count_le; exact Hf | exact Hdefs | exact Hcount].
Qed.

(** X11. Under the same condition, every jump in the text generated for
    a block goes to a label the text defines, or to a label of the loop
    stack the generation was started with (the end of a loop around the
    block, target of [stop]); started with an empty stack, every jump
    goes to a label the text defines. *)
Theorem X11_jumps_go_to_defined_labels :
  forall block_pst i self out self',
    Forall clean_row block_pst -> clean_state self ->
    generate block_pst i self = Ok (out, self') ->
    (forall t, In t (jump_targets out) ->
               In (t ^^ ":") (label_defs out) \/ In t (loop_end_stack self))
    /\ (loop_end_stack self = [] ->
        forall t, In t (jump_targets out) -> In (t ^^ ":") (label_defs out)).
Proof.
  intros block_pst i self out self' Hrows Hstate Hgen.
  pose proof (generate_labels block_pst i self Hrows Hstate) as H.
  unfold sat in H. rewrite Hgen in H.
  destruct H as (_ & _ & Ht & _). unfold targets_ok in Ht. rewrite Forall_forall in Ht.
  split; [exact Ht|].
  intros Hstack t Hin. destruct (Ht t Hin) as [H|H]; [exact H|].
  rewrite Hstack in H. destruct H.
Qed.

(** X12. In a program that compiles and has no line break in a string
    literal, the labels of the data section and of the text section are
    all different: the labels of the string constants, numbered up to
    the counter the analysis ends with, and the labels the text section
    defines, numbered above it, each number once; and every jump of the
    text section goes to a label the text section defines. *)
Theorem X12_program_labels :
  forall src toks rows rows' self3 out self',
    tokenize_loop (S (String.length src)) src 1 = Ok toks ->
    categorize_loop toks = Ok rows ->
    analyze_loop rows (categorized_state src toks rows) = Ok (rows', self3) ->
    generate rows' 0 (analyzed_state rows' self3) = Ok (out, self') ->
    (forall r, In r rows' -> category r = StringLiteral -> no_nl (lexeme r) = true) ->
    NoDup (map (fun label => label ^^ ":") (map snd (string_literals self3))
             ++ label_defs out)
    /\ (exists labels : list (string * nat),
          label_defs out = map def_line labels
          /\ Permutation (map snd labels)
                         (seq (length (string_literals self3) + 1)
                              (label_count self' - length (string_literals self3))))
    /\ forall t, In t (jump_targets out) -> In (t ^^ ":") (label_defs out).
Proof.
  intros src toks rows rows' self3 out self' Htok Hcat Han Hgen Hstr.
  destruct (analysed_program_clean _ _ _ _ _ Htok Hcat Han Hstr) as [Hclean Hstate].
  pose proof (categorize_loop_tokens toks (tokenize_loop_shapes _ _ _ _ Htok)) as Hrows.
  rewrite Hcat in Hrows. destruct Hrows as (_ & _ & _ & Hshape).
  pose proof (analyze_loop_labels rows (categorized_state src toks rows) Hshape
                (literals_ok_categorized_state src toks rows)) as HL.
  unfold sat in HL. rewrite Han in HL. destruct HL as (Hok & _ & _).
  pose proof (literals_ok_labels self3 Hok) as Hmap. destruct Hok as (Hcount & _).
  pose proof (analyze_loop_spec rows (categorized_state src toks rows)) as HA.
  unfold sat in HA. rewrite Han in HA. destruct HA as (_ & Hstack & _).
  pose proof (generate_labels rows' 0 (analyzed_state rows' self3) Hclean Hstate) as HG.
  unfold sat in HG. rewrite Hgen in HG.
  destruct HG as (Hf & Hdefs & Ht & Hlen).
  pose proof (frame_count_le _ _ Hf) as Hle.
  unfold analyzed_state in Hdefs, Ht, Hlen, Hle.
  cbn [label_count loop_end_stack set_stack_size set_pst] in Hdefs, Ht, Hlen, Hle.
  rewrite Hcount in Hdefs, Hlen, Hle.
  split; [|split].
  - apply NoDup_app; [|exact (defs_in_NoDup _ _ Hdefs)|].
    + rewrite Hmap, map_map. apply NoDup_map_inj; [|apply seq_NoDup].
      intros x y Hxy. apply label_line_inj in Hxy. tauto.
    + intros l Hl Hin. rewrite Hmap, map_map in Hl. apply in_map_iff in Hl.
      destruct Hl as (k & <- & Hk). apply in_seq in Hk.
      destruct (defs_in_In _ _ _ Hdefs Hin) as (p & n & Heq & Hn).
      apply label_line_inj in Heq. unfold between in Hn. lia.
  - apply defs_in_counts; assumption.
  - unfold targets_ok in Ht. rewrite Forall_forall in Ht.
    intros t Hin. destruct (Ht t Hin) as [H|H]; [exact H|].
    rewrite Hstack in H. destruct H.
Qed.

(* ====================================================================== *)
(** ** 19. Declaration before use *)
(* ====================================================================== *)

(** Before position [j] of [rows] there is a declaration of [name]: a
    [let] or [fix] row with the row of [name] next to it. *)
Definition declared_before (rows : list PstRow) (j : nat) (name : string) : Prop :=
  exists d m v,
    d + 1 <= j
    /\ nth_error rows d = Some m /\ category m = Mutability
    /\ nth_error rows (d + 1) = Some v /\ category v = Variable_ /\ lexeme v = name.

Lemma declared_before_cons row rows j name :
  declared_before rows j name -> declared_before (row :: rows) (S j) name.
Proof.
  intros (d & m & v & Hd & Hm & Hc & Hv & Hcv & Hl). exists (S d), m, v.
  repeat split; auto. lia.
Qed.

Definition declared_post (self : Compiler) (rows' : list PstRow) (_ : Compiler) : Prop :=
  forall j r, nth_error rows' j = Some r -> category r = Variable_ ->
              In (lexeme r) (map fst (symbol_table self))
              \/ declared_before rows' j (lexeme r).

Lemma analyze_loop_declared rows : forall self,
  Forall row_shape rows ->
  sat (analyze_loop rows) self (declared_post self) (fun _ => True).
Proof.
  induction rows as [|row rest IH] using rows_ind; intros self Hshape.
  - apply sat_ret. intros [|j] r H; discriminate H.
  - inversion Hshape as [|? ? Hrow Hrest]; subst.
    assert (Hnot : forall r, row_shape r -> (lexeme r = ":" \/ lexeme r = ";") ->
                             category r <> Variable_).
    { intros r Hr Hl Hv. unfold row_shape in Hr. rewrite Hv in Hr.
      destruct Hr as (name & Hname & _). destruct Hl as [Hl|Hl]; rewrite Hl in Hname;
        discriminate Hname. }
    assert (Hskip : forall self1 row',
               symbol_table self1 = symbol_table self ->
               (category row' = Variable_ ->
                In (lexeme row') (map fst (symbol_table self))) ->
               sat (rest' <- analyze_loop rest ;; ret (row' :: rest')) self1
                   (declared_post self) (fun _ => True)).
    { intros self1 row' Ht Hr. apply sat_bind.
      eapply sat_weaken; [apply IH; [lia | exact Hrest] | | auto].
      intros rest' self2 Hp. apply sat_ret. intros [|j] r Hj Hv.
      - inversion Hj; subst. left. auto.
      - destruct (Hp j r Hj Hv) as [H|H]; [left; rewrite <- Ht; exact H|].
        right. apply declared_before_cons. exact H. }
    cbn [analyze_loop].
    destruct (category row) eqn:Hc;
      try (apply Hskip; [reflexivity | intro Hv; congruence]).
    + (* a use of a variable *)
      apply sat_bind, sat_get.
      destruct (dict_get (lexeme row) (symbol_table self)) as [decl|] eqn:Hget;
        [|apply sat_raise; exact I].
      apply Hskip; [reflexivity|]. intros _. apply (dict_get_In _ _ _ Hget).
    + (* a string literal *)
      apply sat_bind, sat_get. apply sat_bind.
      destruct (negb (dict_mem (lexeme row) (string_literals self))).
      * apply sat_bind, sat_get_unique_label, sat_modify.
        apply Hskip; [reflexivity | intro Hv; congruence].
      * apply sat_ret. apply Hskip; [reflexivity | intro Hv; congruence].
    + (* a declaration *)
      destruct rest as [|var [|colon [|type_kw [|semi rest']]]];
        try (apply sat_raise; exact I).
      destruct (Category_eqb (category var) Variable_
                && String.eqb (lexeme colon) ":"
                && Category_eqb (category type_kw) Type_
                && String.eqb (lexeme semi) ";") eqn:Hdecl; cbn [negb];
        [|apply sat_raise; exact I].
      apply andb_prop in Hdecl. destruct Hdecl as [Hdecl Hsemi].
      apply andb_prop in Hdecl. destruct Hdecl as [Hdecl Htype].
      apply andb_prop in Hdecl. destruct Hdecl as [Hvar Hcolon].
      apply Category_eqb_eq in Hvar, Htype. apply String.eqb_eq in Hcolon, Hsemi.
      inversion Hrest as [|? ? Svar Hr1]; subst.
      inversion Hr1 as [|? ? Scolon Hr2]; subst.
      inversion Hr2 as [|? ? Stype Hr3]; subst.
      inversion Hr3 as [|? ? Ssemi Hr4]; subst.
      apply sat_bind, sat_get.
      destruct (dict_mem (lexeme var) (symbol_table self)) eqn:Hmem;
        [apply sat_raise; exact I|].
      apply dict_mem_false in Hmem.
      apply sat_bind, sat_modify. apply sat_bind, sat_get.
      apply sat_bind, sat_modify. apply sat_bind.
      cbn [stack_size set_stack_size symbol_table set_symbol_table].
      rewrite (dict_set_absent _ _ _ Hmem).
      set (var' := set_mem_location var _).
      eapply sat_weaken; [apply IH; [cbn [length]; lia | exact Hr4] | | auto].
      intros rest'' self2 Hp. apply sat_ret.
      assert (Hhere : declared_before (row :: var' :: colon :: type_kw :: semi :: rest'')
                                      1 (lexeme var)).
      { exists 0, row, var'. repeat split; auto. }
      assert (Hlater : forall j, 1 <= j ->
                 declared_before (row :: var' :: colon :: type_kw :: semi :: rest'')
                                 j (lexeme var)).
      { intros j Hj. destruct Hhere as (d & m & v & Hd & H). exists d, m, v.
        split; [lia | exact H]. }
      intros [|[|[|[|[|j]]]]] r Hj Hv; cbn [nth_error] in Hj.
      * inversion Hj; subst. congruence.
      * inversion Hj; subst. right. exact Hhere.
      * inversion Hj; subst. exfalso. apply (Hnot r Scolon); auto.
      * inversion Hj; subst. congruence.
      * inversion Hj; subst. exfalso. apply (Hnot r Ssemi); auto.
      * destruct (Hp j r Hj Hv) as [H|H].
        -- cbn [symbol_table set_symbol_table set_stack_size] in H.
           rewrite map_app, in_app_iff in H. destruct H as [H|[H|[]]]; [left; exact H|].
           right. cbn [fst] in H. rewrite <- H. apply Hlater. lia.
        -- right. do 5 apply declared_before_cons. exact H.
Qed.

(** X13. In a program whose analysis succeeds every variable is declared
    before it is used: each variable row comes after (or is the name of)
    a [let] or [fix] declaration of its name earlier in the program. *)
Theorem X13_declared_before_use :
  forall src toks rows rows' self3,
    tokenize_loop (S (String.length src)) src 1 = Ok toks ->
    categorize_loop toks = Ok rows ->
    analyze_loop rows (categorized_state src toks rows) = Ok (rows', self3) ->
    forall j r, nth_error rows' j = Some r -> category r = Variable_ ->
                declared_before rows' j (lexeme r).
Proof.
  intros src toks rows rows' self3 Htok Hcat Han j r Hj Hv.
  pose proof (categorize_loop_tokens toks (tokenize_loop_shapes _ _ _ _ Htok)) as Hrows.
  rewrite Hcat in Hrows. destruct Hrows as (_ & _ & _ & Hshape).
  pose proof (analyze_loop_declared rows (categorized_state src toks rows) Hshape) as H.
  unfold sat in H. rewrite Han in H.
  destruct (H j r Hj Hv) as [[]|Hd]. exact Hd.
Qed.

(* ====================================================================== *)
(** ** 20. What the analysis leaves as it was *)
(* ====================================================================== *)

(** [r'] is [r], but for the storage location of a variable. *)
Definition kept (r r' : PstRow) : Prop :=
  same_token r r' /\ (category r <> Variable_ -> r' = r).

Lemma kept_refl r : kept r r.
Proof. split; [apply same_token_refl | reflexivity]. Qed.

Lemma analyze_loop_kept rows : forall self,
  sat (analyze_loop rows) self (fun rows' _ => Forall2 kept rows rows') (fun _ => True).
Proof.
  induction rows as [|row rest IH] using rows_ind; intros self.
  - apply sat_ret. constructor.
  - assert (Hskip : forall self1 row',
               kept row row' ->
               sat (rest' <- analyze_loop rest ;; ret (row' :: rest')) self1
                   (fun rows' _ => Forall2 kept (row :: rest) rows') (fun _ => True)).
    { intros self1 row' Hr. apply sat_bind.
      eapply sat_weaken; [apply IH; lia | | auto].
      intros rest' self2 Hp. apply sat_ret. constructor; assumption. }
    cbn [analyze_loop].
    destruct (category row) eqn:Hc; try (apply Hskip; apply kept_refl).
    + apply sat_bind, sat_get.
      destruct (dict_get (lexeme row) (symbol_table self)) as [decl|];
        [|apply sat_raise; exact I].
      apply Hskip. split; [repeat split | intro H; congruence].
    + apply sat_bind, sat_get. apply sat_bind.
      destruct (negb (dict_mem (lexeme row) (string_literals self))).
      * apply sat_bind, sat_get_unique_label, sat_modify. apply Hskip, kept_refl.
      * apply sat_ret. apply Hskip, kept_refl.
    + destruct rest as [|var [|colon [|type_kw [|semi rest']]]];
        try (apply sat_raise; exact I).
      destruct (Category_eqb (category var) Variable_
                && String.eqb (lexeme colon) ":"
                && Category_eqb (category type_kw) Type_
                && String.eqb (lexeme semi) ";") eqn:Hdecl; cbn [negb];
        [|apply sat_raise; exact I].
      apply andb_prop in Hdecl. destruct Hdecl as [Hdecl _].
      apply andb_prop in Hdecl. destruct Hdecl as [Hdecl _].
      apply andb_prop in Hdecl. destruct Hdecl as [Hvar _].
      apply Category_eqb_eq in Hvar.
      apply sat_bind, sat_get.
      destruct (dict_mem (lexeme var) (symbol_table self)); [apply sat_raise; exact I|].
      apply sat_bind, sat_modify. apply sat_bind, sat_get.
      apply sat_bind, sat_modify. apply sat_bind.
      eapply sat_weaken; [apply IH; cbn [length]; lia | | auto].
      intros rest'' self2 Hp. apply sat_ret.
      apply Forall2_cons; [apply kept_refl|].
      apply Forall2_cons; [split; [repeat split | intro H; congruence]|].
      do 3 (apply Forall2_cons; [apply kept_refl|]). exact Hp.
Qed.

(** X14. The analysis returns the rows it was given: as many, in the same
    order, each with its lexeme, category and line; a row that is not a
    variable is returned unchanged, so the storage location is the only
    thing the analysis writes into a row, and only for variables. *)
Theorem X14_analysis_keeps_rows :
  forall rows self rows' self',
    analyze_loop rows self = Ok (rows', self') ->
    length rows' = length rows
    /\ map lexeme rows' = map lexeme rows
    /\ map category rows' = map category rows
    /\ map line rows' = map line rows
    /\ forall j r, nth_error rows j = Some r -> category r <> Variable_ ->
                   nth_error rows' j = Some r.
Proof.
  intros rows self rows' self' Han.
  pose proof (analyze_loop_kept rows self) as H. unfold sat in H. rewrite Han in H.
  clear Han. induction H as [|r r' rows rows' [(Hl & Hc & Hn) Hsame] _ IH].
  - repeat split. intros [|j] r H; discriminate H.
  - destruct IH as (IH1 & IH2 & IH3 & IH4 & IH5). cbn [length map].
    rewrite IH1, IH2, IH3, IH4, Hl, Hc, Hn. repeat split.
    intros [|j] x Hx Hcat; cbn [nth_error] in *.
    + inversion Hx; subst. rewrite (Hsame Hcat). reflexivity.
    + apply IH5; assumption.
Qed.

(* ====================================================================== *)
(** ** 21. Operators without an instruction *)
(* ====================================================================== *)

(** X15. In an assignment [target = val op operand2] whose operator row is
    none of [+], [-], [*], [/] (the comparison operators and [=] are
    operator rows too), the generator emits no instruction for the
    operator and raises nothing: the lines load [val] (and [operand2],
    when it is a variable) and store [val] to the target. *)
Theorem X15_operator_without_instruction :
  forall block_pst i self row next val op operand2,
    nth_error block_pst i = Some row ->
    category row = Variable_ ->
    nth_error block_pst (i + 1) = Some next ->
    lexeme next = "=" ->
    nth_error block_pst (i + 2) = Some val ->
    category val = Variable_ ->
    nth_error block_pst (i + 3) = Some op ->
    category op = Operator ->
    ~ In (lexeme op) ["+"; "-"; "*"; "/"] ->
    nth_error block_pst (i + 4) = Some operand2 ->
    category operand2 = Variable_ \/ category operand2 = NumericLiteral ->
    generate block_pst i self
    = match generate block_pst (i + 5) self with
      | Ok (rest, self') =>
          Ok ((nl ^^ "    # Katappa: " ^^ lexeme row ^^ " = ...")
                :: ("    movq    " ^^ fmt_loc (mem_location val) ^^ ", %rax")
                :: operand2_load operand2
                ++ ["    movq    %rax, " ^^ fmt_loc (mem_location row)]
                ++ rest, self')
      | Raise e => Raise e
      | OutOfFuel => OutOfFuel
      end.
Proof.
  intros block_pst i self row next val op operand2
         Hrow Hcat Hnext Hlex Hval Hvar Hop Hopc Hnot H4 Hop2.
  rewrite (generate_assignment_run _ _ self _ _ Hrow Hcat Hnext Hlex).
  unfold gen_assignment.
  assert (Htest : test_at block_pst (i + 3)
                    (fun r => Category_eqb (category r) Operator) = true).
  { unfold test_at. rewrite Hop, Hopc.
    pose proof (nth_error_lt _ _ _ Hop) as Hlt.
    destruct (Nat.ltb_spec (i + 3) (length block_pst)); [reflexivity | lia]. }
  assert (Hmap : dict_get (lexeme op) op_map = None).
  { unfold op_map. cbn [dict_get].
    repeat match goal with
           | |- context [String.eqb (lexeme op) ?s] =>
               destruct (String.eqb_spec (lexeme op) s) as [He|_];
               [exfalso; apply Hnot; rewrite He; cbn; tauto|]
           end.
    reflexivity. }
  assert (Hdiv : String.eqb (lexeme op) "/" = false).
  { destruct (String.eqb_spec (lexeme op) "/") as [He|_]; [|reflexivity].
    exfalso. apply Hnot. rewrite He. cbn. tauto. }
  unfold bind at 1. unfold getitem at 1. rewrite Hval. cbn [ret].
  rewrite Hvar, Htest. cbn [Category_eqb andb].
  unfold bind at 1. unfold getitem at 1. rewrite Hop. cbn [ret].
  unfold bind at 1. unfold getitem at 1. rewrite H4. cbn [ret].
  rewrite Hmap, Hdiv. unfold operand2_load.
  destruct Hop2 as [Hc | Hc]; rewrite Hc; cbn [Category_eqb];
    unfold bind; cbn [ret snd fst app];
    destruct (generate block_pst (i + 5) self) as [[rest s]|e|]; reflexivity.
Qed.

(* ====================================================================== *)
(** ** 22. Where errors point *)
(* ====================================================================== *)

(** [l] is the line of a position of [src] where some text is left. *)
Definition position_line (src : string) (l : nat) : Prop :=
  exists before after,
    src = before ^^ after /\ after <> EmptyString /\ l = 1 + count_nl before.

Lemma token_position src toks value ln :
  tokenize_loop (S (String.length src)) src 1 = Ok toks ->
  In (value, ln) toks -> position_line src ln.
Proof.
  intros Htok Hin.
  pose proof (tokenize_loop_nonempty _ _ _ _ Htok) as Hne.
  rewrite Forall_forall in Hne. specialize (Hne (value, ln) Hin). cbn [fst] in Hne.
  destruct (occur_in_order_In _ _ _ _ _ (tokenize_loop_occur _ _ _ _ Htok) Hin)
    as (before & after & Hs & Hl).
  exists before, (value ^^ after). split; [exact Hs|]. split; [|exact Hl].
  destruct value; [contradiction | discriminate].
Qed.

Lemma row_position src toks rows row :
  tokenize_loop (S (String.length src)) src 1 = Ok toks ->
  map line rows = map snd toks ->
  In row rows -> position_line src (line row).
Proof.
  intros Htok Hmap Hin. apply (in_map line) in Hin. rewrite Hmap in Hin.
  apply in_map_iff in Hin. destruct Hin as ([value ln] & Hl & Hin). cbn [snd] in Hl.
  rewrite <- Hl. eapply token_position; eassumption.
Qed.

Lemma compile_error_position src msg l :
  run_compile src = Raise (CompilationError msg l) -> position_line src l.
Proof.
  intro H. apply run_compile_Raise in H. rewrite compile_run in H.
  destruct (tokenize_loop (S (String.length src)) src 1) as [toks|e|] eqn:Htok;
    [| |discriminate H].
  - pose proof (categorize_loop_spec toks) as Hcat. unfold categorize_post in Hcat.
    destruct (categorize_loop toks) as [rows|e|] eqn:Hrows; [| |discriminate H].
    + destruct Hcat as [_ Hlines].
      pose proof (analyze_loop_spec rows (categorized_state src toks rows)) as Han.
      unfold sat in Han.
      destruct (analyze_loop rows (categorized_state src toks rows))
        as [[rows' self3]|e|] eqn:Hrows'; [| |discriminate H].
      * destruct Han as (Hsame & _).
        pose proof (generate_spec rows' 0 (analyzed_state rows' self3)) as Hgen.
        unfold sat in Hgen.
        destruct (generate rows' 0 (analyzed_state rows' self3)) as [[t s]|e|];
          [discriminate H | | discriminate H].
        inversion H; subst e. cbn [gen_exn] in Hgen.
        destruct Hgen as (_ & row & Hin & ->).
        apply (row_position src toks rows'); [exact Htok | | exact Hin].
        rewrite (Forall2_same_token_lines _ _ Hsame). exact Hlines.
      * inversion H; subst e. destruct Han as (msg' & row & He & Hin & _).
        inversion He; subst. eapply row_position; eassumption.
    + inversion H; subst e. destruct Hcat as (lx & ln & Hin & He).
      inversion He; subst. eapply token_position; eassumption.
  - inversion H; subst e.
    destruct (tokenize_loop_error _ _ _ _ Htok) as (before & c & after & Hs & _ & _ & He).
    inversion He; subst. exists before, (String c after).
    split; [reflexivity|]. split; [discriminate | reflexivity].
Qed.

(** X16. The line of a [CompilationError] of any stage is a line of the
    source: the line of a position in the text where the offending
    character or a token stands, so at least 1 and at most 1 plus the
    number of newlines of the source. *)
Theorem X16_error_line_is_in_the_source :
  forall src msg l,
    run_compile src = Raise (CompilationError msg l) ->
    position_line src l /\ 1 <= l <= 1 + count_nl src.
Proof.
  intros src msg l H. pose proof (compile_error_position src msg l H) as Hpos.
  split; [exact Hpos|].
  destruct Hpos as (before & after & -> & _ & ->).
  rewrite count_nl_append. lia.
Qed.

(** [CompilationError.formatted_message]: [self.line] is an int at every
    [raise] of the compiler, and [if self.line] is false for 0. *)
Definition formatted_message (message : string) (line : nat) : string :=
  if Nat.eqb line 0 then "[Error] " ^^ message
  else "[Error on line " ^^ str_of_nat line ^^ "] " ^^ message.

Lemma digits_split s : forall t x y,
  all_chars re_digit s = true -> all_chars re_digit t = true ->
  s ^^ String "]" x = t ^^ String "]" y -> s = t /\ x = y.
Proof.
  induction s as [|c s IH]; intros [|d t] x y Hs Ht H; cbn [String.append] in H.
  - inversion H. auto.
  - exfalso. injection H as Hc _. subst d. discriminate Ht.
  - exfalso. injection H as Hc _. subst c. discriminate Hs.
  - injection H as Hc Hr. cbn [all_chars] in Hs, Ht.
    apply andb_prop in Hs, Ht.
    destruct (IH t x y (proj2 Hs) (proj2 Ht) Hr) as [-> ->]. rewrite Hc. auto.
Qed.

Lemma formatted_message_line message line :
  1 <= line ->
  formatted_message message line = "[Error on line " ^^ str_of_nat line ^^ "] " ^^ message.
Proof.
  intro H. unfold formatted_message.
  destruct (Nat.eqb_spec line 0); [lia | reflexivity].
Qed.

(** X17. The report of a [CompilationError] of any stage names the line,
    and it tells errors apart: two errors of compilations with the same
    report have the same line and the same message. *)
Theorem X17_error_report_names_the_line :
  forall src msg l,
    run_compile src = Raise (CompilationError msg l) ->
    formatted_message msg l = "[Error on line " ^^ str_of_nat l ^^ "] " ^^ msg
    /\ forall src' msg' l',
         run_compile src' = Raise (CompilationError msg' l') ->
         formatted_message msg' l' = formatted_message msg l ->
         msg' = msg /\ l' = l.
Proof.
  intros src msg l H.
  assert (Hl : 1 <= l).
  { destruct (compile_error_position src msg l H) as (b & a & _ & _ & ->). lia. }
  split; [apply formatted_message_line; exact Hl|].
  intros src' msg' l' H' Heq.
  assert (Hl' : 1 <= l').
  { destruct (compile_error_position src' msg' l' H') as (b & a & _ & _ & ->). lia. }
  rewrite !formatted_message_line in Heq by assumption.
  cbn [String.append] in Heq.
  repeat match type of Heq with
         | String _ _ = String _ _ => injection Heq as Heq
         end.
  apply digits_split in Heq; try apply str_of_nat_digits.
  destruct Heq as [Hn Hm]. apply str_of_nat_inj in Hn.
  injection Hm as Hm. auto.
Qed.

(* ====================================================================== *)
(** ** 23. Printing a string constant *)
(* ====================================================================== *)

Lemma print_row_is_io r : row_shape r -> lexeme r = "print" -> category r = Io.
Proof.
  unfold row_shape. intros H Hl. rewrite Hl in H.
  destruct (category r); try reflexivity; exfalso;
    cbn [keyword_shape token_shape In operators delimiters] in H;
    repeat match goal with
           | H : _ \/ _ |- _ => destruct H
           | H : exists _, _ |- _ => destruct H
           | H : _ /\ _ |- _ => destruct H
           | H : False |- _ => destruct H
           end;
    try discriminate;
    match goal with
    | Hd : all_chars re_digit ?d = true, He : _ = ?d |- _ =>
        rewrite <- He in Hd; discriminate Hd
    end.
Qed.

(** X18. Printing a string constant of an analysed program, at any
    cursor of any block of its rows: the generator loads the address of
    the label that the data section defines with exactly that text,
    calls [printf] and goes on after the two rows; the lookup of the
    label does not fail. *)
Theorem X18_print_loads_its_constant :
  forall src toks rows rows' self3 block_pst i self row val,
    tokenize_loop (S (String.length src)) src 1 = Ok toks ->
    categorize_loop toks = Ok rows ->
    analyze_loop rows (categorized_state src toks rows) = Ok (rows', self3) ->
    (forall r, In r block_pst -> In r rows') ->
    string_literals self = string_literals self3 ->
    nth_error block_pst i = Some row ->
    lexeme row = "print" ->
    nth_error block_pst (i + 1) = Some val ->
    category val = StringLiteral ->
    exists label,
      In (label ^^ ": .string " ^^ lexeme val) (data_section (string_literals self3))
      /\ generate block_pst i self
         = match generate block_pst (i + 2) self with
           | Ok (rest, self') =>
               Ok ((nl ^^ "    # Katappa: print " ^^ lexeme val ^^ ";")
                     :: ("    leaq    " ^^ label ^^ "(%rip), %rcx")
                     :: "    subq    $32, %rsp"
                     :: "    movq    $0, %rax"
                     :: "    call    printf"
                     :: "    addq    $32, %rsp"
                     :: rest, self')
           | Raise e => Raise e
           | OutOfFuel => OutOfFuel
           end.
Proof.
  intros src toks rows rows' self3 block_pst i self row val
         Htok Hcat Han Hincl Hlits Hrow Hprint Hval Hstr.
  pose proof (categorize_loop_tokens toks (tokenize_loop_shapes _ _ _ _ Htok)) as Hrows.
  rewrite Hcat in Hrows. destruct Hrows as (_ & _ & _ & Hshape).
  pose proof (analyzed_rows_shape _ _ _ _ Han Hshape) as Hshape'.
  rewrite Forall_forall in Hshape'.
  pose proof (analyze_loop_labels rows (categorized_state src toks rows) Hshape
                (literals_ok_categorized_state src toks rows)) as HL.
  unfold sat in HL. rewrite Han in HL. destruct HL as (_ & _ & Hreg).
  rewrite Forall_forall in Hreg.
  assert (Hio : category row = Io).
  { apply print_row_is_io; [|exact Hprint].
    apply Hshape', Hincl. eapply nth_error_In; exact Hrow. }
  assert (Hin : In val rows') by (apply Hincl; eapply nth_error_In; exact Hval).
  specialize (Hreg val Hin Hstr). unfold dict_mem in Hreg.
  destruct (dict_get (lexeme val) (string_literals self3)) as [label|] eqn:Hget;
    [|discriminate Hreg].
  exists label. split.
  - destruct (dict_get_nth _ _ _ Hget) as (k & Hk). apply nth_error_In in Hk.
    unfold data_section. apply in_or_app. left.
    destruct (string_literals self3) as [|item items] eqn:Hsl; [contradiction|].
    right. rewrite <- Hsl in *.
    apply (in_map (fun item => snd item ^^ ": .string " ^^ fst item)) in Hk. exact Hk.
  - rewrite (generate_keyword _ _ _ _ Hrow (or_intror Hio)). rewrite Hprint.
    cbn [String.eqb Ascii.eqb Bool.eqb]. unfold gen_print.
    unfold bind at 1. unfold getitem at 1. rewrite Hval. cbn [ret].
    rewrite Hstr. cbn [Category_eqb].
    unfold bind, get, lift, dict_lookup, ret. rewrite Hlits, Hget.
    destruct (generate block_pst (i + 2) self) as [[rest s]|e|]; reflexivity.
Qed.

(* ====================================================================== *)
(** ** 24. One declaration per name *)
(* ====================================================================== *)

(** The row at [d] is a [let] or [fix] and the next row has the lexeme
    [name]. *)
Definition declares (rows : list PstRow) (d : nat) (name : string) : Prop :=
  exists m v,
    nth_error rows d = Some m /\ category m = Mutability
    /\ nth_error rows (d + 1) = Some v /\ lexeme v = name.

Lemma declares_tail row rows d name :
  category row <> Mutability ->
  declares (row :: rows) d name -> exists d0, d = S d0 /\ declares rows d0 name.
Proof.
  intros Hc (m & v & Hm & Hcm & Hv & Hl). destruct d as [|d0].
  - inversion Hm; subst. contradiction.
  - exists d0. split; [reflexivity|]. exists m, v. auto.
Qed.

Definition once_post (self : Compiler) (rows' : list PstRow) (_ : Compiler) : Prop :=
  (forall d name, declares rows' d name -> ~ In name (map fst (symbol_table self)))
  /\ (forall d d' name, declares rows' d name -> declares rows' d' name -> d = d').

Lemma analyze_loop_once rows : forall self,
  Forall row_shape rows ->
  sat (analyze_loop rows) self (once_post self) (fun _ => True).
Proof.
  induction rows as [|row rest IH] using rows_ind; intros self Hshape.
  - apply sat_ret. split.
    + intros [|d] name (m & v & H & _); discriminate H.
    + intros [|d] d' name (m & v & H & _); discriminate H.
  - inversion Hshape as [|? ? Hrow Hrest]; subst.
    assert (Hnot : forall r, row_shape r -> (lexeme r = ":" \/ lexeme r = ";") ->
                             category r <> Mutability).
    { intros r Hr Hl Hv. unfold row_shape in Hr. rewrite Hv in Hr. cbn in Hr.
      destruct Hl as [Hl|Hl]; rewrite Hl in Hr; destruct Hr as [Hr|Hr]; discriminate Hr. }
    assert (Hskip : forall self1 row',
               symbol_table self1 = symbol_table self ->
               category row' <> Mutability ->
               sat (rest' <- analyze_loop rest ;; ret (row' :: rest')) self1
                   (once_post self) (fun _ => True)).
    { intros self1 row' Ht Hr. apply sat_bind.
      eapply sat_weaken; [apply IH; [lia | exact Hrest] | | auto].
      intros rest' self2 [Ha Hb]. apply sat_ret. rewrite Ht in Ha. split.
      - intros d name Hd. destruct (declares_tail _ _ _ _ Hr Hd) as (d0 & -> & Hd0).
        apply (Ha d0 name Hd0).
      - intros d d' name Hd Hd'.
        destruct (declares_tail _ _ _ _ Hr Hd) as (d0 & -> & Hd0).
        destruct (declares_tail _ _ _ _ Hr Hd') as (d0' & -> & Hd0').
        f_equal. apply (Hb d0 d0' name); assumption. }
    cbn [analyze_loop].
    destruct (category row) eqn:Hc;
      try (apply Hskip; [reflexivity | congruence]).
    + apply sat_bind, sat_get.
      destruct (dict_get (lexeme row) (symbol_table self)) as [decl|];
        [|apply sat_raise; exact I].
      apply Hskip; [reflexivity|]. cbn [category set_mem_location]. congruence.
    + apply sat_bind, sat_get. apply sat_bind.
      destruct (negb (dict_mem (lexeme row) (string_literals self))).
      * apply sat_bind, sat_get_unique_label, sat_modify.
        apply Hskip; [reflexivity | congruence].
      * apply sat_ret. apply Hskip; [reflexivity | congruence].
    + destruct rest as [|var [|colon [|type_kw [|semi rest']]]];
        try (apply sat_raise; exact I).
      destruct (Category_eqb (category var) Variable_
                && String.eqb (lexeme colon) ":"
                && Category_eqb (category type_kw) Type_
                && String.eqb (lexeme semi) ";") eqn:Hdecl; cbn [negb];
        [|apply sat_raise; exact I].
      apply andb_prop in Hdecl. destruct Hdecl as [Hdecl Hsemi].
      apply andb_prop in Hdecl. destruct Hdecl as [Hdecl Htype].
      apply andb_prop in Hdecl. destruct Hdecl as [Hvar Hcolon].
      apply Category_eqb_eq in Hvar, Htype. apply String.eqb_eq in Hcolon, Hsemi.
      inversion Hrest as [|? ? Svar Hr1]; subst.
      inversion Hr1 as [|? ? Scolon Hr2]; subst.
      inversion Hr2 as [|? ? Stype Hr3]; subst.
      inversion Hr3 as [|? ? Ssemi Hr4]; subst.
      apply sat_bind, sat_get.
      destruct (dict_mem (lexeme var) (symbol_table self)) eqn:Hmem;
        [apply sat_raise; exact I|].
      apply dict_mem_false in Hmem.
      apply sat_bind, sat_modify. apply sat_bind, sat_get.
      apply sat_bind, sat_modify. apply sat_bind.
      cbn [stack_size set_stack_size symbol_table set_symbol_table].
      rewrite (dict_set_absent _ _ _ Hmem).
      set (var' := set_mem_location var _).
      eapply sat_weaken; [apply IH; [cbn [length]; lia | exact Hr4] | | auto].
      intros rest'' self2 [Ha Hb]. apply sat_ret.
      cbn [symbol_table set_symbol_table set_stack_size] in Ha.
      assert (Hinv : forall d name,
                 declares (row :: var' :: colon :: type_kw :: semi :: rest'') d name ->
                 (d = 0 /\ name = lexeme var)
                 \/ exists d0, d = 5 + d0 /\ declares rest'' d0 name).
      { intros d name Hd. destruct d as [|d].
        - left. split; [reflexivity|]. destruct Hd as (m & v & _ & _ & Hv & Hl).
          cbn in Hv. inversion Hv; subst. reflexivity.
        - right.
          assert (H1 : declares (var' :: colon :: type_kw :: semi :: rest'') d name).
          { destruct Hd as (m & v & Hm & Hcm & Hv & Hl). exists m, v. auto. }
          assert (Hvar' : category var' <> Mutability)
            by (unfold var'; cbn [category set_mem_location]; congruence).
          destruct (declares_tail _ _ _ _ Hvar' H1) as (d2 & -> & H2).
          destruct (declares_tail _ _ _ _ (Hnot colon Scolon (or_introl Hcolon)) H2)
            as (d3 & -> & H3).
          assert (Htype' : category type_kw <> Mutability) by congruence.
          destruct (declares_tail _ _ _ _ Htype' H3) as (d4 & -> & H4).
          destruct (declares_tail _ _ _ _ (Hnot semi Ssemi (or_intror Hsemi)) H4)
            as (d5 & -> & H5).
          exists d5. split; [reflexivity | exact H5]. }
      assert (Hlater : forall d0 name, declares rest'' d0 name ->
                 ~ In name (map fst (symbol_table self)) /\ name <> lexeme var).
      { intros d0 name Hd0. specialize (Ha d0 name Hd0).
        rewrite map_app, in_app_iff in Ha. cbn [map fst In] in Ha.
        split; [tauto|]. intro He. apply Ha. right. left. congruence. }
      split.
      * intros d name Hd. destruct (Hinv d name Hd) as [[_ ->]|(d0 & _ & Hd0)].
        -- apply dict_get_None. exact Hmem.
        -- apply (Hlater d0 name Hd0).
      * intros d d' name Hd Hd'.
        destruct (Hinv d name Hd) as [[-> Hn]|(d0 & -> & Hd0)];
          destruct (Hinv d' name Hd') as [[-> Hn']|(d0' & -> & Hd0')].
        -- reflexivity.
        -- exfalso. apply (proj2 (Hlater d0' name Hd0')). exact Hn.
        -- exfalso. apply (proj2 (Hlater d0 name Hd0)). exact Hn'.
        -- f_equal. apply (Hb d0 d0' name); assumption.
Qed.

(** X19. In a program whose analysis succeeds no name is declared twice:
    two [let] or [fix] rows followed by the same name are the same row. *)
Theorem X19_one_declaration_per_name :
  forall src toks rows rows' self3,
    tokenize_loop (S (String.length src)) src 1 = Ok toks ->
    categorize_loop toks = Ok rows ->
    analyze_loop rows (categorized_state src toks rows) = Ok (rows', self3) ->
    forall d d' name, declares rows' d name -> declares rows' d' name -> d = d'.
Proof.
  intros src toks rows rows' self3 Htok Hcat Han.
  pose proof (categorize_loop_tokens toks (tokenize_loop_shapes _ _ _ _ Htok)) as Hrows.
  rewrite Hcat in Hrows. destruct Hrows as (_ & _ & _ & Hshape).
  pose proof (analyze_loop_once rows (categorized_state src toks rows) Hshape) as H.
  unfold sat in H. rewrite Han in H. exact (proj2 H).
Qed.

(* ====================================================================== *)
(** ** 25. Two compilations of one source *)
(* ====================================================================== *)

(** The texts of [xs] that are not in [seen], each once, in the order in
    which they first occur. *)
Fixpoint first_seen (seen xs : list string) : list string :=
  match xs with
  | [] => []
  | x :: xs' =>
      if existsb (String.eqb x) seen then first_seen seen xs'
      else x :: first_seen (seen ++ [x]) xs'
  end.

(** The lexemes of the string-literal rows, in the order of the rows. *)
Definition string_lexemes (rows : list PstRow) : list string :=
  map lexeme (filter (fun r => Category_eqb (category r) StringLiteral) rows).

Lemma dict_mem_keys {V} k (d : dict V) :
  dict_mem k d = existsb (String.eqb k) (map fst d).
Proof.
  unfold dict_mem. induction d as [|[k' v] d IH]; cbn [dict_get map fst existsb];
    [reflexivity|].
  destruct (String.eqb k k'); [reflexivity | exact IH].
Qed.

Lemma string_lexemes_skip row rows :
  category row <> StringLiteral -> string_lexemes (row :: rows) = string_lexemes rows.
Proof.
  intro H. unfold string_lexemes. cbn [filter].
  destruct (Category_eqb (category row) StringLiteral) eqn:E; [|reflexivity].
  apply Category_eqb_eq in E. contradiction.
Qed.

Lemma string_lexemes_same rows rows' :
  Forall2 same_token rows rows' -> string_lexemes rows' = string_lexemes rows.
Proof.
  unfold string_lexemes.
  induction 1 as [|r r' l l' (Hl & Hc & _) _ IH]; [reflexivity|].
  cbn [filter]. rewrite Hc.
  destruct (Category_eqb (category r) StringLiteral); cbn [map]; rewrite ?Hl, IH; reflexivity.
Qed.

Definition first_post (rows : list PstRow) (self : Compiler)
           (_ : list PstRow) (self' : Compiler) : Prop :=
  map fst (string_literals self')
  = map fst (string_literals self)
      ++ first_seen (map fst (string_literals self)) (string_lexemes rows).

(** The analysis registers the string constants in the order in which
    they first occur in the rows. *)
Lemma analyze_loop_first rows : forall self,
  Forall row_shape rows ->
  sat (analyze_loop rows) self (first_post rows self) (fun _ => True).
Proof.
  induction rows as [|row rest IH] using rows_ind; intros self Hshape.
  - apply sat_ret. unfold first_post. cbn. rewrite app_nil_r. reflexivity.
  - inversion Hshape as [|? ? Hrow Hrest]; subst.
    assert (Hnot : forall r, row_shape r -> (lexeme r = ":" \/ lexeme r = ";") ->
                             category r <> StringLiteral).
    { intros r Hr Hl Hv. unfold row_shape in Hr. rewrite Hv in Hr.
      destruct Hl as [Hl|Hl]; rewrite Hl in Hr; cbn in Hr;
        destruct Hr as (body & Hb & _); discriminate Hb. }
    assert (Hskip : forall self1 row',
               string_literals self1 = string_literals self ->
               category row <> StringLiteral ->
               sat (rest' <- analyze_loop rest ;; ret (row' :: rest')) self1
                   (first_post (row :: rest) self) (fun _ => True)).
    { intros self1 row' Ht Hr. apply sat_bind.
      eapply sat_weaken; [apply IH; [lia | exact Hrest] | | auto].
      intros rest' self2 Hp. apply sat_ret. unfold first_post in *.
      rewrite (string_lexemes_skip _ _ Hr), <- Ht. exact Hp. }
    cbn [analyze_loop].
    destruct (category row) eqn:Hc;
      try (apply Hskip; [reflexivity | congruence]).
    + apply sat_bind, sat_get.
      destruct (dict_get (lexeme row) (symbol_table self)) as [decl|];
        [|apply sat_raise; exact I].
      apply Hskip; [reflexivity | congruence].
    + assert (Hhead : string_lexemes (row :: rest) = lexeme row :: string_lexemes rest).
      { unfold string_lexemes. cbn [filter]. rewrite Hc. reflexivity. }
      apply sat_bind, sat_get. apply sat_bind.
      destruct (dict_mem (lexeme row) (string_literals self)) eqn:Hmem; cbn [negb].
      * apply sat_ret. apply sat_bind.
        eapply sat_weaken; [apply IH; [lia | exact Hrest] | | auto].
        intros rest' self2 Hp. apply sat_ret. unfold first_post in *.
        rewrite Hhead. cbn [first_seen]. rewrite <- dict_mem_keys, Hmem. exact Hp.
      * apply sat_bind, sat_get_unique_label, sat_modify. apply sat_bind.
        eapply sat_weaken; [apply IH; [lia | exact Hrest] | | auto].
        intros rest' self2 Hp. apply sat_ret. unfold first_post in *.
        cbn [string_literals set_string_literals set_label_count] in Hp.
        rewrite (dict_set_absent _ _ _ (dict_mem_false _ _ Hmem)) in Hp.
        rewrite map_app in Hp. cbn [map fst] in Hp.
        rewrite Hhead. cbn [first_seen]. rewrite <- dict_mem_keys, Hmem.
        rewrite Hp, <- app_assoc. reflexivity.
    + destruct rest as [|var [|colon [|type_kw [|semi rest']]]];
        try (apply sat_raise; exact I).
      destruct (Category_eqb (category var) Variable_
                && String.eqb (lexeme colon) ":"
                && Category_eqb (category type_kw) Type_
                && String.eqb (lexeme semi) ";") eqn:Hdecl; cbn [negb];
        [|apply sat_raise; exact I].
      apply andb_prop in Hdecl. destruct Hdecl as [Hdecl Hsemi].
      apply andb_prop in Hdecl. destruct Hdecl as [Hdecl Htype].
      apply andb_prop in Hdecl. destruct Hdecl as [Hvar Hcolon].
      apply Category_eqb_eq in Hvar, Htype. apply String.eqb_eq in Hcolon, Hsemi.
      inversion Hrest as [|? ? Svar Hr1]; subst.
      inversion Hr1 as [|? ? Scolon Hr2]; subst.
      inversion Hr2 as [|? ? Stype Hr3]; subst.
      inversion Hr3 as [|? ? Ssemi Hr4]; subst.
      apply sat_bind, sat_get.
      destruct (dict_mem (lexeme var) (symbol_table self)); [apply sat_raise; exact I|].
      apply sat_bind, sat_modify. apply sat_bind, sat_get.
      apply sat_bind, sat_modify. apply sat_bind.
      eapply sat_weaken; [apply IH; [cbn [length]; lia | exact Hr4] | | auto].
      intros rest'' self2 Hp. apply sat_ret. unfold first_post in *.
      cbn [string_literals set_symbol_table set_stack_size] in Hp.
      rewrite (string_lexemes_skip row) by congruence.
      rewrite (string_lexemes_skip var) by congruence.
      rewrite (string_lexemes_skip colon) by (apply Hnot; auto).
      rewrite (string_lexemes_skip type_kw) by congruence.
      rewrite (string_lexemes_skip semi) by (apply Hnot; auto).
      exact Hp.
Qed.

(** C6.  Two compilations of the same source text, each from a fresh
    context, end the same way: with the same assembly text (and the same
    final state), or with the same exception.  What the text depends on
    is fixed by the source: the string constants are kept in the order in
    which they first occur in the program, which is the order of their
    directives in the data section; they are labelled [.L_STR_1],
    [.L_STR_2], ... in that order; and the generator numbers its labels
    from the number of string constants on: with no line break in a
    string literal, the labels that the text section defines have the
    numbers after that up to the final counter, each number once. *)
Theorem C6_compile_deterministic :
  forall src self1 self2,
    fresh self1 -> source_code self1 = src ->
    fresh self2 -> source_code self2 = src ->
    compile self1 = compile self2
    /\ (forall text s1, compile self1 = Ok (text, s1) -> run_compile src = Ok text)
    /\ (forall text s2, compile self2 = Ok (text, s2) -> run_compile src = Ok text)
    /\ (forall text s1,
           compile self1 = Ok (text, s1) ->
           map fst (string_literals s1) = first_seen [] (string_lexemes (pst s1))
           /\ map snd (string_literals s1)
              = map (label_of "STR") (seq 1 (length (string_literals s1)))
           /\ exists rows' self3 text_section,
                label_count (analyzed_state rows' self3) = length (string_literals s1)
                /\ generate rows' 0 (analyzed_state rows' self3) = Ok (text_section, s1)
                /\ text = String.concat nl
                            (data_section (string_literals s1)
                               ++ main_prologue (stack_size s1)
                               ++ text_section ++ main_epilogue) ^^ nl)
    /\ (forall text s1,
           compile self1 = Ok (text, s1) ->
           (forall r, In r (pst s1) -> category r = StringLiteral ->
                      no_nl (lexeme r) = true) ->
           exists rows' self3 text_section labels,
             generate rows' 0 (analyzed_state rows' self3) = Ok (text_section, s1)
             /\ label_defs text_section = map def_line labels
             /\ Permutation (map snd labels)
                            (seq (length (string_literals s1) + 1)
                                 (label_count s1 - length (string_literals s1)))).
Proof.
  intros src self1 self2 F1 S1 F2 S2.
  apply fresh_init in F1. apply fresh_init in F2. rewrite S1 in F1. rewrite S2 in F2.
  subst self1 self2. split; [reflexivity|].
  split; [intros text s H; apply run_compile_Ok; exists s; exact H|].
  split; [intros text s H; apply run_compile_Ok; exists s; exact H|].
  split; [|intros text s1 Hc Hstr].
  2:{ pose proof (compile_stages src) as Hst. rewrite Hc in Hst.
      destruct Hst as (toks & rows & rows' & self3 & text_section & Hcomp).
      destruct Hcomp as [Htok Hrows Han Hgen Hout].
      pose proof (generate_spec rows' 0 (analyzed_state rows' self3)) as Hframe.
      unfold sat in Hframe. rewrite Hgen in Hframe. destruct Hframe as (n & Hn & Hs1).
      assert (Hlit : string_literals s1 = string_literals self3)
        by (rewrite Hs1; reflexivity).
      assert (Hpst : pst s1 = rows') by (rewrite Hs1; reflexivity).
      rewrite Hpst in Hstr.
      destruct (analysed_program_clean _ _ _ _ _ Htok Hrows Han Hstr) as [Hclean Hstate].
      pose proof (categorize_loop_tokens toks (tokenize_loop_shapes _ _ _ _ Htok)) as Hshape.
      rewrite Hrows in Hshape. destruct Hshape as (_ & _ & _ & Hshape).
      pose proof (analyze_loop_labels rows (categorized_state src toks rows) Hshape
                    (literals_ok_categorized_state src toks rows)) as HL.
      unfold sat in HL. rewrite Han in HL. destruct HL as ((Hcount & _) & _ & _).
      pose proof (generate_labels rows' 0 (analyzed_state rows' self3) Hclean Hstate) as HG.
      unfold sat in HG. rewrite Hgen in HG. destruct HG as (Hf & Hdefs & _ & Hlen).
      pose proof (frame_count_le _ _ Hf) as Hle.
      unfold analyzed_state in Hdefs, Hlen, Hle.
      cbn [label_count set_stack_size set_pst] in Hdefs, Hlen, Hle.
      rewrite Hcount, <- Hlit in Hdefs, Hlen, Hle.
      destruct (defs_in_counts _ _ _ Hle Hdefs Hlen) as (labels & Hl & Hp).
      exists rows', self3, text_section, labels. auto. }
  intros text s1 Hc.
  pose proof (compile_stages src) as Hst. rewrite Hc in Hst.
  destruct Hst as (toks & rows & rows' & self3 & text_section & Hcomp).
  destruct Hcomp as [Htok Hrows Han Hgen Hout].
  pose proof (generate_spec rows' 0 (analyzed_state rows' self3)) as Hframe.
  unfold sat in Hframe. rewrite Hgen in Hframe. destruct Hframe as (n & _ & Hs1).
  assert (Hlit : string_literals s1 = string_literals self3) by (rewrite Hs1; reflexivity).
  assert (Hpst : pst s1 = rows') by (rewrite Hs1; reflexivity).
  pose proof (categorize_loop_tokens toks (tokenize_loop_shapes _ _ _ _ Htok)) as Hshape.
  rewrite Hrows in Hshape. destruct Hshape as (_ & _ & _ & Hshape).
  pose proof (analyze_loop_first rows (categorized_state src toks rows) Hshape) as Hfirst.
  unfold sat in Hfirst. rewrite Han in Hfirst. unfold first_post in Hfirst.
  cbn [categorized_state string_literals map app] in Hfirst.
  pose proof (analyze_loop_labels rows (categorized_state src toks rows) Hshape
                (literals_ok_categorized_state src toks rows)) as HL.
  unfold sat in HL. rewrite Han in HL. destruct HL as (Hok & _ & _).
  pose proof (literals_ok_labels self3 Hok) as Hmap. destruct Hok as (Hcount & _).
  pose proof (analyze_loop_spec rows (categorized_state src toks rows)) as Hspec.
  unfold sat in Hspec. rewrite Han in Hspec. destruct Hspec as (Hsame & _).
  rewrite Hlit, Hpst. split; [|split].
  - rewrite (string_lexemes_same _ _ Hsame). exact Hfirst.
  - exact Hmap.
  - exists rows', self3, text_section.
    split; [exact Hcount|]. split; [exact Hgen|].
    exact Hout.
Qed.

(* ====================================================================== *)
(** ** 26. The properties on concrete programs *)
(* ====================================================================== *)

(** The stages run one by one on a source text. *)
Definition scan (src : string) : list (string * nat) :=
  match tokenize_loop (S (String.length src)) src 1 with
  | Ok toks => toks
  | _ => []
  end.

Definition scan_error (src : string) : exn :=
  match tokenize_loop (S (String.length src)) src 1 with
  | Raise e => e
  | _ => ValueError
  end.

Definition classify (src : string) : list PstRow :=
  match categorize_loop (scan src) with
  | Ok rows => rows
  | _ => []
  end.

Definition classify_error (src : string) : exn :=
  match categorize_loop (scan src) with
  | Raise e => e
  | _ => ValueError
  end.

Definition analysis (src : string) : list PstRow * Compiler :=
  match analyze_loop (classify src) (categorized_state src (scan src) (classify src)) with
  | Ok p => p
  | _ => ([], __init__ EmptyString)
  end.

Definition analysed (src : string) : Compiler :=
  analyzed_state (fst (analysis src)) (snd (analysis src)).

Definition generated (src : string) : list string * Compiler :=
  match generate (fst (analysis src)) 0 (analysed src) with
  | Ok p => p
  | _ => ([], __init__ EmptyString)
  end.

Definition row_of (rows : list PstRow) (k : nat) : PstRow :=
  nth k rows (PstRow_init EmptyString Delimiter 0).

Definition src_countdown : string :=
  "let .x : num ; .x = 3 ;" ^^ nl
  ^^ "loop { when .x == 0 { stop ; } other { print " ^^ dq ^^ "go" ^^ dq ^^ " ; }" ^^ nl
  ^^ "  .x = .x - 1 ; }".
Definition src_dollar : string := "let .x : num ;" ^^ nl ^^ ".x = 5 $ ;".
Definition src_unknown : string := "let .x : num ;" ^^ nl ^^ "foo .x ;".
Definition src_compare : string := "let .x : num ; let .y : num ; .x = .y == 3 ;".

Example countdown_labels :
  label_defs (fst (generated src_countdown))
  = [".L_LOOP_START_2:"; ".L_ELSE_4:"; ".L_END_WHEN_5:"; ".L_LOOP_END_3:"].
Proof. vm_compute. reflexivity. Qed.

Example countdown_jumps :
  jump_targets (fst (generated src_countdown))
  = [".L_ELSE_4"; ".L_LOOP_END_3"; ".L_END_WHEN_5"; ".L_LOOP_START_2"].
Proof. vm_compute. reflexivity. Qed.

(** A string literal may hold line breaks, and the generator copies the
    literal into the comment of its [print]: the text then has lines
    that the generator did not write as lines. *)
Definition src_line_break : string :=
  "let .x : num ; print " ^^ dq ^^ nl ^^ ".L_ELSE_2:" ^^ nl ^^ "    jmp .L_NOWHERE" ^^ nl ^^ dq
  ^^ " ; when .x == 1 { }".

Example line_break_labels :
  label_defs (fst (generated src_line_break))
  = [".L_ELSE_2:"; ".L_ELSE_2:"; ".L_END_WHEN_3:"].
Proof. vm_compute. reflexivity. Qed.

Example line_break_jumps :
  jump_targets (fst (generated src_line_break))
  = [".L_NOWHERE"; ".L_ELSE_2"; ".L_END_WHEN_3"].
Proof. vm_compute. reflexivity. Qed.

Lemma X1_tokens_in_source_order_witness :
  occur_in_order src_countdown 1 (scan src_countdown)
  /\ StronglySorted le (map snd (scan src_countdown))
  /\ forall value ln,
       In (value, ln) (scan src_countdown) ->
       value <> EmptyString
       /\ exists before after,
            src_countdown = before ^^ value ^^ after /\ ln = 1 + count_nl before.
Proof.
  refine (X1_tokens_in_source_order src_countdown (scan src_countdown) _).
  vm_compute. reflexivity.
Defined.

Lemma X2_lex_error_position_witness :
  exists before c after,
    src_dollar = before ^^ String c after
    /\ c <> nl_char
    /\ (forall g re, In (g, re) token_spec -> g <> GMismatch -> re (String c after) = None)
    /\ scan_error src_dollar
       = CompilationError ("Unexpected character: '" ^^ String c EmptyString ^^ "'")
                          (1 + count_nl before).
Proof.
  refine (X2_lex_error_position src_dollar (scan_error src_dollar) _).
  vm_compute. reflexivity.
Defined.

Lemma X3_tokens_scan_again_witness :
  exists toks',
    tokenize_loop (S (String.length (String.concat " " (map fst (scan src_countdown)))))
                  (String.concat " " (map fst (scan src_countdown))) 1 = Ok toks'
    /\ map fst toks' = map fst (scan src_countdown).
Proof.
  refine (X3_tokens_scan_again src_countdown (scan src_countdown) _).
  vm_compute. reflexivity.
Defined.

Lemma X4_unknown_symbol_is_a_word_witness :
  exists word ln,
    In (word, ln) (scan src_unknown)
    /\ classify_error src_unknown = CompilationError ("Unknown symbol '" ^^ word ^^ "'") ln
    /\ word <> EmptyString /\ all_chars re_alpha word = true
    /\ dict_get word KEYWORDS = None.
Proof.
  refine (X4_unknown_symbol_is_a_word src_unknown (scan src_unknown)
            (classify_error src_unknown) _ _); vm_compute; reflexivity.
Defined.

Lemma X5_rows_of_scanned_tokens_witness :
  map lexeme (classify src_countdown) = map fst (scan src_countdown)
  /\ map line (classify src_countdown) = map snd (scan src_countdown)
  /\ Forall (fun r => mem_location r = None) (classify src_countdown)
  /\ Forall row_shape (classify src_countdown).
Proof.
  refine (X5_rows_of_scanned_tokens src_countdown (scan src_countdown)
            (classify src_countdown) _ _); vm_compute; reflexivity.
Defined.

Lemma X6_variables_have_their_own_slot_witness :
  NoDup (map fst (symbol_table (snd (analysis src_compare))))
  /\ (forall r, In r (fst (analysis src_compare)) -> category r = Variable_ ->
                exists k, nth_error (map fst (symbol_table (snd (analysis src_compare)))) k
                          = Some (lexeme r)
                          /\ mem_location r = Some (slot (k + 1))
                          /\ 8 * (k + 1) <= stack_size (analysed src_compare))
  /\ (forall r1 r2, In r1 (fst (analysis src_compare)) -> In r2 (fst (analysis src_compare)) ->
                    category r1 = Variable_ -> category r2 = Variable_ ->
                    (mem_location r1 = mem_location r2 <-> lexeme r1 = lexeme r2)).
Proof.
  refine (X6_variables_have_their_own_slot src_compare (scan src_compare)
            (classify src_compare) (fst (analysis src_compare))
            (snd (analysis src_compare)) _ _ _); vm_compute; reflexivity.
Defined.

Lemma X7_unique_labels_witness :
  label_count (set_label_count 1 (__init__ EmptyString))
  = label_count (__init__ EmptyString) + 1
  /\ (".L_ELSE_1" = ".L_END_WHEN_2"
      <-> "ELSE" = "END_WHEN"
          /\ label_count (__init__ EmptyString)
             = label_count (set_label_count 1 (__init__ EmptyString)))
  /\ (label_count (set_label_count 1 (__init__ EmptyString))
      <= label_count (set_label_count 1 (__init__ EmptyString)) ->
      ".L_ELSE_1" <> ".L_END_WHEN_2").
Proof.
  exact (X7_unique_labels "ELSE" "END_WHEN"
           (__init__ EmptyString) (set_label_count 1 (__init__ EmptyString))
           ".L_ELSE_1" ".L_END_WHEN_2"
           (set_label_count 1 (__init__ EmptyString))
           (set_label_count 2 (__init__ EmptyString))
           eq_refl eq_refl).
Defined.

Lemma X8_string_constants_numbered_witness :
  label_count (snd (analysis src_countdown))
  = length (string_literals (snd (analysis src_countdown)))
  /\ map snd (string_literals (snd (analysis src_countdown)))
     = map (label_of "STR") (seq 1 (length (string_literals (snd (analysis src_countdown)))))
  /\ NoDup (map snd (string_literals (snd (analysis src_countdown))))
  /\ forall r, In r (fst (analysis src_countdown)) -> category r = StringLiteral ->
               exists i, i < length (string_literals (snd (analysis src_countdown)))
                         /\ dict_get (lexeme r) (string_literals (snd (analysis src_countdown)))
                            = Some (label_of "STR" (i + 1)).
Proof.
  refine (X8_string_constants_numbered src_countdown (scan src_countdown)
            (classify src_countdown) (fst (analysis src_countdown))
            (snd (analysis src_countdown)) _ _ _); vm_compute; reflexivity.
Defined.

Lemma X9_block_end_closes_the_brace_witness :
  __init__ EmptyString = __init__ EmptyString
  /\ 11 < 32 <= length (classify src_countdown)
  /\ (exists r, nth_error (classify src_countdown) (32 - 1) = Some r /\ lexeme r = "}")
  /\ count_lexeme "{" (slice (classify src_countdown) 11 (32 - 1))
     = count_lexeme "}" (slice (classify src_countdown) 11 (32 - 1))
  /\ forall k, 11 <= k <= 32 - 1 ->
               count_lexeme "}" (slice (classify src_countdown) 11 k)
               <= count_lexeme "{" (slice (classify src_countdown) 11 k).
Proof.
  assert (E : find_block_end (classify src_countdown) 11 (__init__ EmptyString)
              = Ok (32, __init__ EmptyString)) by (vm_compute; reflexivity).
  pose proof (X9_block_end_closes_the_brace (classify src_countdown) 11
                (__init__ EmptyString) (Nat.lt_0_succ 10)) as H.
  rewrite E in H. exact H.
Defined.

Lemma X10_labels_defined_once_witness :
  exists labels : list (string * nat),
    label_defs (fst (generated src_countdown)) = map def_line labels
    /\ Permutation (map snd labels)
                   (seq (label_count (analysed src_countdown) + 1)
                        (label_count (snd (generated src_countdown))
                         - label_count (analysed src_countdown))).
Proof.
  refine (X10_labels_defined_once (fst (analysis src_countdown)) 0 (analysed src_countdown)
            (fst (generated src_countdown)) (snd (generated src_countdown)) _ _ _).
  - vm_compute. repeat constructor.
  - vm_compute. repeat constructor.
  - vm_compute. reflexivity.
Defined.

Lemma X11_jumps_go_to_defined_labels_witness :
  (forall t, In t (jump_targets (fst (generated src_countdown))) ->
             In (t ^^ ":") (label_defs (fst (generated src_countdown)))
             \/ In t (loop_end_stack (analysed src_countdown)))
  /\ (loop_end_stack (analysed src_countdown) = [] ->
      forall t, In t (jump_targets (fst (generated src_countdown))) ->
                In (t ^^ ":") (label_defs (fst (generated src_countdown)))).
Proof.
  refine (X11_jumps_go_to_defined_labels (fst (analysis src_countdown)) 0
            (analysed src_countdown)
            (fst (generated src_countdown)) (snd (generated src_countdown)) _ _ _).
  - vm_compute. repeat constructor.
  - vm_compute. repeat constructor.
  - vm_compute. reflexivity.
Defined.

Lemma X12_program_labels_witness :
  NoDup (map (fun label => label ^^ ":")
             (map snd (string_literals (snd (analysis src_countdown))))
           ++ label_defs (fst (generated src_countdown)))
  /\ (exists labels : list (string * nat),
        label_defs (fst (generated src_countdown)) = map def_line labels
        /\ Permutation (map snd labels)
                       (seq (length (string_literals (snd (analysis src_countdown))) + 1)
                            (label_count (snd (generated src_countdown))
                             - length (string_literals (snd (analysis src_countdown))))))
  /\ forall t, In t (jump_targets (fst (generated src_countdown))) ->
               In (t ^^ ":") (label_defs (fst (generated src_countdown))).
Proof.
  refine (X12_program_labels src_countdown (scan src_countdown) (classify src_countdown)
            (fst (analysis src_countdown)) (snd (analysis src_countdown))
            (fst (generated src_countdown)) (snd (generated src_countdown)) _ _ _ _ _);
    try (vm_compute; reflexivity).
  apply (proj1 (Forall_forall
                  (fun r => category r = StringLiteral -> no_nl (lexeme r) = true) _)).
  vm_compute. repeat constructor.
Defined.

Lemma X13_declared_before_use_witness :
  declared_before (fst (analysis src_compare)) 12 ".y".
Proof.
  refine (X13_declared_before_use src_compare (scan src_compare) (classify src_compare)
            (fst (analysis src_compare)) (snd (analysis src_compare)) _ _ _
            12 (row_of (fst (analysis src_compare)) 12) _ _); vm_compute; reflexivity.
Defined.

Lemma X14_analysis_keeps_rows_witness :
  length (fst (analysis src_compare)) = length (classify src_compare)
  /\ map lexeme (fst (analysis src_compare)) = map lexeme (classify src_compare)
  /\ map category (fst (analysis src_compare)) = map category (classify src_compare)
  /\ map line (fst (analysis src_compare)) = map line (classify src_compare)
  /\ forall j r, nth_error (classify src_compare) j = Some r -> category r <> Variable_ ->
                 nth_error (fst (analysis src_compare)) j = Some r.
Proof.
  refine (X14_analysis_keeps_rows (classify src_compare)
            (categorized_state src_compare (scan src_compare) (classify src_compare))
            (fst (analysis src_compare)) (snd (analysis src_compare)) _).
  vm_compute. reflexivity.
Defined.

Lemma X15_operator_without_instruction_witness :
  generate (fst (analysis src_compare)) 10 (analysed src_compare)
  = match generate (fst (analysis src_compare)) 15 (analysed src_compare) with
    | Ok (rest, self') =>
        Ok ((nl ^^ "    # Katappa: .x = ...")
              :: "    movq    -16(%rbp), %rax"
              :: "    movq    %rax, -8(%rbp)"
              :: rest, self')
    | Raise e => Raise e
    | OutOfFuel => OutOfFuel
    end.
Proof.
  refine (X15_operator_without_instruction (fst (analysis src_compare)) 10
            (analysed src_compare)
            (row_of (fst (analysis src_compare)) 10) (row_of (fst (analysis src_compare)) 11)
            (row_of (fst (analysis src_compare)) 12) (row_of (fst (analysis src_compare)) 13)
            (row_of (fst (analysis src_compare)) 14) _ _ _ _ _ _ _ _ _ _ _);
    try (vm_compute; reflexivity).
  - vm_compute. intuition discriminate.
  - right. vm_compute. reflexivity.
Defined.

Lemma X16_error_line_is_in_the_source_witness :
  position_line src_unknown 2 /\ 1 <= 2 <= 1 + count_nl src_unknown.
Proof.
  refine (X16_error_line_is_in_the_source src_unknown "Unknown symbol 'foo'" 2 _).
  vm_compute. reflexivity.
Defined.

Lemma X18_print_loads_its_constant_witness :
  exists label,
    In (label ^^ ": .string " ^^ lexeme (row_of (fst (analysis src_countdown)) 22))
       (data_section (string_literals (snd (analysis src_countdown))))
    /\ generate (fst (analysis src_countdown)) 21 (analysed src_countdown)
       = match generate (fst (analysis src_countdown)) (21 + 2) (analysed src_countdown) with
         | Ok (rest, self') =>
             Ok ((nl ^^ "    # Katappa: print "
                     ^^ lexeme (row_of (fst (analysis src_countdown)) 22) ^^ ";")
                   :: ("    leaq    " ^^ label ^^ "(%rip), %rcx")
                   :: "    subq    $32, %rsp"
                   :: "    movq    $0, %rax"
                   :: "    call    printf"
                   :: "    addq    $32, %rsp"
                   :: rest, self')
         | Raise e => Raise e
         | OutOfFuel => OutOfFuel
         end.
Proof.
  refine (X18_print_loads_its_constant src_countdown (scan src_countdown)
            (classify src_countdown) (fst (analysis src_countdown))
            (snd (analysis src_countdown)) (fst (analysis src_countdown)) 21
            (analysed src_countdown)
            (row_of (fst (analysis src_countdown)) 21)
            (row_of (fst (analysis src_countdown)) 22) _ _ _ _ _ _ _ _ _);
    try (vm_compute; reflexivity).
  intros r H. exact H.
Defined.

Lemma X19_one_declaration_per_name_witness : 5 = 5.
Proof.
  assert (D : declares (fst (analysis src_compare)) 5 ".y").
  { exists (row_of (fst (analysis src_compare)) 5), (row_of (fst (analysis src_compare)) 6).
    vm_compute. repeat split; reflexivity. }
  refine (X19_one_declaration_per_name src_compare (scan src_compare)
            (classify src_compare) (fst (analysis src_compare))
            (snd (analysis src_compare)) _ _ _ 5 5 ".y" D D); vm_compute; reflexivity.
Defined.

Lemma X17_error_report_names_the_line_witness :
  formatted_message "Unknown symbol 'foo'" 2
  = "[Error on line " ^^ str_of_nat 2 ^^ "] " ^^ "Unknown symbol 'foo'"
  /\ forall src' msg' l',
       run_compile src' = Raise (CompilationError msg' l') ->
       formatted_message msg' l' = formatted_message "Unknown symbol 'foo'" 2 ->
       msg' = "Unknown symbol 'foo'" /\ l' = 2.
Proof.
  refine (X17_error_report_names_the_line src_unknown "Unknown symbol 'foo'" 2 _).
  vm_compute. reflexivity.
Defined.

Definition src_strings : string :=
  "print " ^^ dq ^^ "b" ^^ dq ^^ " ; print " ^^ dq ^^ "a" ^^ dq ^^ " ; print "
           ^^ dq ^^ "b" ^^ dq ^^ " ;".

Example strings_in_order_of_first_occurrence :
  exists text s,
    compile (__init__ src_strings) = Ok (text, s)
    /\ string_literals s = [(dq ^^ "b" ^^ dq, ".L_STR_1"); (dq ^^ "a" ^^ dq, ".L_STR_2")]
    /\ String.prefix (".section .rodata" ^^ nl
                        ^^ ".L_STR_1: .string " ^^ dq ^^ "b" ^^ dq ^^ nl
                        ^^ ".L_STR_2: .string " ^^ dq ^^ "a" ^^ dq ^^ nl) text = true.
Proof. do 2 eexists. split; [vm_compute; reflexivity|]. split; vm_compute; reflexivity. Qed.

Lemma C6_compile_deterministic_witness :
  compile (__init__ src_strings) = compile (__init__ src_strings)
  /\ (forall text s1,
         compile (__init__ src_strings) = Ok (text, s1) ->
         run_compile src_strings = Ok text)
  /\ (forall text s2,
         compile (__init__ src_strings) = Ok (text, s2) ->
         run_compile src_strings = Ok text)
  /\ (forall text s1,
         compile (__init__ src_strings) = Ok (text, s1) ->
         map fst (string_literals s1) = first_seen [] (string_lexemes (pst s1))
         /\ map snd (string_literals s1)
            = map (label_of "STR") (seq 1 (length (string_literals s1)))
         /\ exists rows' self3 text_section,
              label_count (analyzed_state rows' self3) = length (string_literals s1)
              /\ generate rows' 0 (analyzed_state rows' self3) = Ok (text_section, s1)
              /\ text = String.concat nl
                          (data_section (string_literals s1)
                             ++ main_prologue (stack_size s1)
                             ++ text_section ++ main_epilogue) ^^ nl)
  /\ (forall text s1,
         compile (__init__ src_strings) = Ok (text, s1) ->
         (forall r, In r (pst s1) -> category r = StringLiteral ->
                    no_nl (lexeme r) = true) ->
         exists rows' self3 text_section labels,
           generate rows' 0 (analyzed_state rows' self3) = Ok (text_section, s1)
           /\ label_defs text_section = map def_line labels
           /\ Permutation (map snd labels)
                          (seq (length (string_literals s1) + 1)
                               (label_count s1 - length (string_literals s1)))).
Proof.
  refine (C6_compile_deterministic src_strings (__init__ src_strings)
            (__init__ src_strings) _ _ _ _); try reflexivity; repeat split.
Defined.
